(** * Reddit-Filter backend: ingestion client, ETL orchestration and search

    A shallow embedding of the TypeScript backend
    ([services/redditService.ts], [services/etlService.ts],
    [models/subredditModel.ts], [models/postModel.ts],
    [models/authorModel.ts], [utils/redis.ts], the SQL schema) together
    with the properties its specification states about it.  The
    definitions of the embedding come first, then the vocabulary of the
    properties, then the proofs.

    The process threads one mutable world: the wall clock read by
    [Date.now()], the fields of the [RedditService] singleton, the Redis
    cache, the remote API (a script of pending replies), the PostgreSQL
    tables and an observation log.  Every [async] method is a computation
    in a state-and-exception monad over that world; [await]ed timers and
    network calls advance the clock.  A computation in the monad is one
    call run from its start to its end with no other call of the process
    running in between; what calls that overlap at their [await]s can do
    to the throttle is modelled separately ([ThrottleCall], [event_loop]). *)

From Stdlib Require Import ZArith Lia DecimalString DecimalZ Ascii.
From Stdlib Require Import Sorting.Sorted Sorting.Permutation.
From stdpp Require Import prelude strings gmap.
From Equations Require Import Equations.

Open Scope Z_scope.

(* ================================================================== *)
(** * Values shared by the modules ([types/index.ts]) *)
(* ================================================================== *)

(** A thrown JavaScript error: [error.response?.status] and
    [error.message]. *)
Record Exn := mkExn {
  exn_status : option Z;
  exn_message : string
}.

Inductive Result (A : Type) : Type :=
| Ok (a : A)
| Throw (e : Exn).
Arguments Ok {A} a.
Arguments Throw {A} e.

Record RedditPost := mkRedditPost {
  rp_id : string;
  rp_title : string;
  rp_selftext : string;
  rp_author : string;
  rp_subreddit : string;
  rp_score : Z;
  rp_ups : Z;
  rp_downs : Z;
  rp_num_comments : Z;
  rp_created_utc : Z;
  rp_url : string;
  rp_permalink : string
}.

Record RedditComment := mkRedditComment {
  rc_id : string;
  rc_body : string;
  rc_author : string;
  rc_score : Z;
  rc_created_utc : Z;
  rc_link_id : string
}.

(** The [Post] argument of [PostModel.create] ([Omit<Post, 'id'>]). *)
Record Post := mkPost {
  reddit_id : string;
  title : string;
  content : option string;
  subreddit_id : Z;
  author_id : option Z;
  score : Z;
  upvotes : Z;
  downvotes : Z;
  comment_count : Z;
  created_utc : Z;
  url : string;
  processed : bool
}.

Record DateRange := mkDateRange {
  dr_start : option Z;
  dr_end : option Z
}.

Record SearchQuery := mkSearchQuery {
  keywords : list string;
  requiredKeywords : option (list string);
  sq_subreddits : option (list string);
  minUpvotes : option Z;
  minKarma : option Z;
  dateRange : option DateRange;
  sq_limit : option Z;
  sq_offset : option Z
}.

(* ================================================================== *)
(** * The relational store (the SQL schema) *)
(* ================================================================== *)

Record SubredditRow := mkSubredditRow {
  sr_id : Z;
  sr_name : string;
  sr_description : option string;
  sr_subscribers_count : Z;
  sr_created_at : Z;
  sr_updated_at : Z
}.

Record AuthorRow := mkAuthorRow {
  ar_id : Z;
  ar_username : string;
  ar_link_karma : Z;
  ar_comment_karma : Z;
  ar_account_created_utc : option Z;
  ar_created_at : Z;
  ar_updated_at : Z
}.

(** A row of [posts].  [pr_relevance_score] is a [FLOAT] column; the only
    writer, [updateRelevanceScore], stores integer sums. *)
Record PostRow := mkPostRow {
  pr_id : Z;
  pr_reddit_id : string;
  pr_title : string;
  pr_content : option string;
  pr_subreddit_id : option Z;
  pr_author_id : option Z;
  pr_score : Z;
  pr_upvotes : Z;
  pr_downvotes : Z;
  pr_comment_count : Z;
  pr_created_utc : Z;
  pr_url : string;
  pr_processed : bool;
  pr_relevance_score : Z;
  pr_created_at : Z;
  pr_updated_at : Z
}.

(** What the database server does with the next statement it receives:
    how much its clock ([NOW()]) has advanced since the previous
    statement, and whether the statement is rejected (lost connection,
    violated constraint outside the ones modelled below, ...). *)
Record QueryEnv := mkQueryEnv {
  q_elapsed : N;
  q_fault : option string
}.

Record Db := mkDb {
  subreddits : list SubredditRow;
  authors : list AuthorRow;
  posts : list PostRow;
  subreddits_id_seq : Z;
  authors_id_seq : Z;
  posts_id_seq : Z;
  db_now : Z;
  db_script : list QueryEnv
}.

Definition set_subreddits (v : list SubredditRow) (d : Db) : Db :=
  mkDb v (authors d) (posts d) (subreddits_id_seq d) (authors_id_seq d)
       (posts_id_seq d) (db_now d) (db_script d).
Definition set_authors (v : list AuthorRow) (d : Db) : Db :=
  mkDb (subreddits d) v (posts d) (subreddits_id_seq d) (authors_id_seq d)
       (posts_id_seq d) (db_now d) (db_script d).
Definition set_posts (v : list PostRow) (d : Db) : Db :=
  mkDb (subreddits d) (authors d) v (subreddits_id_seq d) (authors_id_seq d)
       (posts_id_seq d) (db_now d) (db_script d).
Definition set_subreddits_id_seq (v : Z) (d : Db) : Db :=
  mkDb (subreddits d) (authors d) (posts d) v (authors_id_seq d)
       (posts_id_seq d) (db_now d) (db_script d).
Definition set_authors_id_seq (v : Z) (d : Db) : Db :=
  mkDb (subreddits d) (authors d) (posts d) (subreddits_id_seq d) v
       (posts_id_seq d) (db_now d) (db_script d).
Definition set_posts_id_seq (v : Z) (d : Db) : Db :=
  mkDb (subreddits d) (authors d) (posts d) (subreddits_id_seq d)
       (authors_id_seq d) v (db_now d) (db_script d).
Definition set_db_now (v : Z) (d : Db) : Db :=
  mkDb (subreddits d) (authors d) (posts d) (subreddits_id_seq d)
       (authors_id_seq d) (posts_id_seq d) v (db_script d).
Definition set_db_script (v : list QueryEnv) (d : Db) : Db :=
  mkDb (subreddits d) (authors d) (posts d) (subreddits_id_seq d)
       (authors_id_seq d) (posts_id_seq d) (db_now d) v.

(* ================================================================== *)
(** * The remote API, the cache and the client's fields *)
(* ================================================================== *)

(** Rate-limit response headers, already split off the header map: a
    header that is absent (or empty, hence falsy) is [None], otherwise
    the number [parseFloat]/[parseInt] reads from it. *)
Record Headers := mkHeaders {
  x_ratelimit_remaining : option Z;
  x_ratelimit_reset : option Z
}.

(** [child.data] of a listing entry, before [normalizePostData]. *)
Record RawPost := mkRawPost {
  raw_id : string;
  raw_title : string;
  raw_selftext : option string;
  raw_author : string;
  raw_subreddit : string;
  raw_score : Z;
  raw_ups : Z;
  raw_downs : Z;
  raw_num_comments : Z;
  raw_created_utc : Z;
  raw_url : string;
  raw_permalink : string
}.

(** A node of a comment tree: [child.kind], [child.data] and
    [child.data.replies.data.children] when [child.data.replies] is an
    object carrying [data] ([None] when it is absent or the empty
    string). *)
#[warnings="-register-all"]
Inductive Thing : Type :=
| mkThing (kind : string) (data : RedditComment) (replies : option (list Thing)).

Inductive Body :=
| BToken (access_token : string) (expires_in : Z)
| BListing (children : list (string * RawPost))
| BComments (children : list Thing).

Inductive HttpResult :=
| NetError (status : option Z) (message : string)
| NetOk (headers : Headers) (body : Body).

(** One scripted reply of the remote side: the time the round trip
    takes and its result. *)
Record NetReply := mkNetReply {
  latency : N;
  reply : HttpResult
}.

Inductive Request :=
| ReqToken
| ReqGet (url : string).

Inductive SleepReason :=
| SleepInterval     (* "Waiting ...ms between requests" *)
| SleepRedditQuota  (* "Reddit rate limit reached" *)
| SleepLocalLimit   (* "Local rate limit reached" *)
| SleepBackoff.     (* "429 Too Many Requests. Retrying in ..." *)

(** The observation log: what a test double around the timers, the
    cache and the HTTP layer would record, in order, together with the
    entries into [checkRateLimit] ([EvThrottle]) and [authenticate]
    ([EvAuthenticate]) and the instants stamped into [lastRequestTime]
    ([EvPaced]). *)
Inductive Event :=
| EvCacheGet (key : string)
| EvCacheSet (key : string) (ttl : Z)
| EvThrottle
| EvSleep (why : SleepReason) (ms : Z)
| EvPaced (at_ : Z)
| EvAuthenticate
| EvRequest (at_ : Z) (req : Request).

Record CacheEntry := mkCacheEntry {
  ce_value : list RedditPost;
  ce_expires : Z
}.

Record Service := mkService {
  accessToken : option string;
  tokenExpiry : Z;
  requestCount : Z;
  lastResetTime : Z;
  lastRequestTime : Z;
  redditRateLimitRemaining : Z;
  redditRateLimitReset : Z
}.

Definition set_accessToken (v : option string) (s : Service) : Service :=
  mkService v (tokenExpiry s) (requestCount s) (lastResetTime s)
            (lastRequestTime s) (redditRateLimitRemaining s) (redditRateLimitReset s).
Definition set_tokenExpiry (v : Z) (s : Service) : Service :=
  mkService (accessToken s) v (requestCount s) (lastResetTime s)
            (lastRequestTime s) (redditRateLimitRemaining s) (redditRateLimitReset s).
Definition set_requestCount (v : Z) (s : Service) : Service :=
  mkService (accessToken s) (tokenExpiry s) v (lastResetTime s)
            (lastRequestTime s) (redditRateLimitRemaining s) (redditRateLimitReset s).
Definition set_lastResetTime (v : Z) (s : Service) : Service :=
  mkService (accessToken s) (tokenExpiry s) (requestCount s) v
            (lastRequestTime s) (redditRateLimitRemaining s) (redditRateLimitReset s).
Definition set_lastRequestTime (v : Z) (s : Service) : Service :=
  mkService (accessToken s) (tokenExpiry s) (requestCount s) (lastResetTime s)
            v (redditRateLimitRemaining s) (redditRateLimitReset s).
Definition set_redditRateLimitRemaining (v : Z) (s : Service) : Service :=
  mkService (accessToken s) (tokenExpiry s) (requestCount s) (lastResetTime s)
            (lastRequestTime s) v (redditRateLimitReset s).
Definition set_redditRateLimitReset (v : Z) (s : Service) : Service :=
  mkService (accessToken s) (tokenExpiry s) (requestCount s) (lastResetTime s)
            (lastRequestTime s) (redditRateLimitRemaining s) v.

(** [process.env] as read by the client. *)
Record Env := mkEnv {
  RATE_LIMIT : Z;
  MIN_REQUEST_INTERVAL : Z;
  REDDIT_CLIENT_ID : option string;
  REDDIT_CLIENT_SECRET : option string
}.

(* ================================================================== *)
(** * The world and its monad *)
(* ================================================================== *)

Record World := mkWorld {
  now : Z;
  svc : Service;
  redis : gmap string CacheEntry;
  redis_up : bool;
  net : list NetReply;
  trace : list Event;
  db : Db
}.

Definition set_now (v : Z) (w : World) : World :=
  mkWorld v (svc w) (redis w) (redis_up w) (net w) (trace w) (db w).
Definition set_svc (v : Service) (w : World) : World :=
  mkWorld (now w) v (redis w) (redis_up w) (net w) (trace w) (db w).
Definition set_redis (v : gmap string CacheEntry) (w : World) : World :=
  mkWorld (now w) (svc w) v (redis_up w) (net w) (trace w) (db w).
Definition set_net (v : list NetReply) (w : World) : World :=
  mkWorld (now w) (svc w) (redis w) (redis_up w) v (trace w) (db w).
Definition set_trace (v : list Event) (w : World) : World :=
  mkWorld (now w) (svc w) (redis w) (redis_up w) (net w) v (db w).
Definition set_db (v : Db) (w : World) : World :=
  mkWorld (now w) (svc w) (redis w) (redis_up w) (net w) (trace w) v.

Definition M (A : Type) : Type := World -> Result A * World.

Definition ret {A} (a : A) : M A := fun w => (Ok a, w).

Definition bind {A B} (m : M A) (k : A -> M B) : M B := fun w =>
  match m w with
  | (Ok a, w') => k a w'
  | (Throw e, w') => (Throw e, w')
  end.

Definition throw {A} (e : Exn) : M A := fun w => (Throw e, w).

(** [try { m } catch (error) { h error }] *)
Definition try_catch {A} (m : M A) (h : Exn -> M A) : M A := fun w =>
  match m w with
  | (Ok a, w') => (Ok a, w')
  | (Throw e, w') => h e w'
  end.

Notation "'let*' x ':=' m 'in' k" := (bind m (fun x => k))
  (at level 10, x binder, m at level 100, k at level 200, only parsing).

Definition when (b : bool) (m : M unit) : M unit :=
  if b then m else ret tt.

Definition Date_now : M Z := fun w => (Ok (now w), w).
Definition get_svc : M Service := fun w => (Ok (svc w), w).
Definition modify_svc (f : Service -> Service) : M unit := fun w =>
  (Ok tt, set_svc (f (svc w)) w).
Definition emit (e : Event) : M unit := fun w =>
  (Ok tt, set_trace (trace w ++ [e]) w).

(** The delay Node's [setTimeout] really arms: a delay below 1 or above
    2^31-1 is replaced by 1. *)
Definition timer_delay (ms : Z) : Z :=
  if (ms <? 1) || (2147483647 <? ms) then 1 else ms.

(** [await new Promise(resolve => setTimeout(resolve, ms))] *)
Definition sleep (why : SleepReason) (ms : Z) : M unit := fun w =>
  (Ok tt, set_now (now w + timer_delay ms) (set_trace (trace w ++ [EvSleep why ms]) w)).

(* ================================================================== *)
(** * JavaScript coercions used by the sources *)
(* ================================================================== *)

(** [s || null] and [s || ''] on an optional string: the empty string is
    falsy. *)
Definition or_null (s : option string) : option string :=
  match s with
  | Some EmptyString => None
  | other => other
  end.

Definition or_empty (s : option string) : string :=
  match s with
  | Some x => x
  | None => EmptyString
  end.

(** [n || dflt] on an optional number: [undefined] and [0] are falsy. *)
Definition or_default (n : option Z) (dflt : Z) : Z :=
  match n with
  | Some v => if v =? 0 then dflt else v
  | None => dflt
  end.

(** [n || null] on an optional number. *)
Definition num_or_null (n : option Z) : option Z :=
  match n with
  | Some v => if v =? 0 then None else Some v
  | None => None
  end.

(** Truthiness of an optional string ([undefined], [null] and [''] are
    falsy). *)
Definition truthy (s : option string) : bool :=
  match s with
  | Some EmptyString => false
  | Some _ => true
  | None => false
  end.

(** A number inside a template literal. *)
Definition show_number (n : Z) : string := NilZero.string_of_int (Z.to_int n).

Definition lower_ascii (c : Ascii.ascii) : Ascii.ascii :=
  let n := Ascii.N_of_ascii c in
  if ((65 <=? n) && (n <=? 90))%N then Ascii.ascii_of_N (n + 32) else c.

(** A string all of whose characters are ASCII. *)
Definition ascii_text (s : string) : Prop :=
  Forall (fun c => (Ascii.N_of_ascii c < 128)%N) (String.list_ascii_of_string s).

(** [String.prototype.toLowerCase] on ASCII text ([ascii_text]), where
    it folds [A]-[Z] and nothing else.  On other text the code folds by
    the Unicode tables, which are not modelled: the statements that
    involve [toLowerCase] are about ASCII text only. *)
Definition toLowerCase (s : string) : string :=
  String.string_of_list_ascii (map lower_ascii (String.list_ascii_of_string s)).

(* ================================================================== *)
(** * Statements against the store ([utils/database.ts]) *)
(* ================================================================== *)

(** Modelled from the spec: [utils/database.ts], which exports [query],
    is not among the sources.  The storage gateway runs one parameterised
    statement; a statement the server rejects raises an error to the
    caller (a persistence error), and nothing of it is applied.  The
    statement itself is given as its effect on the tables. *)
Definition query {A} (stmt : Db -> Result A * Db) : M A := fun w =>
  let d := db w in
  match db_script d with
  | [] => let '(r, d') := stmt d in (r, set_db d' w)
  | e :: rest =>
      let d1 := set_db_script rest (set_db_now (db_now d + Z.of_N (q_elapsed e)) d) in
      match q_fault e with
      | Some msg => (Throw (mkExn None msg), set_db d1 w)
      | None => let '(r, d') := stmt d1 in (r, set_db d' w)
      end
  end.

Definition unique_violation : Exn :=
  mkExn None "duplicate key value violates unique constraint".

(** The quotation mark of the server's messages. *)
Definition dquote : string := String (Ascii.ascii_of_N 34) EmptyString.

(** The range of an [INTEGER] column. *)
Definition int4 (n : Z) : bool := (-2147483648 <=? n) && (n <=? 2147483647).

(** The error of [nextval] on the sequence of a [SERIAL] column that has
    given out its last value. *)
Definition sequence_exhausted (sequence : string) : Exn :=
  mkExn None ("nextval: reached maximum value of sequence "
                +:+ dquote +:+ sequence +:+ dquote +:+ " (2147483647)").

(** The error for the parameter [n] bound to an [INTEGER] column it
    does not fit. *)
Definition out_of_range (n : Z) : Exn :=
  mkExn None ("value " +:+ dquote +:+ show_number n +:+ dquote
                +:+ " is out of range for type integer").

(** The error for a row of [posts] whose reference has no target. *)
Definition foreign_key_violation (constraint : string) : Exn :=
  mkExn None ("insert or update on table " +:+ dquote +:+ "posts" +:+ dquote
                +:+ " violates foreign key constraint "
                +:+ dquote +:+ constraint +:+ dquote).

(** [ORDER BY key DESC]: rows with equal keys keep their table order,
    which SQL leaves unspecified. *)
Fixpoint insert_desc {A} (key : A -> Z) (x : A) (l : list A) : list A :=
  match l with
  | [] => [x]
  | y :: l' => if key y <=? key x then x :: y :: l' else y :: insert_desc key x l'
  end.

Definition order_desc {A} (key : A -> Z) (l : list A) : list A :=
  foldr (insert_desc key) [] l.


(** A JavaScript [Map] with string keys: the entries in insertion order;
    [set] on a key that is present replaces its value in place. *)
Fixpoint map_set {V} (key : string) (v : V) (m : list (string * V)) : list (string * V) :=
  match m with
  | [] => [(key, v)]
  | (k, x) :: rest =>
      if bool_decide (k = key) then (k, v) :: rest else (k, x) :: map_set key v rest
  end.

Fixpoint map_get {V} (key : string) (m : list (string * V)) : option V :=
  match m with
  | [] => None
  | (k, x) :: rest => if bool_decide (k = key) then Some x else map_get key rest
  end.


(* ================================================================== *)
(** * [models/subredditModel.ts] *)
(* ================================================================== *)

Module SubredditModel.

(** [SELECT id FROM subreddits WHERE name = $1] *)
Definition select_id (name : string) (d : Db) : Result (list Z) * Db :=
  (Ok (map sr_id (filter (fun r => sr_name r = name) (subreddits d))), d).

(** [INSERT INTO subreddits (name, description, subscribers_count)
    VALUES ($1, $2, $3) RETURNING id]; [name] is [UNIQUE], [id] is
    [SERIAL], the two timestamps default to [NOW()]. *)
Definition insert (name : string) (description : option string)
    (subscribers_count : Z) (d : Db) : Result Z * Db :=
  let id := subreddits_id_seq d + 1 in
  if bool_decide (Exists (fun r => sr_name r = name) (subreddits d))
  then (Throw unique_violation, d)
  else (Ok id,
        set_subreddits_id_seq id
          (set_subreddits
             (subreddits d ++
                [mkSubredditRow id name description subscribers_count
                                (db_now d) (db_now d)]) d)).

Definition findOrCreate (name : string) (description : option string)
    (subscribersCount : option Z) : M Z :=
  let* existingResult := query (select_id name) in
  match existingResult with
  | id :: _ => ret id
  | [] => query (insert name (or_null description) (or_default subscribersCount 0))
  end.


(** [SELECT * FROM subreddits ORDER BY subscribers_count DESC] *)
Definition findAll : M (list SubredditRow) :=
  query (fun d => (Ok (order_desc sr_subscribers_count (subreddits d)), d)).



End SubredditModel.

(* ================================================================== *)
(** * [models/authorModel.ts] *)
(* ================================================================== *)

Module AuthorModel.

(** [SELECT id FROM authors WHERE username = $1] *)
Definition select_id (username : string) (d : Db) : Result (list Z) * Db :=
  (Ok (map ar_id (filter (fun r => ar_username r = username) (authors d))), d).

(** A row after [SET link_karma = $1, comment_karma = $2]; the
    [BEFORE UPDATE] trigger of the schema sets [updated_at = NOW()]. *)
Definition overwritten (linkKarma commentKarma t : Z) (r : AuthorRow) : AuthorRow :=
  mkAuthorRow (ar_id r) (ar_username r) linkKarma commentKarma
              (ar_account_created_utc r) (ar_created_at r) t.

(** [UPDATE authors SET link_karma = $1, comment_karma = $2
    WHERE username = $3] *)
Definition update_karma (linkKarma commentKarma : Z) (username : string)
    (d : Db) : Result unit * Db :=
  (Ok tt,
   set_authors
     (map (fun r =>
             if bool_decide (ar_username r = username)
             then overwritten linkKarma commentKarma (db_now d) r
             else r)
          (authors d)) d).

(** [INSERT INTO authors (username, link_karma, comment_karma)
    VALUES ($1, $2, $3) RETURNING id] *)
Definition insert (username : string) (linkKarma commentKarma : Z)
    (d : Db) : Result Z * Db :=
  let id := authors_id_seq d + 1 in
  if bool_decide (Exists (fun r => ar_username r = username) (authors d))
  then (Throw unique_violation, d)
  else (Ok id,
        set_authors_id_seq id
          (set_authors
             (authors d ++
                [mkAuthorRow id username linkKarma commentKarma None
                             (db_now d) (db_now d)]) d)).

Definition findOrCreate (username : string) (linkKarma commentKarma : Z) : M Z :=
  let* existingResult := query (select_id username) in
  match existingResult with
  | id :: _ =>
      (* Update karma if it has changed *)
      let* _ := query (update_karma linkKarma commentKarma username) in
      ret id
  | [] => query (insert username linkKarma commentKarma)
  end.

(** [SELECT * FROM authors WHERE username = $1] *)
Definition findByUsername (username : string) : M (option AuthorRow) :=
  query (fun d => (Ok (head (filter (fun r => ar_username r = username) (authors d))), d)).

(** [SELECT * FROM authors WHERE link_karma > $1 OR comment_karma > $1
    ORDER BY (link_karma + comment_karma) DESC LIMIT 100] *)
Definition findHighKarmaAuthors (minKarma : Z) : M (list AuthorRow) :=
  query (fun d =>
    (Ok (take 100
           (order_desc (fun a => ar_link_karma a + ar_comment_karma a)
              (List.filter (fun a => (minKarma <? ar_link_karma a)
                                     || (minKarma <? ar_comment_karma a))
                           (authors d)))), d)).

End AuthorModel.

(* ================================================================== *)
(** * [models/postModel.ts] *)
(* ================================================================== *)

(** The pattern language of [new RegExp(source, 'g')] that is modelled:
    a sequence of atoms, each an ordinary ASCII character or the
    wildcard [.].  A source using any other syntax character, or a
    character outside ASCII, lies outside the fragment. *)
Inductive RegexAtom :=
| RChar (c : Ascii.ascii)
| RAny.

Definition is_syntax_character (c : Ascii.ascii) : bool :=
  bool_decide (c ∈ String.list_ascii_of_string "^$\.*+?()[]{}|").

Fixpoint compile_atoms (source : list Ascii.ascii) : option (list RegexAtom) :=
  match source with
  | [] => Some []
  | c :: rest =>
      match compile_atoms rest with
      | None => None
      | Some atoms =>
          if bool_decide (c = "."%char) then Some (RAny :: atoms)
          else if is_syntax_character c || (128 <=? Ascii.N_of_ascii c)%N then None
          else Some (RChar c :: atoms)
      end
  end.

Definition RegExp (source : string) : option (list RegexAtom) :=
  compile_atoms (String.list_ascii_of_string source).

(** [.] matches every character but a line terminator. *)
Definition atom_matches (a : RegexAtom) (c : Ascii.ascii) : bool :=
  match a with
  | RChar x => bool_decide (x = c)
  | RAny => negb (bool_decide (c = "010"%char) || bool_decide (c = "013"%char))
  end.

Fixpoint matches_at (regex : list RegexAtom) (text : list Ascii.ascii) : bool :=
  match regex, text with
  | [], _ => true
  | _ :: _, [] => false
  | a :: regex', c :: text' => atom_matches a c && matches_at regex' text'
  end.

(** Number of matches of a global regex: the scan restarts where the
    previous match ended, one character further after an empty match;
    [covered] counts the characters of the text still inside the
    previous match. *)
Fixpoint count_matches (regex : list RegexAtom) (covered : nat)
    (text : list Ascii.ascii) : nat :=
  match covered with
  | S k =>
      match text with
      | [] => O
      | _ :: text' => count_matches regex k text'
      end
  | O =>
      if matches_at regex text then
        S (match text with
           | [] => O
           | _ :: text' => count_matches regex (Nat.pred (length regex)) text'
           end)
      else
        match text with
        | [] => O
        | _ :: text' => count_matches regex O text'
        end
  end.

(** [(text.match(regex) || []).length] *)
Definition match_length (regex : list RegexAtom) (text : string) : Z :=
  Z.of_nat (count_matches regex O (String.list_ascii_of_string text)).

Record SearchResult := mkSearchResult {
  res_post : PostRow;
  author_username : option string;
  author_karma : option Z;
  subreddit_name : option string
}.

(** One conjunct appended to the [WHERE 1=1] of [search], with its
    parameter. *)
Inductive Clause :=
| FullText (searchTerms : string)
| Required (pattern : string)
| SubredditAny (names : list string)
| MinScore (n : Z)
| MinAuthorKarma (n : Z)
| CreatedFrom (t : Z)
| CreatedTo (t : Z).

(** A row of [posts p LEFT JOIN authors a LEFT JOIN subreddits s]. *)
Record Joined := mkJoined {
  j_post : PostRow;
  j_author : option AuthorRow;
  j_subreddit : option SubredditRow
}.

Definition join_row (d : Db) (p : PostRow) : Joined :=
  mkJoined p
    (match pr_author_id p with
     | Some i => head (filter (fun a => ar_id a = i) (authors d))
     | None => None
     end)
    (match pr_subreddit_id p with
     | Some i => head (filter (fun s => sr_id s = i) (subreddits d))
     | None => None
     end).

Definition joined_karma (j : Joined) : option Z :=
  match j_author j with
  | Some a => Some (ar_link_karma a + ar_comment_karma a)
  | None => None
  end.

Definition to_result (j : Joined) : SearchResult :=
  mkSearchResult (j_post j)
    (match j_author j with Some a => Some (ar_username a) | None => None end)
    (joined_karma j)
    (match j_subreddit j with Some s => Some (sr_name s) | None => None end).

(** [ORDER BY p.relevance_score DESC, p.score DESC]: [a] may precede
    [b]. *)
Definition rank_geb (a b : Joined) : bool :=
  let ra := pr_relevance_score (j_post a) in
  let rb := pr_relevance_score (j_post b) in
  (rb <? ra) || ((ra =? rb) && (pr_score (j_post b) <=? pr_score (j_post a))).

Fixpoint insert_ranked (x : Joined) (l : list Joined) : list Joined :=
  match l with
  | [] => [x]
  | y :: l' => if rank_geb x y then x :: y :: l' else y :: insert_ranked x l'
  end.

(** The executor's sort.  SQL leaves the order of rows that are equal
    on both keys unspecified, and it may differ from one execution to
    the next; here such rows keep their table order.  No statement about
    [search] relies on that choice: they speak of some list that is
    sorted and holds the matching rows. *)
Definition order_by_rank (l : list Joined) : list Joined :=
  foldr insert_ranked [] l.

Module PostModel.

(** The row a conflict-free insert appends: [post.content || null] and
    [post.author_id || null] are the parameters; [processed],
    [relevance_score] and the two timestamps take their column
    defaults. *)
Definition inserted (post : Post) (id t : Z) : PostRow :=
  mkPostRow id (reddit_id post) (title post) (or_null (content post))
    (Some (subreddit_id post)) (num_or_null (author_id post))
    (score post) (upvotes post) (downvotes post) (comment_count post)
    (created_utc post) (url post) false 0 t t.

(** The row left in place of a conflicting one: the four counters are
    taken from the proposed row, and the [BEFORE UPDATE] trigger of
    the schema sets [updated_at = NOW()]. *)
Definition refreshed (post : Post) (t : Z) (r : PostRow) : PostRow :=
  mkPostRow (pr_id r) (pr_reddit_id r) (pr_title r) (pr_content r)
    (pr_subreddit_id r) (pr_author_id r)
    (score post) (upvotes post) (downvotes post) (comment_count post)
    (pr_created_utc r) (pr_url r) (pr_processed r)
    (pr_relevance_score r) (pr_created_at r) t.

(** The parameters bound to [INTEGER] columns, in the order [$4] to
    [$9]. *)
Definition integer_parameters (post : Post) : list Z :=
  subreddit_id post
    :: match num_or_null (author_id post) with
       | Some a => [a]
       | None => []
       end
    ++ [score post; upvotes post; downvotes post; comment_count post].

(** The statement as the server runs it.  A parameter that does not fit
    its [INTEGER] column is refused when the parameters are bound,
    before anything is executed.  Otherwise the sequence behind [id]
    advances for the proposed row, also when the row then conflicts or
    is refused, unless it has reached the end of the [INTEGER] range.
    A conflicting row is updated in place; its two
    references are not assigned, so they are not checked again.  A row
    without conflict is inserted if its two references point to
    existing rows ([posts_subreddit_id_fkey] is checked before
    [posts_author_id_fkey]; a [NULL] reference is not checked). *)
Definition upsert (post : Post) (d : Db) : Result Z * Db :=
  match List.find (fun n => negb (int4 n)) (integer_parameters post) with
  | Some n => (Throw (out_of_range n), d)
  | None =>
      if 2147483647 <=? posts_id_seq d
      then (Throw (sequence_exhausted "posts_id_seq"), d)
      else
        let id := posts_id_seq d + 1 in
        let d := set_posts_id_seq id d in
        match filter (fun r => pr_reddit_id r = reddit_id post) (posts d) with
        | existing :: _ =>
            (Ok (pr_id existing),
             set_posts
               (map (fun r =>
                       if bool_decide (pr_reddit_id r = reddit_id post)
                       then refreshed post (db_now d) r
                       else r)
                    (posts d)) d)
        | [] =>
            if negb (bool_decide (subreddit_id post ∈ map sr_id (subreddits d)))
            then (Throw (foreign_key_violation "posts_subreddit_id_fkey"), d)
            else if match num_or_null (author_id post) with
                    | Some a => negb (bool_decide (a ∈ map ar_id (authors d)))
                    | None => false
                    end
            then (Throw (foreign_key_violation "posts_author_id_fkey"), d)
            else (Ok id, set_posts (posts d ++ [inserted post id (db_now d)]) d)
        end
  end.

(** [INSERT INTO posts (...) VALUES (...) ON CONFLICT (reddit_id)
    DO UPDATE SET score = EXCLUDED.score, upvotes = EXCLUDED.upvotes,
    downvotes = EXCLUDED.downvotes, comment_count = EXCLUDED.comment_count
    RETURNING id] *)
Definition create (post : Post) : M Z := query (upsert post).

Section Search.

(** PostgreSQL's text operators:
    [to_tsvector('english', doc) @@ to_tsquery('english', terms)] and
    [text ILIKE pattern]. *)
Variable ts_match : string -> string -> bool.
Variable ilike : string -> string -> bool.

Definition where_clauses (searchQuery : SearchQuery) : list Clause :=
  (match keywords searchQuery with
   | [] => []
   | ks => [FullText (String.concat " | " ks)]
   end)
  ++ (match requiredKeywords searchQuery with
      | Some ks => map (fun keyword => Required ("%" +:+ keyword +:+ "%")) ks
      | None => []
      end)
  ++ (match sq_subreddits searchQuery with
      | Some (n :: ns) => [SubredditAny (n :: ns)]
      | _ => []
      end)
  ++ (match minUpvotes searchQuery with
      | Some n => [MinScore n]
      | None => []
      end)
  ++ (match minKarma searchQuery with
      | Some n => [MinAuthorKarma n]
      | None => []
      end)
  ++ (match dateRange searchQuery with
      | Some r =>
          (match dr_start r with Some t => [CreatedFrom t] | None => [] end)
          ++ (match dr_end r with Some t => [CreatedTo t] | None => [] end)
      | None => []
      end).

(** A comparison with [NULL] is not true, so the row is dropped. *)
Definition satisfies (j : Joined) (c : Clause) : bool :=
  let p := j_post j in
  match c with
  | FullText terms =>
      ts_match terms (pr_title p) || ts_match terms (or_empty (pr_content p))
  | Required pattern =>
      ilike (pr_title p) pattern
      || match pr_content p with Some c => ilike c pattern | None => false end
  | SubredditAny names =>
      match j_subreddit j with
      | Some s => bool_decide (sr_name s ∈ names)
      | None => false
      end
  | MinScore n => n <=? pr_score p
  | MinAuthorKarma n =>
      match joined_karma j with Some k => n <=? k | None => false end
  | CreatedFrom t => t <=? pr_created_utc p
  | CreatedTo t => pr_created_utc p <=? t
  end.

Definition matching (clauses : list Clause) (d : Db) : list Joined :=
  List.filter (fun j => forallb (satisfies j) clauses) (map (join_row d) (posts d)).

(** [SELECT ... WHERE ... ORDER BY p.relevance_score DESC, p.score DESC
    LIMIT $n OFFSET $n+1]; a negative [OFFSET] or [LIMIT] is an error,
    and the offset is looked at first. *)
Definition select_ranked (clauses : list Clause) (limit offset : Z)
    (d : Db) : Result (list SearchResult) * Db :=
  if offset <? 0 then (Throw (mkExn None "OFFSET must not be negative"), d)
  else if limit <? 0 then (Throw (mkExn None "LIMIT must not be negative"), d)
  else (Ok (map to_result
              (take (Z.to_nat limit)
                 (drop (Z.to_nat offset) (order_by_rank (matching clauses d))))),
        d).

Definition search (searchQuery : SearchQuery) : M (list SearchResult) :=
  let clauses := where_clauses searchQuery in
  let limit := or_default (sq_limit searchQuery) 50 in
  let offset := or_default (sq_offset searchQuery) 0 in
  query (select_ranked clauses limit offset).

End Search.

(** [SELECT title, content FROM posts WHERE id = $1] *)
Definition select_text (postId : Z) (d : Db) : Result (list (string * option string)) * Db :=
  (Ok (map (fun r => (pr_title r, pr_content r))
         (filter (fun r => pr_id r = postId) (posts d))), d).

(** [UPDATE posts SET relevance_score = $1 WHERE id = $2] *)
Definition update_relevance (score postId : Z) (d : Db) : Result unit * Db :=
  (Ok tt,
   set_posts
     (map (fun r =>
             if bool_decide (pr_id r = postId)
             then mkPostRow (pr_id r) (pr_reddit_id r) (pr_title r) (pr_content r)
                    (pr_subreddit_id r) (pr_author_id r)
                    (pr_score r) (pr_upvotes r) (pr_downvotes r) (pr_comment_count r)
                    (pr_created_utc r) (pr_url r) (pr_processed r)
                    score (pr_created_at r) (db_now d)
             else r)
          (posts d)) d).

(** The [keywords.forEach] accumulation over compiled keywords. *)
Definition relevance (regexes : list (list RegexAtom)) (title : string)
    (content : option string) : Z :=
  fold_left
    (fun score regex =>
       let titleMatches := match_length regex (toLowerCase title) in
       let contentMatches := match_length regex (toLowerCase (or_empty content)) in
       (* Title matches are weighted more heavily *)
       score + (titleMatches * 10 + contentMatches * 5))
    regexes 0.

(** [None] when a keyword is a regular-expression source outside the
    modelled fragment. *)
Definition updateRelevanceScore (postId : Z) (keywords : list string)
    : option (M unit) :=
  match mapM (fun keyword => RegExp (toLowerCase keyword)) keywords with
  | None => None
  | Some regexes =>
      Some (let* postResult := query (select_text postId) in
            match postResult with
            | [] => ret tt
            | (title, content) :: _ =>
                let score := relevance regexes title content in
                query (update_relevance score postId)
            end)
  end.



End PostModel.

(* ================================================================== *)
(** * [utils/redis.ts] *)
(* ================================================================== *)

(** [redisClient.get] then [JSON.parse]; an entry past its expiry is
    gone, and a Redis error is logged and answered with [null]. *)
Definition getCached (key : string) : M (option (list RedditPost)) := fun w =>
  let w1 := set_trace (trace w ++ [EvCacheGet key]) w in
  if redis_up w then
    match redis w !! key with
    | Some entry =>
        if now w <? ce_expires entry then (Ok (Some (ce_value entry)), w1)
        else (Ok None, w1)
    | None => (Ok None, w1)
    end
  else (Ok None, w1).

(** [redisClient.setEx(key, ttl, JSON.stringify(value))], [ttl] in
    seconds; a Redis error is logged and swallowed. *)
Definition setCache (key : string) (value : list RedditPost) (ttl : Z) : M unit := fun w =>
  let w1 := set_trace (trace w ++ [EvCacheSet key ttl]) w in
  if redis_up w
  then (Ok tt, set_redis (<[key := mkCacheEntry value (now w + ttl * 1000)]> (redis w)) w1)
  else (Ok tt, w1).

(* ================================================================== *)
(** * [services/redditService.ts] *)
(* ================================================================== *)

Inductive TimeFilter := Hour | Day | Week | Month | Year | All.

Inductive ListingSort := SortHot | SortNew | SortTop | SortRising.

Inductive SearchSort := ByRelevance | ByHot | ByTop | ByNew | ByComments.

Definition show_timeFilter (t : TimeFilter) : string :=
  match t with
  | Hour => "hour" | Day => "day" | Week => "week"
  | Month => "month" | Year => "year" | All => "all"
  end.

Definition show_sort (s : ListingSort) : string :=
  match s with
  | SortHot => "hot" | SortNew => "new" | SortTop => "top" | SortRising => "rising"
  end.

(** One HTTP round trip ([axios.post], [this.client.get]): the request
    leaves at the current instant, the next scripted reply comes back
    after its latency; a non-2xx status or a transport failure rejects. *)
Definition http (req : Request) : M (Headers * Body) := fun w =>
  let w1 := set_trace (trace w ++ [EvRequest (now w) req]) w in
  match net w with
  | [] => (Throw (mkExn None "connect ECONNREFUSED"), w1)
  | r :: rest =>
      let w2 := set_net rest (set_now (now w + Z.of_N (latency r)) w1) in
      match reply r with
      | NetError status message => (Throw (mkExn status message), w2)
      | NetOk headers body => (Ok (headers, body), w2)
      end
  end.

Definition malformed_response : Exn :=
  mkExn None "Cannot read properties of undefined".

Definition is_429 (error : Exn) : bool :=
  bool_decide (exn_status error = Some 429).

Definition normalizePostData (rawPost : RawPost) : RedditPost :=
  mkRedditPost (raw_id rawPost) (raw_title rawPost) (or_empty (raw_selftext rawPost))
    (raw_author rawPost) (raw_subreddit rawPost) (raw_score rawPost) (raw_ups rawPost)
    (raw_downs rawPost) (raw_num_comments rawPost) (raw_created_utc rawPost)
    (raw_url rawPost) (raw_permalink rawPost).

(** [children.filter(child => child.kind === 't3').map(child =>
    this.normalizePostData(child.data))] *)
Definition listing_posts (children : list (string * RawPost)) : list RedditPost :=
  map (fun child => normalizePostData (snd child))
      (filter (fun child => fst child = "t3") children).

(** The body of the [for] loop of [extractComments] for one child,
    [comments] being the shared output array. *)
Fixpoint extractChild (child : Thing) (comments : list RedditComment)
    : list RedditComment :=
  match child with
  | mkThing kind data replies =>
      if bool_decide (kind = "t1") then
        let comments :=
          comments ++ [mkRedditComment (rc_id data) (rc_body data) (rc_author data)
                         (rc_score data) (rc_created_utc data) (rc_link_id data)] in
        match replies with
        | Some children => fold_left (fun acc c => extractChild c acc) children comments
        | None => comments
        end
      else comments
  end.

Definition extractComments (children : list Thing) (comments : list RedditComment)
    : list RedditComment :=
  fold_left (fun acc c => extractChild c acc) children comments.

(** The retry loop from [attempt] on, [remaining = maxRetries - attempt]
    being the retries left: the iteration with none left either returns
    or throws, so the [throw lastError] after the loop is never
    reached. *)
Fixpoint retry_from {T} (requestFn : M T) (attempt : Z) (remaining : nat) : M T :=
  try_catch requestFn
    (fun error =>
       (* Handle 429 Too Many Requests *)
       if is_429 error then
         match remaining with
         | S remaining' =>
             (* Exponential backoff: 5s, 10s, 20s *)
             let waitTime := 5000 * 2 ^ attempt in
             let* _ := sleep SleepBackoff waitTime in
             retry_from requestFn (attempt + 1) remaining'
         | O => throw error
         end
       else throw error).

Definition makeRequestWithRetry {T} (requestFn : M T) (maxRetries : nat) : M T :=
  retry_from requestFn 0 maxRetries.

Module RedditService.
Section Client.

Variable env : Env.

Definition authenticate : M string :=
  let* _ := emit EvAuthenticate in
  let* t := Date_now in
  let* s := get_svc in
  (* Return cached token if still valid *)
  if truthy (accessToken s) && (t <? tokenExpiry s) then ret (or_empty (accessToken s))
  else if negb (truthy (REDDIT_CLIENT_ID env)) || negb (truthy (REDDIT_CLIENT_SECRET env))
  then throw (mkExn None "Reddit API credentials not configured. Please set REDDIT_CLIENT_ID and REDDIT_CLIENT_SECRET in .env")
  else
    try_catch
      (let* response := http ReqToken in
       match snd response with
       | BToken access_token expires_in =>
           let* _ := modify_svc (fun s =>
                       set_tokenExpiry (t + expires_in * 1000 - 60000) (* 1 min buffer *)
                         (set_accessToken (Some access_token) s)) in
           ret access_token
       | _ => throw malformed_response
       end)
      (fun _ => throw (mkExn None "Failed to authenticate with Reddit API")).

Definition waitForRequestInterval : M unit :=
  let* t := Date_now in
  let* s := get_svc in
  let timeSinceLastRequest := t - lastRequestTime s in
  let* _ := when (timeSinceLastRequest <? MIN_REQUEST_INTERVAL env)
              (let waitTime := MIN_REQUEST_INTERVAL env - timeSinceLastRequest in
               sleep SleepInterval waitTime) in
  let* t' := Date_now in
  let* _ := modify_svc (set_lastRequestTime t') in
  emit (EvPaced t').

Definition checkRateLimit : M unit :=
  let* _ := emit EvThrottle in
  let* t := Date_now in
  let* s := get_svc in
  let timeSinceReset := t - lastResetTime s in
  (* Reset counter every minute *)
  let* _ := when (60000 <=? timeSinceReset)
              (modify_svc (fun s => set_lastResetTime t (set_requestCount 0 s))) in
  (* Check Reddit's rate limit info if available *)
  let* s := get_svc in
  let* _ := when ((redditRateLimitRemaining s <=? 1) && (t <? redditRateLimitReset s))
              (let waitTime := redditRateLimitReset s - t in
               let* _ := sleep SleepRedditQuota waitTime in
               modify_svc (set_redditRateLimitRemaining 60)) in
  (* Wait if our local rate limit exceeded *)
  let* s := get_svc in
  let* _ := when (RATE_LIMIT env <=? requestCount s)
              (let waitTime := 60000 - timeSinceReset in
               let* _ := sleep SleepLocalLimit waitTime in
               let* t' := Date_now in
               modify_svc (fun s => set_lastResetTime t' (set_requestCount 0 s))) in
  (* Always wait minimum interval between requests *)
  let* _ := waitForRequestInterval in
  modify_svc (fun s => set_requestCount (requestCount s + 1) s).

(** ** Calls of the throttle that overlap

    [checkRateLimit] gives up control at each of its [await]s: at a
    timer it has armed, and at the return of [waitForRequestInterval].
    Between two of them it runs without interruption, but while it
    waits another caller of the same [RedditService] object may run.
    [ThrottleCall] says where a call stands; the constants the call has
    read before the [await] travel with it. *)
Inductive ThrottleCall :=
| Entering                              (* called, nothing run yet *)
| QuotaSleeping (timeSinceReset : Z)    (* at the timer of the remote-quota wait *)
| LimitSleeping                         (* at the timer of the local-limit wait *)
| IntervalSleeping                      (* in [waitForRequestInterval], at its timer *)
| Returning                             (* [waitForRequestInterval] has returned *)
| Returned.

(** [this.lastRequestTime = Date.now()] and the return of
    [waitForRequestInterval]; the caller's continuation is queued. *)
Definition stamp_stage : M (ThrottleCall * option Z) :=
  let* t' := Date_now in
  let* _ := modify_svc (set_lastRequestTime t') in
  let* _ := emit (EvPaced t') in
  ret (Returning, None).

(** [waitForRequestInterval] up to its [await], if it reaches one. *)
Definition interval_stage : M (ThrottleCall * option Z) :=
  let* t := Date_now in
  let* s := get_svc in
  let timeSinceLastRequest := t - lastRequestTime s in
  if timeSinceLastRequest <? MIN_REQUEST_INTERVAL env then
    let waitTime := MIN_REQUEST_INTERVAL env - timeSinceLastRequest in
    let* _ := emit (EvSleep SleepInterval waitTime) in
    ret (IntervalSleeping, Some waitTime)
  else stamp_stage.

(** The local-limit test of [checkRateLimit] and what follows it up to
    the next [await]. *)
Definition limit_stage (timeSinceReset : Z) : M (ThrottleCall * option Z) :=
  let* s := get_svc in
  if RATE_LIMIT env <=? requestCount s then
    let waitTime := 60000 - timeSinceReset in
    let* _ := emit (EvSleep SleepLocalLimit waitTime) in
    ret (LimitSleeping, Some waitTime)
  else interval_stage.

(** The call runs from where it stands to its next [await]: the result
    is where it stands then and, if it has armed a timer, the delay
    asked for. *)
Definition resume (c : ThrottleCall) : M (ThrottleCall * option Z) :=
  match c with
  | Entering =>
      let* _ := emit EvThrottle in
      let* t := Date_now in
      let* s := get_svc in
      let timeSinceReset := t - lastResetTime s in
      let* _ := when (60000 <=? timeSinceReset)
                  (modify_svc (fun s => set_lastResetTime t (set_requestCount 0 s))) in
      let* s := get_svc in
      if (redditRateLimitRemaining s <=? 1) && (t <? redditRateLimitReset s) then
        let waitTime := redditRateLimitReset s - t in
        let* _ := emit (EvSleep SleepRedditQuota waitTime) in
        ret (QuotaSleeping timeSinceReset, Some waitTime)
      else limit_stage timeSinceReset
  | QuotaSleeping timeSinceReset =>
      let* _ := modify_svc (set_redditRateLimitRemaining 60) in
      limit_stage timeSinceReset
  | LimitSleeping =>
      let* t' := Date_now in
      let* _ := modify_svc (fun s => set_lastResetTime t' (set_requestCount 0 s)) in
      interval_stage
  | IntervalSleeping => stamp_stage
  | Returning =>
      let* _ := modify_svc (fun s => set_requestCount (requestCount s + 1) s) in
      ret (Returned, None)
  | Returned => ret (Returned, None)
  end.

(** A caller of the throttle as the event loop sees it: where its call
    stands, and the instant from which it can go on ([None] when its
    continuation is already queued and runs before any timer). *)
Record Caller := mkCaller {
  standing : ThrottleCall;
  ready_at : option Z
}.

Definition finished (c : Caller) : bool :=
  match standing c with
  | Returned => true
  | _ => false
  end.

Definition queued (c : Caller) : bool :=
  negb (finished c) && match ready_at c with None => true | Some _ => false end.

(** One turn of the event loop: the caller [i] runs to its next
    [await], or time passes while every caller waits for a timer. *)
Inductive Turn :=
| Run (i : nat)
| Elapse (ms : N).

(** A caller may run when its continuation is queued, or when its timer
    has expired and no continuation is queued. *)
Definition may_run (c : Caller) (callers : list Caller) (w : World) : bool :=
  negb (finished c)
  && match ready_at c with
     | None => true
     | Some t => (t <=? now w) && forallb (fun c' => negb (queued c')) callers
     end.

Definition run_caller (c : Caller) (w : World) : option (Caller * World) :=
  match resume (standing c) w with
  | (Ok (c', Some ms), w') => Some (mkCaller c' (Some (now w' + timer_delay ms)), w')
  | (Ok (c', None), w') => Some (mkCaller c' None, w')
  | (Throw _, _) => None
  end.

(** The event loop follows a schedule; [None] when the schedule asks
    for a turn that cannot be taken. *)
Fixpoint event_loop (turns : list Turn) (callers : list Caller) (w : World)
    : option (list Caller * World) :=
  match turns with
  | [] => Some (callers, w)
  | Run i :: rest =>
      match callers !! i with
      | Some c =>
          if may_run c callers w then
            match run_caller c w with
            | Some (c', w') => event_loop rest (<[i := c']> callers) w'
            | None => None
            end
          else None
      | None => None
      end
  | Elapse ms :: rest =>
      if forallb (fun c => negb (queued c)) callers
      then event_loop rest callers (set_now (now w + Z.of_N ms) w)
      else None
  end.

(** A call that nothing overlaps: whenever it waits for a timer, the
    clock moves to the instant of that timer and the call goes on.
    [go_on] is what follows one stretch of the call. *)
Definition go_on (rest : ThrottleCall -> World -> option World)
    (r : Result (ThrottleCall * option Z) * World) : option World :=
  match r with
  | (Ok (Returned, _), w') => Some w'
  | (Ok (c', Some ms), w') => rest c' (set_now (now w' + timer_delay ms) w')
  | (Ok (c', None), w') => rest c' w'
  | (Throw _, _) => None
  end.

Fixpoint run_alone (fuel : nat) (c : ThrottleCall) (w : World) : option World :=
  match fuel with
  | O => None
  | S fuel => go_on (run_alone fuel) (resume c w)
  end.

Definition updateRateLimitFromHeaders (headers : Headers) : M unit :=
  modify_svc (fun s =>
    let s := match x_ratelimit_remaining headers with
             | Some v => set_redditRateLimitRemaining v s
             | None => s
             end in
    match x_ratelimit_reset headers with
    | Some v => set_redditRateLimitReset (v * 1000) s
    | None => s
    end).

Definition posts_cacheKey (subreddit : string) (limit : Z)
    (timeFilter : TimeFilter) (sort : ListingSort) : string :=
  "reddit:posts:" +:+ subreddit +:+ ":" +:+ show_sort sort +:+ ":"
    +:+ show_timeFilter timeFilter +:+ ":" +:+ show_number limit.

Definition fetchPosts (subreddit : string) (limit : Z)
    (timeFilter : TimeFilter) (sort : ListingSort) : M (list RedditPost) :=
  let cacheKey := posts_cacheKey subreddit limit timeFilter sort in
  (* Check cache first *)
  let* cached := getCached cacheKey in
  match cached with
  | Some posts => ret posts
  | None =>
      let* _ := checkRateLimit in
      let* token := authenticate in
      makeRequestWithRetry
        (let url := "https://oauth.reddit.com/r/" +:+ subreddit +:+ "/" +:+ show_sort sort in
         let* response := http (ReqGet url) in
         (* Update rate limit info from response headers *)
         let* _ := updateRateLimitFromHeaders (fst response) in
         match snd response with
         | BListing children =>
             let posts := listing_posts children in
             (* Cache for 10 minutes *)
             let* _ := setCache cacheKey posts 600 in
             ret posts
         | _ => throw malformed_response
         end)
        3
  end.

Definition searchPosts (query : string) (subreddit : option string) (limit : Z)
    (sort : SearchSort) (timeFilter : TimeFilter) : M (list RedditPost) :=
  let* _ := checkRateLimit in
  let* token := authenticate in
  makeRequestWithRetry
    (let url := if truthy subreddit
                then "https://oauth.reddit.com/r/" +:+ or_empty subreddit +:+ "/search"
                else "https://oauth.reddit.com/search" in
     let* response := http (ReqGet url) in
     let* _ := updateRateLimitFromHeaders (fst response) in
     match snd response with
     | BListing children => ret (listing_posts children)
     | _ => throw malformed_response
     end)
    3.

Definition fetchComments (subreddit postId : string) (limit : Z) : M (list RedditComment) :=
  let* _ := checkRateLimit in
  let* token := authenticate in
  makeRequestWithRetry
    (let url := "https://oauth.reddit.com/r/" +:+ subreddit +:+ "/comments/" +:+ postId in
     let* response := http (ReqGet url) in
     let* _ := updateRateLimitFromHeaders (fst response) in
     match snd response with
     | BComments children => ret (extractComments children [])
     | _ => throw malformed_response
     end)
    3.

(** The object [getRateLimitStatus] returns. *)
Record RateLimitStatus := mkRateLimitStatus {
  st_requestCount : Z;
  st_limit : Z;
  st_resetsIn : Z
}.

(** [Math.ceil(resetsIn / 1000)] of the non-negative integer
    [resetsIn]. *)
Definition getRateLimitStatus (w : World) : RateLimitStatus :=
  let t := now w in
  let resetsIn := Z.max 0 (60000 - (t - lastResetTime (svc w))) in
  mkRateLimitStatus (requestCount (svc w)) (RATE_LIMIT env) ((resetsIn + 999) / 1000).

End Client.
End RedditService.

(* ================================================================== *)
(** * [services/etlService.ts] *)
(* ================================================================== *)

Record SyncResult := mkSyncResult {
  success : bool;
  postsCount : Z;
  errors : list string
}.

Module ETLService.
Section Service.

Variable env : Env.

Definition storePost (redditPost : RedditPost) (subredditId : Z) : M unit :=
  (* 1. Store or update author *)
  let* authorId := AuthorModel.findOrCreate (rp_author redditPost)
                     0 (* We'd need to fetch this from Reddit user API *)
                     0 in
  (* 2. Store post *)
  let postData :=
    mkPost (rp_id redditPost) (rp_title redditPost)
      (or_null (Some (rp_selftext redditPost)))
      subredditId (Some authorId)
      (rp_score redditPost) (rp_ups redditPost) (rp_downs redditPost)
      (rp_num_comments redditPost) (rp_created_utc redditPost * 1000)
      (rp_url redditPost) false in
  let* _ := PostModel.create postData in
  ret tt.

(** The [for (const post of posts)] loop with its two mutable locals. *)
Fixpoint storeEach (posts : list RedditPost) (subredditId : Z)
    (postsCount : Z) (errors : list string) : M (Z * list string) :=
  match posts with
  | [] => ret (postsCount, errors)
  | post :: rest =>
      let* locals :=
        try_catch
          (let* _ := storePost post subredditId in
           ret (postsCount + 1, errors))
          (fun error =>
             ret (postsCount,
                  errors ++ ["Failed to store post " +:+ rp_id post +:+ ": "
                               +:+ exn_message error])) in
      storeEach rest subredditId (fst locals) (snd locals)
  end.

(** Only the fetch and the subreddit upsert can reach the outer
    [catch], and both run before the loop, so [postsCount] still holds
    its initial 0 there. *)
Definition syncSubreddit (subredditName : string) (limit : Z)
    (timeFilter : TimeFilter) (sort : ListingSort) : M SyncResult :=
  try_catch
    ((* 1. Fetch posts from Reddit *)
     let* posts := RedditService.fetchPosts env subredditName limit timeFilter sort in
     match posts with
     | [] => ret (mkSyncResult true 0 [])
     | _ :: _ =>
         (* 2. Store subreddit *)
         let* subredditId := SubredditModel.findOrCreate subredditName None None in
         (* 3. Process each post *)
         let* locals := storeEach posts subredditId 0 [] in
         ret (mkSyncResult true (fst locals) (snd locals))
     end)
    (fun error => ret (mkSyncResult false 0 [exn_message error])).

(** The [posts.forEach] body that fills [postsBySubreddit]: an absent
    key is first set to an empty array, then the post is pushed onto the
    array of its key. *)
Definition group_push (groups : list (string * list RedditPost)) (post : RedditPost)
    : list (string * list RedditPost) :=
  let key := rp_subreddit post in
  let groups := match map_get key groups with
                | None => map_set key [] groups
                | Some _ => groups
                end in
  map_set key (default [] (map_get key groups) ++ [post]) groups.

Definition groupBySubreddit (posts : list RedditPost) : list (string * list RedditPost) :=
  fold_left group_push posts [].

(** The [for (const [subredditName, subredditPosts] of postsBySubreddit)]
    loop.  Inside its [try] only the subreddit upsert can throw (the
    inner loop catches everything), so the two locals are as on entry
    when the [catch] runs. *)
Fixpoint processGroups (groups : list (string * list RedditPost))
    (postsCount : Z) (errors : list string) : M (Z * list string) :=
  match groups with
  | [] => ret (postsCount, errors)
  | (subredditName, subredditPosts) :: rest =>
      let* locals :=
        try_catch
          (let* subredditId := SubredditModel.findOrCreate subredditName None None in
           storeEach subredditPosts subredditId postsCount errors)
          (fun error =>
             ret (postsCount,
                  errors ++ ["Failed to process subreddit " +:+ subredditName +:+ ": "
                               +:+ exn_message error])) in
      processGroups rest (fst locals) (snd locals)
  end.

(** [searchPosts] is called with its defaults for [sort] and
    [timeFilter]. *)
Definition syncSearchResults (query : string) (subreddit : option string) (limit : Z)
    : M SyncResult :=
  try_catch
    (let* posts := RedditService.searchPosts env query subreddit limit ByRelevance All in
     match posts with
     | [] => ret (mkSyncResult true 0 [])
     | _ :: _ =>
         (* Group posts by subreddit *)
         let postsBySubreddit := groupBySubreddit posts in
         (* Process each subreddit *)
         let* locals := processGroups postsBySubreddit 0 [] in
         ret (mkSyncResult true (fst locals) (snd locals))
     end)
    (fun error => ret (mkSyncResult false 0 [exn_message error])).

(** [await new Promise(resolve => setTimeout(resolve, ms))] in the
    orchestrator; the observation log holds the client's timers only. *)
Definition pause (ms : Z) : M unit := fun w =>
  (Ok tt, set_now (now w + timer_delay ms) w).

(** The [for (const subreddit of subreddits)] loop of
    [syncMultipleSubreddits]; [syncSubreddit] is called with its
    defaults for [timeFilter] and [sort]. *)
Fixpoint syncEach (subreddits : list string) (limit : Z)
    (results : list (string * SyncResult)) : M (list (string * SyncResult)) :=
  match subreddits with
  | [] => ret results
  | subreddit :: rest =>
      let* result := syncSubreddit subreddit limit Week SortHot in
      let results := map_set subreddit result results in
      (* Small delay to avoid rate limiting *)
      let* _ := pause 1000 in
      syncEach rest limit results
  end.

Definition syncMultipleSubreddits (subreddits : list string) (limit : Z)
    : M (list (string * SyncResult)) :=
  syncEach subreddits limit [].

End Service.
End ETLService.

(* ================================================================== *)
(** * Vocabulary of the properties *)
(* ================================================================== *)

(** The columns of a [posts] row that [PostModel.create] supplies on
    insert and leaves alone on conflict, with the defaulted ones. *)
Definition same_fixed_columns (r r' : PostRow) : Prop :=
  pr_id r' = pr_id r /\ pr_reddit_id r' = pr_reddit_id r /\
  pr_title r' = pr_title r /\ pr_content r' = pr_content r /\
  pr_subreddit_id r' = pr_subreddit_id r /\ pr_author_id r' = pr_author_id r /\
  pr_created_utc r' = pr_created_utc r /\ pr_url r' = pr_url r /\
  pr_processed r' = pr_processed r /\
  pr_relevance_score r' = pr_relevance_score r /\
  pr_created_at r' = pr_created_at r.

Definition has_counters (post : Post) (r : PostRow) : Prop :=
  pr_score r = score post /\ pr_upvotes r = upvotes post /\
  pr_downvotes r = downvotes post /\ pr_comment_count r = comment_count post.

(** The tables and sequences of two database states agree (the server
    clock and the pending script may differ). *)
Definition same_tables (d d' : Db) : Prop :=
  subreddits d' = subreddits d /\ authors d' = authors d /\ posts d' = posts d /\
  subreddits_id_seq d' = subreddits_id_seq d /\ authors_id_seq d' = authors_id_seq d /\
  posts_id_seq d' = posts_id_seq d.

(** ** Sample data for the concrete checks *)

(** The fields of a freshly constructed [RedditService], [t] being
    [Date.now()] at construction. *)
Definition fresh_service (t : Z) : Service := mkService None 0 0 t 0 60 0.

Definition empty_db (t : Z) (script : list QueryEnv) : Db :=
  mkDb [] [] [] 0 0 0 t script.

(** A process started at instant [t] against an empty store. *)
Definition boot (t : Z) (replies : list NetReply) (script : list QueryEnv) : World :=
  mkWorld t (fresh_service t) ∅ true replies [] (empty_db t script).

(** [REDDIT_RATE_LIMIT_PER_MINUTE] and [REDDIT_MIN_REQUEST_INTERVAL_MS]
    left at their defaults. *)
Definition default_env : Env := mkEnv 30 2000 (Some "client") (Some "secret").

Definition post_v1 : Post :=
  mkPost "t3_abc" "Hello" (Some "first") 1 (Some 1) 10 12 2 3 1700000000000
         "https://example.org/a" false.

(** The same external item observed later, with new counters. *)
Definition post_v2 : Post :=
  mkPost "t3_abc" "Hello (edited)" (Some "second") 1 (Some 1) 42 50 8 9 1700000000000
         "https://example.org/a" false.

(** A store that already knows the community [rust] and the
    contributor [alice], with karma observed earlier. *)
Definition alice_known : World :=
  mkWorld 0 (fresh_service 0) ∅ true [] []
    (mkDb [mkSubredditRow 1 "rust" None 0 0 0]
          [mkAuthorRow 1 "alice" 500 700 None 0 0] [] 1 1 0 0 []).

Definition alice_post : RedditPost :=
  mkRedditPost "t3_abc" "Rust and RUST" "I like rust" "alice" "rust"
               10 12 2 3 1700000000 "https://example.org/a" "/r/rust/abc".

(** ** Comment trees *)

(** The comments of a reply tree in document order: a node of kind [t1]
    comes first, followed by the comments of its replies from first to
    last; a node of any other kind contributes nothing, whatever hangs
    below it. *)
Fixpoint comment_preorder (node : Thing) : list RedditComment :=
  match node with
  | mkThing kind data replies =>
      if bool_decide (kind = "t1")
      then data :: match replies with
                   | Some children => concat (map comment_preorder children)
                   | None => []
                   end
      else []
  end.

Definition comment (id body : string) : RedditComment :=
  mkRedditComment id body "someone" 1 1700000000 "t3_abc".

(** A thread in which a [more] stub sits between two comments and
    itself carries a reply. *)
Definition sample_thread : list Thing :=
  [mkThing "t1" (comment "c1" "top")
     (Some [mkThing "t1" (comment "c2" "reply") None;
            mkThing "more" (comment "m1" "...")
              (Some [mkThing "t1" (comment "c3" "hidden") None]);
            mkThing "t1" (comment "c4" "second reply") None]);
   mkThing "t1" (comment "c5" "next top") None].

(** ** Keyword occurrences *)

Fixpoint is_prefix (needle text : list ascii) : bool :=
  match needle, text with
  | [], _ => true
  | _ :: _, [] => false
  | a :: needle', b :: text' => bool_decide (a = b) && is_prefix needle' text'
  end.

(** Occurrences of [needle] in [text], read left to right without
    overlap: an occurrence found at the front is counted and skipped,
    otherwise one character is skipped.  The empty needle occurs once
    before every character and once at the end. *)
Equations? occurrences (needle text : list ascii) : nat by wf (length text) lt :=
  occurrences needle [] := if is_prefix needle [] then 1%nat else 0%nat;
  occurrences needle (c :: text) :=
    if is_prefix needle (c :: text)
    then S (occurrences needle (drop (Nat.pred (length needle)) text))
    else occurrences needle text.
Proof.
  rewrite length_drop. simpl. lia.
Qed.

(** Case-insensitive occurrences of a keyword in a text. *)
Definition count_occurrences (keyword text : string) : Z :=
  Z.of_nat (occurrences (String.list_ascii_of_string (toLowerCase keyword))
                        (String.list_ascii_of_string (toLowerCase text))).

(** [10 x titleOccurrences + 5 x bodyOccurrences], summed over the
    keywords. *)
Definition weighted_occurrences (keywords : list string) (title body : string) : Z :=
  foldr (fun keyword total =>
           10 * count_occurrences keyword title + 5 * count_occurrences keyword body + total)
        0 keywords.

(** A keyword without regular-expression syntax characters. *)
Definition literal_keyword (keyword : string) : Prop :=
  Forall (fun c => is_syntax_character c = false) (String.list_ascii_of_string keyword).

(** The store [alice_known] after [alice_post] has been ingested into
    the community [rust]. *)
Definition alice_stored : World := snd (ETLService.storePost alice_post 1 alice_known).

(** ** Search ranking *)

(** [a] ranks at least as high as [b]: a higher relevance score, or the
    same relevance score and a raw score that is not lower. *)
Definition rank_ge (a b : PostRow) : Prop :=
  pr_relevance_score b < pr_relevance_score a \/
  (pr_relevance_score a = pr_relevance_score b /\ pr_score b <= pr_score a).

Definition ranked_post (id relevance raw : Z) : PostRow :=
  mkPostRow id ("t3_" +:+ show_number id) "rust news" None None None
            raw 0 0 0 0 "https://example.org" false relevance 0 0.

(** Relevance scores [5, 5, 2] with raw scores [10, 20, 100]. *)
Definition ranked_store : World :=
  mkWorld 0 (fresh_service 0) ∅ true [] []
    (mkDb [] [] [ranked_post 1 5 10; ranked_post 2 5 20; ranked_post 3 2 100] 0 0 3 0 []).

Definition any_text (_ _ : string) : bool := true.

Definition all_posts_query (limit offset : option Z) : SearchQuery :=
  mkSearchQuery ["rust"] None None None None None limit offset.

(** ** The client's observation log *)

(** [k] throttling responses in a row, the first at attempt [attempt]:
    each run of the operation throws an error of status 429 and is
    followed by a sleep of [5000 * 2 ^ attempt] ms before the next
    attempt; [w'] is the world in which that next attempt starts. *)
Inductive throttled {T} (requestFn : M T) : Z -> nat -> World -> World -> Prop :=
| throttled_none (attempt : Z) (w : World) :
    throttled requestFn attempt 0 w w
| throttled_again (attempt : Z) (k : nat) (w w1 w' : World) (e : Exn) :
    requestFn w = (Throw e, w1) ->
    exn_status e = Some 429 ->
    throttled requestFn (attempt + 1) k
              (snd (sleep SleepBackoff (5000 * 2 ^ attempt) w1)) w' ->
    throttled requestFn attempt (S k) w w'.

Definition too_many_requests : NetReply :=
  mkNetReply 40 (NetError (Some 429) "Request failed with status code 429").

(** What a computation appended to the log. *)
Definition events_since (w w' : World) : list Event :=
  drop (length (trace w)) (trace w').

(** Every minimum-interval sleep of a log precedes every sleep taken
    for another reason. *)
Definition interval_wait_first (evs : list Event) : Prop :=
  forall (i j : nat) (why : SleepReason) (ms ms' : Z),
    evs !! i = Some (EvSleep SleepInterval ms) ->
    evs !! j = Some (EvSleep why ms') ->
    why <> SleepInterval ->
    (i < j)%nat.

(** The instants at which listing, search and comment requests left. *)
Fixpoint request_instants (evs : list Event) : list Z :=
  match evs with
  | [] => []
  | EvRequest t (ReqGet _) :: rest => t :: request_instants rest
  | _ :: rest => request_instants rest
  end.

(** The instants at which the throttle let a caller through (the
    successive values of [lastRequestTime]). *)
Fixpoint paced_instants (evs : list Event) : list Z :=
  match evs with
  | [] => []
  | EvPaced t :: rest => t :: paced_instants rest
  | _ :: rest => paced_instants rest
  end.

(** Consecutive instants are at least [gap] apart. *)
Fixpoint spaced (gap : Z) (ts : list Z) : Prop :=
  match ts with
  | t1 :: rest =>
      match rest with
      | t2 :: _ => t1 + gap <= t2
      | [] => True
      end /\ spaced gap rest
  | [] => True
  end.

(** One use of the client by the surrounding system, or a pause between
    two uses.  The uses of a sequence are made one after another, each
    being awaited before the next one starts; uses that overlap at their
    [await]s are not sequences of this kind. *)
Inductive Call :=
| CallFetchPosts (subreddit : string) (limit : Z) (timeFilter : TimeFilter) (sort : ListingSort)
| CallSearchPosts (query : string) (subreddit : option string) (limit : Z)
                  (sort : SearchSort) (timeFilter : TimeFilter)
| CallFetchComments (subreddit postId : string) (limit : Z)
| Idle (ms : N).

(** The world after one use, run from its start to its end. *)
Definition perform (env : Env) (w : World) (c : Call) : World :=
  match c with
  | CallFetchPosts subreddit limit timeFilter sort =>
      snd (RedditService.fetchPosts env subreddit limit timeFilter sort w)
  | CallSearchPosts query subreddit limit sort timeFilter =>
      snd (RedditService.searchPosts env query subreddit limit sort timeFilter w)
  | CallFetchComments subreddit postId limit =>
      snd (RedditService.fetchComments env subreddit postId limit w)
  | Idle ms => set_now (now w + Z.of_N ms) w
  end.

Definition is_cache_event (e : Event) : bool :=
  match e with
  | EvCacheGet _ | EvCacheSet _ _ => true
  | _ => false
  end.

Definition is_paced_event (e : Event) : bool :=
  match e with
  | EvPaced _ => true
  | _ => false
  end.

(** The throttle's bookkeeping is consistent with the log: the passes
    logged so far are [gap] apart, and the latest one is the value of
    [lastRequestTime] and does not lie in the future. *)
Definition pacing_ok (gap : Z) (w : World) : Prop :=
  spaced gap (paced_instants (trace w)) /\
  forall t, last (paced_instants (trace w)) = Some t ->
            t = lastRequestTime (svc w) /\ t <= now w.

(** A step that neither stamps [lastRequestTime] nor logs a throttle
    pass nor turns the clock back, and that leaves the availability of
    the cache as it is. *)
Definition quiet (w w' : World) : Prop :=
  lastRequestTime (svc w') = lastRequestTime (svc w) /\
  now w <= now w' /\
  paced_instants (trace w') = paced_instants (trace w) /\
  redis_up w' = redis_up w.

(** A step that does not touch the cache: no cache call is logged and
    the cache is as before. *)
Definition cache_untouched (w w' : World) : Prop :=
  redis w' = redis w /\ redis_up w' = redis_up w /\
  exists evs, trace w' = trace w ++ evs /\ Forall (fun e => is_cache_event e = false) evs.

Definition token_reply : NetReply :=
  mkNetReply 100 (NetOk (mkHeaders None None) (BToken "token" 3600)).

Definition raw_sample : RawPost :=
  mkRawPost "abc" "Rust and RUST" (Some "I like rust") "alice" "rust"
            10 12 2 3 1700000000 "https://example.org/a" "/r/rust/abc".

Definition listing_reply : NetReply :=
  mkNetReply 50 (NetOk (mkHeaders (Some 59) (Some 300))
                       (BListing [("t3", raw_sample); ("t5", raw_sample)])).

(** A computation whose effect on the world always lies in [R]. *)
Definition preserves (R : World -> World -> Prop) {A} (m : M A) : Prop :=
  forall w, R w (snd (m w)).

(** A computation that keeps the invariant [I]. *)
Definition maintains (I : World -> Prop) {A} (m : M A) : Prop :=
  forall w, I w -> I (snd (m w)).

(** A client that passed the throttle 100 ms ago and has been told by
    the remote side that one request is left until the instant
    100500. *)
Definition nearly_exhausted : World :=
  mkWorld 100000 (mkService (Some "token") 3000000 1 99000 99900 1 100500)
          ∅ true [] [] (empty_db 0 []).

(** A process that has just started, with a token exchange and two
    listings scripted on the remote side. *)
Definition cold_start : World :=
  boot 1000000 [token_reply; listing_reply; listing_reply] [].

Definition two_searches : list Call :=
  [CallSearchPosts "rust" None 10 ByRelevance All;
   CallSearchPosts "golang" None 10 ByRelevance All].

(** The world after a first, uncached [fetchPosts] of r/rust. *)
Definition warm_cache : World :=
  snd (RedditService.fetchPosts default_env "rust" 100 Week SortHot
         (boot 1000000 [token_reply; listing_reply] [])).

(** ** Ingestion runs *)

(** The stores attempted for the items of a run, in order, each item
    being tried whatever happened to the ones before it: [None] for an
    item that was stored, the error for one that was not. *)
Fixpoint store_outcomes (posts : list RedditPost) (subredditId : Z) (w : World)
    : list (RedditPost * option Exn) * World :=
  match posts with
  | [] => ([], w)
  | post :: rest =>
      let '(r, w1) := ETLService.storePost post subredditId w in
      let '(outcomes, w') := store_outcomes rest subredditId w1 in
      ((post, match r with Ok _ => None | Throw e => Some e end) :: outcomes, w')
  end.

Fixpoint stored_count (outcomes : list (RedditPost * option Exn)) : Z :=
  match outcomes with
  | [] => 0
  | (_, None) :: rest => 1 + stored_count rest
  | (_, Some _) :: rest => stored_count rest
  end.

(** One message per failed item, naming its external identifier. *)
Fixpoint failure_messages (outcomes : list (RedditPost * option Exn)) : list string :=
  match outcomes with
  | [] => []
  | (_, None) :: rest => failure_messages rest
  | (post, Some e) :: rest =>
      ("Failed to store post " +:+ rp_id post +:+ ": " +:+ exn_message e)
        :: failure_messages rest
  end.

Definition connection_lost : QueryEnv :=
  mkQueryEnv 0 (Some "Connection terminated unexpectedly").

Definition served : QueryEnv := mkQueryEnv 0 None.

Definition raw_item (id author : string) : string * RawPost :=
  ("t3", mkRawPost id "A title" None author "rust" 1 1 0 0 1700000000
                   "https://example.org" "/r/rust").

Definition three_items : NetReply :=
  mkNetReply 50 (NetOk (mkHeaders None None)
                       (BListing [raw_item "p1" "ann"; raw_item "p2" "bob";
                                  raw_item "p3" "cyd"])).

(** A deployment that asks for 6 s between requests. *)
Definition cautious_env : Env := mkEnv 30 6000 (Some "client") (Some "secret").

(** A fresh process whose first listing request is throttled once by
    the remote side. *)
Definition throttled_once : World :=
  boot 1000000 [token_reply; too_many_requests; listing_reply] [].

(* ================================================================== *)
(** * Vocabulary of the further properties *)
(* ================================================================== *)

(** A [SERIAL PRIMARY KEY] column: the ids of the rows are distinct and
    were all drawn from the sequence, whose last value is [seq]. *)
Definition keys_ok {A} (id : A -> Z) (rows : list A) (seq : Z) : Prop :=
  0 <= seq /\ NoDup (map id rows) /\ Forall (fun r => 1 <= id r <= seq) rows.

(** The key constraints of the schema: the primary keys and the
    [UNIQUE] columns [subreddits.name], [authors.username] and
    [posts.reddit_id]. *)
Definition db_wf (d : Db) : Prop :=
  keys_ok sr_id (subreddits d) (subreddits_id_seq d) /\
  NoDup (map sr_name (subreddits d)) /\
  keys_ok ar_id (authors d) (authors_id_seq d) /\
  NoDup (map ar_username (authors d)) /\
  keys_ok pr_id (posts d) (posts_id_seq d) /\
  NoDup (map pr_reddit_id (posts d)).

Definition store_ok (w : World) : Prop := db_wf (db w).

(** A step of the client outside the throttle: the store, the local
    request counter and its window are as before, and the clock has
    not gone back. *)
Definition steady (w w' : World) : Prop :=
  db w' = db w /\
  requestCount (svc w') = requestCount (svc w) /\
  lastResetTime (svc w') = lastResetTime (svc w) /\
  now w <= now w'.

(** The local limiter's bookkeeping: the counter of the current window
    lies between 0 and [RATE_LIMIT], and the window did not start in
    the future. *)
Definition limiter_ok (env : Env) (w : World) : Prop :=
  0 <= requestCount (svc w) <= RATE_LIMIT env /\
  lastResetTime (svc w) <= now w.

(** A step that leaves the client and the clock alone. *)
Definition offline (w w' : World) : Prop :=
  svc w' = svc w /\ now w' = now w /\ net w' = net w /\ trace w' = trace w /\
  redis w' = redis w /\ redis_up w' = redis_up w.

(** The requests of a log that satisfy [which]. *)
Definition requests_sent (which : Request -> bool) (evs : list Event) : list Request :=
  omap (fun e => match e with
                 | EvRequest _ req => if which req then Some req else None
                 | _ => None
                 end) evs.

Definition is_token_request (req : Request) : bool :=
  match req with
  | ReqToken => true
  | ReqGet _ => false
  end.

Definition is_get_request (req : Request) : bool := negb (is_token_request req).

(** The keys of a list in the order of their first occurrence. *)
Fixpoint first_occurrences (keys : list string) : list string :=
  match keys with
  | [] => []
  | k :: rest => k :: List.filter (fun x => negb (bool_decide (x = k))) (first_occurrences rest)
  end.


(** The message of the error [authenticate] throws when a credential
    is missing. *)
Definition not_configured : string :=
  "Reddit API credentials not configured. Please set REDDIT_CLIENT_ID and REDDIT_CLIENT_SECRET in .env".

(** An environment in which [REDDIT_CLIENT_SECRET] is not set. *)
Definition secret_unset : Env := mkEnv 30 2000 (Some "client") None.

(** A step that logs at most [gets] resource requests and at most
    [tokens] token requests, and removes nothing from the log. *)
Definition sends (gets tokens : nat) (w w' : World) : Prop :=
  exists evs, trace w' = trace w ++ evs /\
    (length (requests_sent is_get_request evs) <= gets)%nat /\
    (length (requests_sent is_token_request evs) <= tokens)%nat.

(** The posts of a listing grouped by community: one group per
    community, in the order in which the communities first occur, each
    holding its posts in listing order. *)
Definition groups_by_first_occurrence (posts : list RedditPost)
    : list (string * list RedditPost) :=
  map (fun name => (name, List.filter (fun p => bool_decide (rp_subreddit p = name)) posts))
      (first_occurrences (map rp_subreddit posts)).

(** [results.set(key, _)] as seen on the keys of a [Map]. *)
Definition add_key (keys : list string) (key : string) : list string :=
  if decide (key ∈ keys) then keys else keys ++ [key].


(** Rows in descending order of [key]. *)
Definition descending {A} (key : A -> Z) (rows : list A) : Prop :=
  StronglySorted (fun a b => key b <= key a) rows.

(** A store with three authors of total karma 1200, 300 and 5000. *)
Definition three_authors : World :=
  mkWorld 0 (fresh_service 0) ∅ true [] []
    (mkDb [] [mkAuthorRow 1 "alice" 500 700 None 0 0;
              mkAuthorRow 2 "bob" 100 200 None 0 0;
              mkAuthorRow 3 "carol" 4000 1000 None 0 0] [] 0 3 0 0 []).

(** A computation during which the clock does not go back. *)
Definition clock_monotone {A} (m : M A) : Prop :=
  forall w, now w <= now (snd (m w)).

(** A process whose remote side answers four requests in a row with
    429. *)
Definition always_throttled : World :=
  boot 0 [too_many_requests; too_many_requests; too_many_requests; too_many_requests] [].

(** A step that leaves every entry of the cache but the one under [key]
    as it is. *)
Definition cache_only_at (key : string) (w w' : World) : Prop :=
  forall k, k <> key -> redis w' !! k = redis w !! k.

(** ** Overlapping calls of the throttle *)

(** Three request handlers call the throttle of a client that has just
    started: the first at 1000000, the others 500 ms and 600 ms later,
    while no pass but the first has been stamped. *)
Definition three_callers : list RedditService.Caller :=
  [RedditService.mkCaller RedditService.Entering (Some 1000000);
   RedditService.mkCaller RedditService.Entering (Some 1000500);
   RedditService.mkCaller RedditService.Entering (Some 1000600)].

(** The first call goes through at once.  The second and the third both
    read the first call's stamp and arm timers that end at 1002000;
    each then runs to its end when its timer fires. *)
Definition overlap_schedule : list RedditService.Turn :=
  [RedditService.Run 0; RedditService.Run 0;
   RedditService.Elapse 500; RedditService.Run 1;
   RedditService.Elapse 100; RedditService.Run 2;
   RedditService.Elapse 1400;
   RedditService.Run 1; RedditService.Run 1;
   RedditService.Run 2; RedditService.Run 2].

(** [REDDIT_RATE_LIMIT_PER_MINUTE=2]. *)
Definition strict_env : Env := mkEnv 2 2000 (Some "client") (Some "secret").



(** ** Pages of a ranked search *)

(** The two sort keys of [search]. *)
Definition rank_key (j : Joined) : Z * Z :=
  (pr_relevance_score (j_post j), pr_score (j_post j)).

(** No two candidate rows are equal on both sort keys, so that
    [ORDER BY relevance_score DESC, score DESC] leaves the executor no
    choice. *)
Definition no_ties (candidates : list Joined) : Prop :=
  NoDup (map rank_key candidates).

(** What [ORDER BY ... LIMIT limit OFFSET offset] allows an execution to
    return for the candidate rows: the page of some rearrangement of
    them that is sorted on the two keys. *)
Definition ranked_page (candidates : list Joined) (limit offset : Z)
    (rows : list SearchResult) : Prop :=
  exists ordered : list Joined,
    Permutation ordered candidates /\
    StronglySorted (fun a b => rank_ge (j_post a) (j_post b)) ordered /\
    rows = map to_result (take (Z.to_nat limit) (drop (Z.to_nat offset) ordered)).

(** ** A store that answers *)


(** ** Callers past the local-limit test *)

(** 1 for a call that has passed the local-limit test of
    [checkRateLimit] and has not yet counted itself. *)
Definition past_limit_test (c : RedditService.ThrottleCall) : Z :=
  match c with
  | RedditService.IntervalSleeping | RedditService.Returning => 1
  | _ => 0
  end.

Definition in_flight (callers : list RedditService.Caller) : Z :=
  foldr (fun c n => past_limit_test (RedditService.standing c) + n) 0 callers.

(* ================================================================== *)
(** * Properties of the store *)
(* ================================================================== *)

Lemma query_inv {A} (stmt : Db -> Result A * Db) (w w' : World) (r : Result A) :
  query stmt w = (r, w') ->
  exists d1, same_tables (db w) d1 /\ db_now (db w) <= db_now d1 /\
    w' = set_db (db w') w /\
    ((exists msg, r = Throw (mkExn None msg) /\ db w' = d1) \/ stmt d1 = (r, db w')).
Proof.
  unfold query. destruct (db_script (db w)) as [|e rest] eqn:Hs.
  - destruct (stmt (db w)) as [r0 d'] eqn:Hst. intros [= <- <-].
    exists (db w). repeat split; try lia. right. exact Hst.
  - set (d1 := set_db_script rest
                 (set_db_now (db_now (db w) + Z.of_N (q_elapsed e)) (db w))).
    assert (Hn : db_now (db w) <= db_now d1) by (simpl; lia).
    destruct (q_fault e) as [msg|] eqn:Hf.
    + intros [= <- <-]. exists d1. repeat split; try assumption.
      left. exists msg. split; reflexivity.
    + destruct (stmt d1) as [r0 d'] eqn:Hst.
      intros [= <- <-]. exists d1. repeat split; try assumption.
      right. exact Hst.
Qed.

Lemma query_ok_inv {A} (stmt : Db -> Result A * Db) (w w' : World) (a : A) :
  query stmt w = (Ok a, w') ->
  exists d1, same_tables (db w) d1 /\ db_now (db w) <= db_now d1 /\
    w' = set_db (db w') w /\ stmt d1 = (Ok a, db w').
Proof.
  intros H. destruct (query_inv _ _ _ _ H) as (d1 & Ht & Hn & Hw & [(msg & Hm & _)|Hs]).
  - discriminate.
  - exists d1. auto.
Qed.

Lemma filter_unique_key {A K : Type} `{EqDecision K} (key : A -> K) (l : list A) (r : A) :
  NoDup (map key l) -> r ∈ l ->
  filter (fun x => key x = key r) l = [r].
Proof.
  induction l as [|x l IH]; intros Hnd Hin.
  - inversion Hin.
  - simpl in Hnd. apply NoDup_cons in Hnd as [Hx Hnd].
    assert (Hnone : forall y, y ∈ l -> key y = key x -> False).
    { intros y Hy Hk. apply Hx. rewrite <- Hk. apply list_elem_of_fmap. eauto. }
    apply elem_of_cons in Hin as [->|Hin].
    + rewrite filter_cons_True by reflexivity. f_equal.
      clear IH Hx Hnd. induction l as [|y l IH]; [reflexivity|].
      rewrite filter_cons_False.
      * apply IH. intros z Hz. apply Hnone. now apply elem_of_cons; right.
      * intros Hk. apply (Hnone y); [apply elem_of_cons; now left|exact Hk].
    + rewrite filter_cons_False.
      * now apply IH.
      * intros Hk. apply (Hnone r Hin). now symmetry.
Qed.

Lemma filter_key_map {A K : Type} `{EqDecision K} (key : A -> K) (f : A -> A) (k : K) (l : list A) :
  (forall x, key (f x) = key x) ->
  filter (fun x => key x = k) (map f l) = map f (filter (fun x => key x = k) l).
Proof.
  intros Hf. induction l as [|x l IH]; [reflexivity|]. simpl.
  destruct (decide (key x = k)) as [Hk|Hk].
  - rewrite !filter_cons_True by (rewrite ?Hf; exact Hk). simpl. now rewrite IH.
  - rewrite !filter_cons_False by (rewrite ?Hf; exact Hk). exact IH.
Qed.

Lemma filter_key_absent {A K : Type} `{EqDecision K} (key : A -> K) (k : K) (l : list A) :
  filter (fun x => key x = k) l = [] -> k ∉ map key l.
Proof.
  intros Hf Hin. apply list_elem_of_fmap in Hin as (x & -> & Hx).
  assert (Hx' : x ∈ filter (fun y => key y = key x) l) by (apply list_elem_of_filter; auto).
  rewrite Hf in Hx'. inversion Hx'.
Qed.

Lemma upsert_ok_inv (post : Post) (d d' : Db) (id : Z) :
  PostModel.upsert post d = (Ok id, d') ->
  subreddits d' = subreddits d /\ authors d' = authors d /\
  posts_id_seq d' = posts_id_seq d + 1 /\ db_now d' = db_now d /\
  subreddits_id_seq d' = subreddits_id_seq d /\ authors_id_seq d' = authors_id_seq d /\
  Forall (fun n => int4 n = true) (PostModel.integer_parameters post) /\
  posts_id_seq d < 2147483647 /\
  match filter (fun r => pr_reddit_id r = reddit_id post) (posts d) with
  | existing :: _ =>
      id = pr_id existing /\
      posts d' = map (fun x => if bool_decide (pr_reddit_id x = reddit_id post)
                               then PostModel.refreshed post (db_now d) x else x) (posts d)
  | [] =>
      id = posts_id_seq d + 1 /\
      posts d' = posts d ++ [PostModel.inserted post id (db_now d)] /\
      subreddit_id post ∈ map sr_id (subreddits d) /\
      (forall a, num_or_null (author_id post) = Some a -> a ∈ map ar_id (authors d))
  end.
Proof.
  unfold PostModel.upsert.
  destruct (List.find _ (PostModel.integer_parameters post)) as [n|] eqn:Hfind; [discriminate|].
  assert (Hrange : Forall (fun n => int4 n = true) (PostModel.integer_parameters post)).
  { apply Forall_forall. intros n Hn. apply list_elem_of_In in Hn.
    pose proof (List.find_none _ _ Hfind n Hn) as H. now apply negb_false_iff in H. }
  destruct (2147483647 <=? posts_id_seq d) eqn:Hid; [discriminate|].
  apply Z.leb_gt in Hid. cbn zeta.
  cbn [posts set_posts_id_seq subreddits authors db_now].
  destruct (filter _ (posts d)) as [|existing rest] eqn:Hf.
  - destruct (bool_decide (subreddit_id post ∈ map sr_id (subreddits d))) eqn:Hs;
      cbn [negb]; [|discriminate]. apply bool_decide_eq_true in Hs.
    destruct (num_or_null (author_id post)) as [a|] eqn:Ha.
    + destruct (bool_decide (a ∈ map ar_id (authors d))) eqn:Hin; cbn [negb]; [|discriminate].
      apply bool_decide_eq_true in Hin. intros [= <- <-]. cbn.
      repeat split; try assumption. now intros ? [= <-].
    + intros [= <- <-]. cbn. repeat split; try assumption. discriminate.
  - intros [= <- <-]. cbn. repeat split; assumption.
Qed.

Lemma upsert_conflict (post : Post) (d d' : Db) (r : PostRow) (id : Z) :
  NoDup (map pr_reddit_id (posts d)) ->
  r ∈ posts d -> pr_reddit_id r = reddit_id post ->
  PostModel.upsert post d = (Ok id, d') ->
  id = pr_id r /\
  posts d' =
    map (fun x => if bool_decide (pr_reddit_id x = reddit_id post)
                  then PostModel.refreshed post (db_now d) x else x) (posts d) /\
  filter (fun x => pr_reddit_id x = reddit_id post) (posts d')
    = [PostModel.refreshed post (db_now d) r].
Proof.
  intros Hnd Hin Hk Hu.
  pose proof (filter_unique_key pr_reddit_id _ _ Hnd Hin) as Hf. rewrite Hk in Hf.
  apply upsert_ok_inv in Hu as (_ & _ & _ & _ & _ & _ & _ & _ & Hu). rewrite Hf in Hu.
  destruct Hu as [-> Hp]. split; [reflexivity|]. split; [exact Hp|].
  rewrite Hp, (filter_key_map pr_reddit_id).
  - rewrite Hf. simpl. rewrite bool_decide_true by exact Hk. reflexivity.
  - intros x. destruct (bool_decide _); reflexivity.
Qed.

Lemma upsert_fresh (post : Post) (d d' : Db) (id : Z) :
  filter (fun x => pr_reddit_id x = reddit_id post) (posts d) = [] ->
  PostModel.upsert post d = (Ok id, d') ->
  exists r,
    id = pr_id r /\ posts d' = posts d ++ [r] /\
    pr_reddit_id r = reddit_id post /\ has_counters post r.
Proof.
  intros Hf Hu.
  apply upsert_ok_inv in Hu as (_ & _ & _ & _ & _ & _ & _ & _ & Hu). rewrite Hf in Hu.
  destruct Hu as (-> & Hp & _).
  exists (PostModel.inserted post (posts_id_seq d + 1) (db_now d)).
  split; [reflexivity|]. split; [exact Hp|]. repeat split.
Qed.

(** The [UNIQUE] constraint on [reddit_id] is an invariant of [upsert],
    which, when it succeeds, leaves a row for the proposed identifier. *)
Lemma upsert_row (post : Post) (d d' : Db) (id : Z) :
  NoDup (map pr_reddit_id (posts d)) ->
  PostModel.upsert post d = (Ok id, d') ->
  NoDup (map pr_reddit_id (posts d')) /\
  exists r, r ∈ posts d' /\ pr_reddit_id r = reddit_id post /\ pr_id r = id /\
            has_counters post r /\ pr_updated_at r = db_now d'.
Proof.
  intros Hnd Hu.
  pose proof (upsert_ok_inv _ _ _ _ Hu) as (_ & _ & _ & Hnow & _).
  destruct (filter (fun x => pr_reddit_id x = reddit_id post) (posts d)) as [|r rest] eqn:Hf.
  - destruct (upsert_fresh post d d' id Hf Hu) as (r & -> & Hp & Hk & Hc).
    assert (Hupd : pr_updated_at r = db_now d').
    { apply upsert_ok_inv in Hu as (_ & _ & _ & _ & _ & _ & _ & _ & Hu). rewrite Hf in Hu.
      destruct Hu as (_ & Hp' & _). rewrite Hp in Hp'. apply app_inv_head in Hp'.
      injection Hp' as ->. cbn. congruence. }
    rewrite Hp. split.
    + rewrite map_app. apply NoDup_app. split; [exact Hnd|]. split.
      * intros k Hin. simpl. intros Hin'. apply list_elem_of_singleton in Hin'. subst k.
        rewrite Hk in Hin. now apply (filter_key_absent pr_reddit_id _ _ Hf).
      * simpl. apply NoDup_singleton.
    + exists r. split; [apply elem_of_app; right; now apply list_elem_of_singleton|].
      auto.
  - assert (Hr : r ∈ filter (fun x => pr_reddit_id x = reddit_id post) (posts d))
      by (rewrite Hf; apply elem_of_cons; now left).
    apply list_elem_of_filter in Hr as [Hk Hin].
    destruct (upsert_conflict post d d' r id Hnd Hin Hk Hu) as (-> & Hp & Hf').
    split.
    + rewrite Hp, <- list_fmap_compose.
      erewrite list_fmap_ext; [exact Hnd|].
      intros i x _. simpl. destruct (bool_decide _); reflexivity.
    + exists (PostModel.refreshed post (db_now d) r). split.
      * assert (Hx : PostModel.refreshed post (db_now d) r
                     ∈ filter (fun x => pr_reddit_id x = reddit_id post) (posts d'))
          by (rewrite Hf'; apply elem_of_cons; now left).
        now apply list_elem_of_filter in Hx as [_ Hx].
      * split; [exact Hk|]. split; [reflexivity|]. split; [repeat split|].
        cbn. congruence.
Qed.

Lemma create_inv (post : Post) (w w' : World) (id : Z) :
  PostModel.create post w = (Ok id, w') ->
  exists d1, same_tables (db w) d1 /\ PostModel.upsert post d1 = (Ok id, db w').
Proof.
  intros H. apply query_ok_inv in H as (d1 & Ht & _ & _ & Hs). eauto.
Qed.

(** C1.  When [PostModel.create] is run twice for the same
    [reddit_id] and both statements succeed, the table holds exactly one
    row for that identifier after the first and after the second run,
    the table has not grown, both runs return the same row id, the row
    carries the score, upvotes, downvotes and comment count of the
    second observation, every other attribute of the stored item (its
    id and identifier, title, body, community, contributor, creation
    instant, URL, processed flag and relevance score) and its
    [created_at] keep their values, and the rows of other identifiers
    are untouched.  The one column that changes besides the four
    counters is [updated_at], the bookkeeping column the schema's
    [BEFORE UPDATE] trigger maintains: after either run it holds the
    server's clock at that statement. *)
Theorem create_twice_one_record (w w1 w2 : World) (p1 p2 : Post) (i1 i2 : Z) :
  NoDup (map pr_reddit_id (posts (db w))) ->
  reddit_id p2 = reddit_id p1 ->
  PostModel.create p1 w = (Ok i1, w1) ->
  PostModel.create p2 w1 = (Ok i2, w2) ->
  exists r1 r2,
    filter (fun r => pr_reddit_id r = reddit_id p1) (posts (db w1)) = [r1] /\
    filter (fun r => pr_reddit_id r = reddit_id p1) (posts (db w2)) = [r2] /\
    length (posts (db w2)) = length (posts (db w1)) /\
    i2 = i1 /\
    has_counters p2 r2 /\
    same_fixed_columns r1 r2 /\
    (forall r, pr_reddit_id r <> reddit_id p1 ->
               r ∈ posts (db w2) <-> r ∈ posts (db w1)) /\
    pr_updated_at r1 = db_now (db w1) /\
    pr_updated_at r2 = db_now (db w2) /\
    db_now (db w1) <= db_now (db w2).
Proof.
  intros Hnd Hk H1 H2.
  assert (Hclock : db_now (db w1) <= db_now (db w2)).
  { unfold PostModel.create in H2.
    apply query_ok_inv in H2 as (d2 & _ & Hle & _ & Hu2).
    apply upsert_ok_inv in Hu2 as (_ & _ & _ & Hnow & _). lia. }
  apply create_inv in H1 as (d1 & (_ & _ & Hp1 & _) & Hu1).
  apply create_inv in H2 as (d2 & (_ & _ & Hp2 & _) & Hu2).
  rewrite <- Hp1 in Hnd.
  destruct (upsert_row p1 d1 _ _ Hnd Hu1) as (Hnd1 & r1 & Hin1 & Hk1 & Hid1 & _ & Hupd1).
  rewrite <- Hp2 in Hnd1, Hin1. rewrite <- Hk in Hk1.
  pose proof (upsert_ok_inv _ _ _ _ Hu2) as (_ & _ & _ & Hnow2 & _).
  destruct (upsert_conflict p2 d2 _ r1 _ Hnd1 Hin1 Hk1 Hu2) as (Hi2 & Hp & Hf).
  exists r1, (PostModel.refreshed p2 (db_now d2) r1).
  rewrite <- Hk, <- Hp2.
  split; [rewrite <- Hk1; now apply filter_unique_key|].
  split; [exact Hf|].
  split; [rewrite Hp; apply length_map|].
  split; [congruence|].
  split; [repeat split|].
  split; [repeat split|].
  split; [|split; [exact Hupd1|split; [cbn; congruence|exact Hclock]]].
  intros r Hr. rewrite Hp. split.
  - intros Hin. apply list_elem_of_fmap in Hin as (x & -> & Hx).
    destruct (bool_decide (pr_reddit_id x = reddit_id p2)) eqn:Hb; [|exact Hx].
    apply bool_decide_eq_true in Hb. simpl in Hr. congruence.
  - intros Hin. apply list_elem_of_fmap. exists r. split; [|exact Hin].
    rewrite bool_decide_false; [reflexivity|exact Hr].
Qed.

Lemma create_twice_one_record_witness :
  let w := set_db (set_db_script [mkQueryEnv 1000 None; mkQueryEnv 5000 None]
                     (db alice_known)) alice_known in
  let w1 := snd (PostModel.create post_v1 w) in
  let w2 := snd (PostModel.create post_v2 w1) in
  exists r1 r2,
    filter (fun r => pr_reddit_id r = reddit_id post_v1) (posts (db w1)) = [r1] /\
    filter (fun r => pr_reddit_id r = reddit_id post_v1) (posts (db w2)) = [r2] /\
    length (posts (db w2)) = length (posts (db w1)) /\
    1 = 1 /\
    has_counters post_v2 r2 /\
    same_fixed_columns r1 r2 /\
    (forall r, pr_reddit_id r <> reddit_id post_v1 ->
               r ∈ posts (db w2) <-> r ∈ posts (db w1)) /\
    pr_updated_at r1 = db_now (db w1) /\
    pr_updated_at r2 = db_now (db w2) /\
    db_now (db w1) <= db_now (db w2).
Proof.
  intros w w1 w2.
  apply (create_twice_one_record w w1 w2 post_v1 post_v2 1 1).
  - apply NoDup_nil_2.
  - reflexivity.
  - reflexivity.
  - reflexivity.
Defined.

(* ================================================================== *)
(** * Reasoning about monadic code *)
(* ================================================================== *)

Lemma bind_ok_inv {A B} (m : M A) (k : A -> M B) (w w' : World) (b : B) :
  bind m k w = (Ok b, w') ->
  exists a w1, m w = (Ok a, w1) /\ k a w1 = (Ok b, w').
Proof.
  unfold bind. destruct (m w) as [[a|e] w1]; [eauto|discriminate].
Qed.

Lemma bind_throw_inv {A B} (m : M A) (k : A -> M B) (w w' : World) (e : Exn) :
  bind m k w = (Throw e, w') ->
  m w = (Throw e, w') \/ exists a w1, m w = (Ok a, w1) /\ k a w1 = (Throw e, w').
Proof.
  unfold bind. destruct (m w) as [[a|e0] w1]; [eauto|].
  intros [= <- <-]. now left.
Qed.

Lemma bind_ok {A B} (m : M A) (k : A -> M B) (w w1 : World) (a : A) :
  m w = (Ok a, w1) -> bind m k w = k a w1.
Proof. unfold bind. now intros ->. Qed.

Lemma bind_throw {A B} (m : M A) (k : A -> M B) (w w1 : World) (e : Exn) :
  m w = (Throw e, w1) -> bind m k w = (Throw e, w1).
Proof. unfold bind. now intros ->. Qed.

Lemma same_tables_refl (d : Db) : same_tables d d.
Proof. repeat split. Qed.

Lemma same_tables_trans (d1 d2 d3 : Db) :
  same_tables d1 d2 -> same_tables d2 d3 -> same_tables d1 d3.
Proof. unfold same_tables. intuition congruence. Qed.

(* ================================================================== *)
(** * Contributors *)
(* ================================================================== *)

Lemma author_findOrCreate_known (username : string) (linkKarma commentKarma : Z)
    (w w' : World) (id : Z) (a : AuthorRow) :
  a ∈ authors (db w) -> ar_username a = username ->
  AuthorModel.findOrCreate username linkKarma commentKarma w = (Ok id, w') ->
  exists t,
    authors (db w') =
      map (fun r => if bool_decide (ar_username r = username)
                    then AuthorModel.overwritten linkKarma commentKarma t r else r)
          (authors (db w)) /\
    posts (db w') = posts (db w).
Proof.
  intros Hin Hu H. unfold AuthorModel.findOrCreate in H.
  apply bind_ok_inv in H as (ids & w1 & Hsel & H).
  apply query_ok_inv in Hsel as (d1 & (_ & Ha1 & Hp1 & _) & _ & _ & Hs).
  unfold AuthorModel.select_id in Hs. injection Hs as Hids Hd1.
  destruct ids as [|i ids].
  - exfalso. apply map_eq_nil in Hids.
    assert (Hx : a ∈ filter (fun r => ar_username r = username) (authors d1)).
    { apply list_elem_of_filter. rewrite Ha1. auto. }
    rewrite Hids in Hx. inversion Hx.
  - apply bind_ok_inv in H as ([] & w2 & Hupd & Hret).
    injection Hret as _ <-.
    apply query_ok_inv in Hupd as (d2 & (_ & Ha2 & Hp2 & _) & _ & _ & Hs).
    unfold AuthorModel.update_karma in Hs. injection Hs as Hd2.
    exists (db_now d2). rewrite <- Hd2. simpl.
    rewrite Ha2, Hp2, <- Hd1, Ha1, Hp1. auto.
Qed.

(** C9.  [AuthorModel.findOrCreate] on a known handle overwrites the
    stored link and comment karma with the supplied values, whatever
    was stored: the contributor's row keeps its id and handle and
    carries exactly the supplied numbers.  [ETLService.storePost]
    supplies zero for both, so a successful store of an item by a known
    contributor leaves that contributor with zero karma. *)
Theorem known_author_karma_overwritten :
  (forall (username : string) (linkKarma commentKarma : Z) (w w' : World)
          (id : Z) (a : AuthorRow),
      a ∈ authors (db w) -> ar_username a = username ->
      AuthorModel.findOrCreate username linkKarma commentKarma w = (Ok id, w') ->
      length (authors (db w')) = length (authors (db w)) /\
      exists a', a' ∈ authors (db w') /\
        ar_id a' = ar_id a /\ ar_username a' = username /\
        ar_link_karma a' = linkKarma /\ ar_comment_karma a' = commentKarma) /\
  (forall (redditPost : RedditPost) (subredditId : Z) (w w' : World) (a : AuthorRow),
      a ∈ authors (db w) -> ar_username a = rp_author redditPost ->
      ETLService.storePost redditPost subredditId w = (Ok tt, w') ->
      length (authors (db w')) = length (authors (db w)) /\
      exists a', a' ∈ authors (db w') /\
        ar_id a' = ar_id a /\ ar_username a' = rp_author redditPost /\
        ar_link_karma a' = 0 /\ ar_comment_karma a' = 0).
Proof.
  assert (Hmap : forall username lk ck t (l : list AuthorRow) a,
             a ∈ l -> ar_username a = username ->
             let l' := map (fun r => if bool_decide (ar_username r = username)
                                     then AuthorModel.overwritten lk ck t r else r) l in
             length l' = length l /\
             exists a', a' ∈ l' /\ ar_id a' = ar_id a /\ ar_username a' = username /\
                        ar_link_karma a' = lk /\ ar_comment_karma a' = ck).
  { intros username lk ck t l a Hin Hu l'. split; [apply length_map|].
    exists (AuthorModel.overwritten lk ck t a). split; [|now repeat split].
    apply list_elem_of_fmap. exists a. split; [|exact Hin].
    now rewrite bool_decide_true. }
  split.
  - intros username lk ck w w' id a Hin Hu H.
    destruct (author_findOrCreate_known _ _ _ _ _ _ _ Hin Hu H) as (t & -> & _).
    now apply Hmap.
  - intros redditPost subredditId w w' a Hin Hu H.
    unfold ETLService.storePost in H.
    apply bind_ok_inv in H as (authorId & w1 & Hfind & H).
    apply bind_ok_inv in H as (postId & w2 & Hcreate & Hret).
    injection Hret as <-.
    destruct (author_findOrCreate_known _ _ _ _ _ _ _ Hin Hu Hfind) as (t & Ha & _).
    apply create_inv in Hcreate as (d1 & (_ & Ha1 & _) & Hups).
    assert (Hau : authors (db w2) = authors d1).
    { now apply upsert_ok_inv in Hups as (_ & Hau & _). }
    rewrite Hau, Ha1, Ha. now apply Hmap.
Qed.

Lemma known_author_karma_overwritten_witness :
  length (authors (db (snd (ETLService.storePost alice_post 1 alice_known))))
    = length (authors (db alice_known)) /\
  exists a', a' ∈ authors (db (snd (ETLService.storePost alice_post 1 alice_known))) /\
    ar_id a' = 1 /\ ar_username a' = "alice" /\
    ar_link_karma a' = 0 /\ ar_comment_karma a' = 0.
Proof.
  apply (proj2 known_author_karma_overwritten alice_post 1 alice_known _
           (mkAuthorRow 1 "alice" 500 700 None 0 0)).
  - apply list_elem_of_singleton. reflexivity.
  - reflexivity.
  - reflexivity.
Defined.

(* ================================================================== *)
(** * Comment extraction *)
(* ================================================================== *)

Lemma Thing_ind_nested (P : Thing -> Prop) :
  (forall kind data, P (mkThing kind data None)) ->
  (forall kind data children, Forall P children -> P (mkThing kind data (Some children))) ->
  forall node, P node.
Proof.
  intros Hleaf Hnode. fix IH 1. intros [kind data [children|]].
  - apply Hnode. induction children as [|c cs IHcs]; constructor; [apply IH|exact IHcs].
  - apply Hleaf.
Qed.

Lemma comment_eta (data : RedditComment) :
  mkRedditComment (rc_id data) (rc_body data) (rc_author data)
                  (rc_score data) (rc_created_utc data) (rc_link_id data) = data.
Proof. now destruct data. Qed.

Lemma extract_children_preorder (children : list Thing) :
  Forall (fun c => forall acc, extractChild c acc = acc ++ comment_preorder c) children ->
  forall acc,
    fold_left (fun acc c => extractChild c acc) children acc
      = acc ++ concat (map comment_preorder children).
Proof.
  induction 1 as [|c cs Hc _ IH]; intros acc; simpl.
  - now rewrite app_nil_r.
  - rewrite Hc, IH. now rewrite <- app_assoc.
Qed.

Lemma extractChild_preorder (node : Thing) (acc : list RedditComment) :
  extractChild node acc = acc ++ comment_preorder node.
Proof.
  revert acc. induction node as [kind data|kind data children IH] using Thing_ind_nested;
    intros acc; simpl; destruct (bool_decide (kind = "t1")); rewrite ?comment_eta.
  - reflexivity.
  - now rewrite app_nil_r.
  - rewrite (extract_children_preorder children IH). now rewrite <- app_assoc.
  - now rewrite app_nil_r.
Qed.

(** C10.  [extractComments] appends to the output array the comments of
    the forest in depth-first preorder, a parent before its replies and
    siblings in order, and nothing else.  A child whose kind is [t1] is
    pushed and its replies are walked before the next sibling; a child
    of any other kind leaves the array as it is, whatever replies it
    carries. *)
Theorem extractComments_preorder :
  (forall (children : list Thing) (comments : list RedditComment),
      extractComments children comments
        = comments ++ concat (map comment_preorder children)) /\
  (forall kind data replies rest comments,
      extractComments (mkThing kind data replies :: rest) comments
        = if bool_decide (kind = "t1")
          then extractComments rest
                 (extractComments (default [] replies) (comments ++ [data]))
          else extractComments rest comments) /\
  (forall kind data replies,
      comment_preorder (mkThing kind data replies)
        = if bool_decide (kind = "t1")
          then data :: concat (map comment_preorder (default [] replies))
          else []) /\
  map rc_id (extractComments sample_thread []) = ["c1"; "c2"; "c4"; "c5"].
Proof.
  split; [|split; [|split]].
  - intros children comments. unfold extractComments.
    apply extract_children_preorder, Forall_forall.
    intros c _ acc. apply extractChild_preorder.
  - intros kind data replies rest comments. unfold extractComments. simpl.
    destruct (bool_decide (kind = "t1")); [|reflexivity].
    rewrite comment_eta. now destruct replies.
  - intros kind data replies. simpl. now destruct replies.
  - reflexivity.
Qed.

(* ================================================================== *)
(** * Relevance scores *)
(* ================================================================== *)

Lemma lower_ascii_syntax (c : ascii) :
  is_syntax_character (lower_ascii c) = is_syntax_character c.
Proof.
  destruct c as [[] [] [] [] [] [] [] []]; vm_compute; reflexivity.
Qed.

Lemma toLowerCase_chars (s : string) :
  String.list_ascii_of_string (toLowerCase s)
    = map lower_ascii (String.list_ascii_of_string s).
Proof. unfold toLowerCase. apply String.list_ascii_of_string_of_list_ascii. Qed.

Lemma literal_lower (keyword : string) :
  literal_keyword keyword -> literal_keyword (toLowerCase keyword).
Proof.
  unfold literal_keyword. rewrite toLowerCase_chars. intros H.
  apply Forall_forall. intros c Hc. apply list_elem_of_fmap in Hc as (c0 & -> & Hc0).
  rewrite lower_ascii_syntax. rewrite Forall_forall in H. now apply H.
Qed.

Lemma lower_ascii_range (c : ascii) :
  (N_of_ascii c < 128)%N -> (N_of_ascii (lower_ascii c) < 128)%N.
Proof.
  destruct c as [[] [] [] [] [] [] [] []]; vm_compute; intros H; try reflexivity;
    discriminate H.
Qed.

Lemma ascii_lower (s : string) : ascii_text s -> ascii_text (toLowerCase s).
Proof.
  unfold ascii_text. rewrite toLowerCase_chars. intros H.
  apply Forall_forall. intros c Hc. apply list_elem_of_fmap in Hc as (c0 & -> & Hc0).
  apply lower_ascii_range. rewrite Forall_forall in H. now apply H.
Qed.

Lemma compile_literal (cs : list ascii) :
  Forall (fun c => is_syntax_character c = false) cs ->
  Forall (fun c => (N_of_ascii c < 128)%N) cs ->
  compile_atoms cs = Some (map RChar cs).
Proof.
  induction 1 as [|c cs Hc _ IH]; intros Hascii; [reflexivity|].
  apply Forall_cons in Hascii as [Hc7 Hascii]. simpl. rewrite (IH Hascii).
  destruct (bool_decide (c = "."%char)) eqn:Hdot.
  - apply bool_decide_eq_true in Hdot. subst c. discriminate Hc.
  - rewrite Hc. apply N.leb_gt in Hc7. now rewrite Hc7.
Qed.

Lemma matches_at_literal (p text : list ascii) :
  matches_at (map RChar p) text = is_prefix p text.
Proof.
  revert text. induction p as [|a p IH]; intros [|b text]; simpl; try reflexivity.
  now rewrite IH.
Qed.

Lemma is_prefix_length (p text : list ascii) :
  is_prefix p text = true -> (length p <= length text)%nat.
Proof.
  revert text. induction p as [|a p IH]; intros [|b text]; simpl; try lia; try discriminate.
  intros H. apply andb_true_iff in H as [_ H]. apply IH in H. lia.
Qed.

(** On a literal pattern the global scan of the regex counts the
    occurrences of the pattern, [covered] characters being already
    consumed by the previous match. *)
Lemma count_matches_literal (p text : list ascii) (covered : nat) :
  (covered <= length text)%nat ->
  count_matches (map RChar p) covered text = occurrences p (drop covered text).
Proof.
  revert covered. induction text as [|c text IH]; intros covered Hle.
  - simpl in Hle. assert (covered = 0%nat) as -> by lia. simpl.
    rewrite matches_at_literal. now simp occurrences.
  - destruct covered as [|k].
    + cbn [count_matches drop]. simp occurrences. rewrite matches_at_literal.
      destruct (is_prefix p (c :: text)) eqn:Hp.
      * f_equal. rewrite length_map. apply IH.
        apply is_prefix_length in Hp. simpl in Hp. lia.
      * apply (IH 0%nat). lia.
    + cbn [count_matches drop]. apply IH. simpl in Hle. lia.
Qed.

Lemma match_length_literal (keyword text : string) :
  literal_keyword keyword ->
  match_length (map RChar (String.list_ascii_of_string (toLowerCase keyword)))
               (toLowerCase text)
    = count_occurrences keyword text.
Proof.
  intros _. unfold match_length, count_occurrences. f_equal.
  rewrite count_matches_literal by lia. reflexivity.
Qed.

Lemma compile_keywords_literal (keywords : list string) :
  Forall literal_keyword keywords -> Forall ascii_text keywords ->
  mapM (fun keyword => RegExp (toLowerCase keyword)) keywords
    = Some (map (fun keyword =>
                   map RChar (String.list_ascii_of_string (toLowerCase keyword)))
                keywords).
Proof.
  induction 1 as [|k ks Hk _ IH]; intros Hascii; [reflexivity|].
  apply Forall_cons in Hascii as [Hk7 Hascii].
  cbn [mapM] in *. unfold RegExp in *.
  rewrite (compile_literal _ (literal_lower _ Hk) (ascii_lower _ Hk7)). simpl.
  rewrite (IH Hascii). reflexivity.
Qed.

Lemma relevance_literal (keywords : list string) (title : string) (content : option string) :
  Forall literal_keyword keywords ->
  PostModel.relevance
    (map (fun keyword => map RChar (String.list_ascii_of_string (toLowerCase keyword)))
         keywords)
    title content
  = weighted_occurrences keywords title (or_empty content).
Proof.
  intros Hlit. unfold PostModel.relevance.
  enough (Hgen : forall acc,
             fold_left
               (fun score regex =>
                  score + (match_length regex (toLowerCase title) * 10
                           + match_length regex (toLowerCase (or_empty content)) * 5))
               (map (fun keyword =>
                       map RChar (String.list_ascii_of_string (toLowerCase keyword)))
                    keywords) acc
             = acc + weighted_occurrences keywords title (or_empty content))
    by (rewrite Hgen; lia).
  induction Hlit as [|k ks Hk _ IH]; intros acc; simpl; [lia|].
  rewrite IH, !match_length_literal by exact Hk. lia.
Qed.

(** C7, as the code has it.  On ASCII text, for keywords free of
    regular-expression syntax characters, [updateRelevanceScore] on a
    stored item counts, per keyword, the case-insensitive occurrences
    (left to right, without overlap) in the title and in the body
    separately, sums [10 x titleOccurrences + 5 x bodyOccurrences] over
    the keywords and replaces the item's relevance score by that sum,
    whatever it was before; title, body and the four counters are not
    touched.  The keywords, the title and the body are ASCII text: only
    there is the case folding of the code the one of [toLowerCase]. *)
Theorem updateRelevanceScore_weighted (postId : Z) (keywords : list string) :
  Forall literal_keyword keywords -> Forall ascii_text keywords ->
  is_Some (PostModel.updateRelevanceScore postId keywords) /\
  forall (m : M unit) (w w' : World) (r : PostRow),
    PostModel.updateRelevanceScore postId keywords = Some m ->
    NoDup (map pr_id (posts (db w))) ->
    r ∈ posts (db w) -> pr_id r = postId ->
    ascii_text (pr_title r) -> ascii_text (or_empty (pr_content r)) ->
    m w = (Ok tt, w') ->
    length (posts (db w')) = length (posts (db w)) /\
    exists r', r' ∈ posts (db w') /\ pr_id r' = postId /\
      pr_relevance_score r'
        = weighted_occurrences keywords (pr_title r) (or_empty (pr_content r)) /\
      pr_title r' = pr_title r /\ pr_content r' = pr_content r /\
      pr_score r' = pr_score r /\ pr_upvotes r' = pr_upvotes r /\
      pr_downvotes r' = pr_downvotes r /\ pr_comment_count r' = pr_comment_count r.
Proof.
  intros Hlit Hascii. unfold PostModel.updateRelevanceScore.
  rewrite (compile_keywords_literal keywords Hlit Hascii).
  split; [eexists; reflexivity|].
  intros m w w' r [= <-] Hnd Hin Hid _ _ H.
  apply bind_ok_inv in H as (postResult & w1 & Hsel & H).
  apply query_ok_inv in Hsel as (d1 & (_ & _ & Hp1 & _) & _ & _ & Hs).
  unfold PostModel.select_text in Hs. injection Hs as Hres Hd1.
  rewrite Hp1, <- Hid, (filter_unique_key pr_id _ _ Hnd Hin) in Hres.
  subst postResult. cbn [map] in H.
  apply query_ok_inv in H as (d2 & (_ & _ & Hp2 & _) & _ & _ & Hs).
  unfold PostModel.update_relevance in Hs. injection Hs as Hd2.
  rewrite <- Hd2. cbn [posts set_posts]. rewrite Hp2, <- Hd1, Hp1.
  split; [apply length_map|].
  eexists. split.
  - apply list_elem_of_fmap. exists r. split; [|exact Hin].
    rewrite bool_decide_true by exact Hid. reflexivity.
  - cbn. rewrite (relevance_literal keywords _ _ Hlit). repeat split. exact Hid.
Qed.

Lemma updateRelevanceScore_weighted_witness :
  let m := default (ret tt) (PostModel.updateRelevanceScore 1 ["RUST"]) in
  (exists r', r' ∈ posts (db (snd (m alice_stored))) /\ pr_id r' = 1 /\
              pr_relevance_score r'
                = weighted_occurrences ["RUST"] "Rust and RUST" "I like rust") /\
  weighted_occurrences ["RUST"] "Rust and RUST" "I like rust" = 2 * 10 + 1 * 5.
Proof.
  intros m. split; [|vm_compute; reflexivity].
  assert (Hlit : Forall literal_keyword ["RUST"]).
  { repeat constructor. }
  assert (Hascii : Forall ascii_text ["RUST"]).
  { repeat constructor. }
  destruct (updateRelevanceScore_weighted 1 ["RUST"] Hlit Hascii) as ([m' Hm'] & Hspec).
  destruct (Hspec m alice_stored (snd (m alice_stored))
              (mkPostRow 1 "t3_abc" "Rust and RUST" (Some "I like rust") (Some 1) (Some 1)
                         10 12 2 3 1700000000000 "https://example.org/a" false 0 0 0))
    as (_ & r' & Hin & Hid & Hrel & _).
  - unfold m. rewrite Hm'. reflexivity.
  - apply NoDup_singleton.
  - apply list_elem_of_singleton. reflexivity.
  - reflexivity.
  - unfold ascii_text. apply (bool_decide_unpack _). vm_compute. exact I.
  - unfold ascii_text. apply (bool_decide_unpack _). vm_compute. exact I.
  - vm_compute. reflexivity.
  - exists r'. auto.
Defined.

(** C7, counterexample to the claim as stated.  The keyword is handed
    to [new RegExp] as a pattern: in the community [rust] of the store
    [alice_known], for the keyword [.] and an item titled [ab] with an
    empty body the stored score becomes 20 (the pattern matches both
    characters), although [.] does not occur in the title or in the
    body, so that the weighted occurrence count is 0. *)
Lemma updateRelevanceScore_dot_is_wildcard :
  let w := snd (PostModel.create
                  (mkPost "t3_dot" "ab" None 1 None 0 0 0 0 1700000000000
                          "https://example.org" false) alice_known) in
  map (fun r => (pr_id r, pr_title r, pr_content r, pr_subreddit_id r)) (posts (db w))
    = [(1, "ab", None, Some 1)] /\
  map sr_id (subreddits (db w)) = [1] /\
  option_map (fun m => map pr_relevance_score (posts (db (snd (m w)))))
             (PostModel.updateRelevanceScore 1 ["."]) = Some [20] /\
  weighted_occurrences ["."] "ab" (or_empty None) = 0.
Proof. vm_compute. repeat split. Qed.

(* ================================================================== *)
(** * Search ordering and pagination *)
(* ================================================================== *)

Lemma rank_geb_spec (a b : Joined) :
  rank_geb a b = true <-> rank_ge (j_post a) (j_post b).
Proof.
  unfold rank_geb, rank_ge. rewrite orb_true_iff, andb_true_iff.
  rewrite Z.ltb_lt, Z.eqb_eq, Z.leb_le. reflexivity.
Qed.

Lemma rank_ge_total (a b : PostRow) : rank_ge a b \/ rank_ge b a.
Proof. unfold rank_ge. lia. Qed.

Lemma rank_ge_trans (a b c : PostRow) : rank_ge a b -> rank_ge b c -> rank_ge a c.
Proof. unfold rank_ge. lia. Qed.

Lemma insert_ranked_perm (x : Joined) (l : list Joined) :
  Permutation (insert_ranked x l) (x :: l).
Proof.
  induction l as [|y l IH]; simpl; [reflexivity|].
  destruct (rank_geb x y); [reflexivity|].
  rewrite IH. apply perm_swap.
Qed.

Lemma insert_ranked_sorted (x : Joined) (l : list Joined) :
  StronglySorted (fun a b => rank_ge (j_post a) (j_post b)) l ->
  StronglySorted (fun a b => rank_ge (j_post a) (j_post b)) (insert_ranked x l).
Proof.
  induction 1 as [|y l Hs IH Hy]; simpl.
  - repeat constructor.
  - destruct (rank_geb x y) eqn:Hxy.
    + apply rank_geb_spec in Hxy. constructor; [now constructor|].
      constructor; [exact Hxy|].
      eapply Forall_impl; [exact Hy|]. intros z Hz. cbn beta in *.
      eapply rank_ge_trans; eauto.
    + assert (Hyx : rank_ge (j_post y) (j_post x)).
      { destruct (rank_ge_total (j_post x) (j_post y)) as [H|H]; [|exact H].
        apply rank_geb_spec in H. congruence. }
      constructor; [exact IH|].
      eapply Permutation_Forall; [symmetry; apply insert_ranked_perm|].
      now constructor.
Qed.

Lemma order_by_rank_perm (l : list Joined) : Permutation (order_by_rank l) l.
Proof.
  induction l as [|x l IH]; simpl; [reflexivity|].
  rewrite insert_ranked_perm. now constructor.
Qed.

Lemma order_by_rank_sorted (l : list Joined) :
  StronglySorted (fun a b => rank_ge (j_post a) (j_post b)) (order_by_rank l).
Proof.
  induction l as [|x l IH]; simpl; [constructor|]. now apply insert_ranked_sorted.
Qed.

Lemma StronglySorted_drop {A} (R : A -> A -> Prop) (n : nat) (l : list A) :
  StronglySorted R l -> StronglySorted R (drop n l).
Proof.
  revert l. induction n as [|n IH]; intros l Hs; [now rewrite drop_0|].
  destruct l as [|x l]; [constructor|]. simpl. apply IH. now inversion Hs.
Qed.

Lemma StronglySorted_take {A} (R : A -> A -> Prop) (n : nat) (l : list A) :
  StronglySorted R l -> StronglySorted R (take n l).
Proof.
  revert l. induction n as [|n IH]; intros l Hs; [constructor|].
  destruct l as [|x l]; [constructor|]. simpl. inversion Hs as [|? ? Hl Hx]; subst.
  constructor; [now apply IH|].
  apply Forall_forall. intros y Hy. rewrite Forall_forall in Hx. apply Hx.
  eapply subseteq_take, Hy.
Qed.

Lemma StronglySorted_map {A B} (f : A -> B) (R : B -> B -> Prop) (l : list A) :
  StronglySorted (fun a b => R (f a) (f b)) l -> StronglySorted R (map f l).
Proof.
  induction 1 as [|x l _ IH Hx]; simpl; constructor; [exact IH|].
  apply Forall_forall. intros y Hy. apply list_elem_of_fmap in Hy as (z & -> & Hz).
  rewrite Forall_forall in Hx. now apply Hx.
Qed.

Lemma matching_same_tables ts_match ilike (clauses : list Clause) (d d1 : Db) :
  same_tables d d1 ->
  PostModel.matching ts_match ilike clauses d1 = PostModel.matching ts_match ilike clauses d.
Proof.
  intros (Hs & Ha & Hp & _). unfold PostModel.matching. rewrite Hp. f_equal.
  apply map_ext. intros p. unfold join_row. now rewrite Hs, Ha.
Qed.

(** C8.  A successful [search] returns the page
    [take limit (drop offset ordered)] of a list [ordered] that is a
    rearrangement of all the rows satisfying the criteria and is sorted
    by relevance score descending, then raw score descending; [limit]
    is the requested one, or 50 when none (or 0) is given, [offset] the
    requested one, or 0.  The page itself is sorted the same way: a row
    never follows one of lower relevance, nor one of equal relevance
    and lower raw score. *)
Theorem search_ranked_then_paged (ts_match ilike : string -> string -> bool)
    (searchQuery : SearchQuery) (w w' : World) (rows : list SearchResult) :
  PostModel.search ts_match ilike searchQuery w = (Ok rows, w') ->
  exists ordered : list Joined,
    Permutation ordered
      (PostModel.matching ts_match ilike
         (PostModel.where_clauses searchQuery) (db w)) /\
    StronglySorted (fun a b => rank_ge (j_post a) (j_post b)) ordered /\
    (let limit := match sq_limit searchQuery with
                  | None | Some 0 => 50
                  | Some n => n
                  end in
     let offset := match sq_offset searchQuery with
                   | None => 0
                   | Some n => n
                   end in
     rows = map to_result (take (Z.to_nat limit) (drop (Z.to_nat offset) ordered))) /\
    StronglySorted (fun a b => rank_ge (res_post a) (res_post b)) rows.
Proof.
  intros H. unfold PostModel.search in H.
  apply query_ok_inv in H as (d1 & Ht & _ & _ & Hs).
  unfold PostModel.select_ranked in Hs.
  destruct (_ <? 0); [discriminate|]. destruct (_ <? 0); [discriminate|].
  injection Hs as <- _.
  rewrite (matching_same_tables _ _ _ _ _ Ht).
  eexists. split; [apply order_by_rank_perm|].
  split; [apply order_by_rank_sorted|].
  split.
  { cbn zeta. f_equal. f_equal; [|f_equal]; f_equal.
    - unfold or_default. now destruct (sq_limit searchQuery) as [[]|].
    - unfold or_default. now destruct (sq_offset searchQuery) as [[]|]. }
  apply (StronglySorted_map to_result (fun a b => rank_ge (res_post a) (res_post b))).
  apply (StronglySorted_take (fun a b => rank_ge (j_post a) (j_post b))).
  apply StronglySorted_drop, order_by_rank_sorted.
Qed.

Lemma search_ranked_then_paged_witness :
  map (fun r => pr_id (res_post r))
      (match fst (PostModel.search any_text any_text (all_posts_query None None) ranked_store)
       with Ok rows => rows | Throw _ => [] end) = [2; 1; 3] /\
  exists ordered : list Joined,
    Permutation ordered
      (PostModel.matching any_text any_text
         (PostModel.where_clauses (all_posts_query (Some 2) (Some 1))) (db ranked_store)) /\
    StronglySorted (fun a b => rank_ge (j_post a) (j_post b)) ordered /\
    map to_result [mkJoined (ranked_post 1 5 10) None None;
                   mkJoined (ranked_post 3 2 100) None None]
      = map to_result (take 2 (drop 1 ordered)).
Proof.
  split; [reflexivity|].
  destruct (search_ranked_then_paged any_text any_text (all_posts_query (Some 2) (Some 1))
              ranked_store ranked_store
              (map to_result [mkJoined (ranked_post 1 5 10) None None;
                              mkJoined (ranked_post 3 2 100) None None]))
    as (ordered & Hperm & Hsorted & Hrows & _).
  - reflexivity.
  - exists ordered. auto.
Defined.

(* ================================================================== *)
(** * Retry with exponential backoff *)
(* ================================================================== *)

Lemma retry_from_throttled {T} (requestFn : M T) (attempt : Z) (k : nat) (w w' : World) :
  throttled requestFn attempt k w w' ->
  forall remaining,
    retry_from requestFn attempt (k + remaining) w
      = retry_from requestFn (attempt + Z.of_nat k) remaining w'.
Proof.
  induction 1 as [attempt w|attempt k w w1 w' e Hrun H429 _ IH]; intros remaining.
  - simpl. now rewrite Z.add_0_r.
  - cbn [Nat.add retry_from]. unfold try_catch at 1. rewrite Hrun.
    unfold is_429. rewrite bool_decide_true by exact H429.
    unfold bind at 1. cbn [sleep]. cbn [snd] in IH. rewrite IH.
    f_equal. lia.
Qed.

Lemma retry_from_ok {T} (requestFn : M T) (attempt : Z) (remaining : nat)
    (w w' : World) (v : T) :
  requestFn w = (Ok v, w') -> retry_from requestFn attempt remaining w = (Ok v, w').
Proof. intros H. destruct remaining; simpl; unfold try_catch; now rewrite H. Qed.

Lemma retry_from_other_error {T} (requestFn : M T) (attempt : Z) (remaining : nat)
    (w w' : World) (e : Exn) :
  requestFn w = (Throw e, w') -> exn_status e <> Some 429 ->
  retry_from requestFn attempt remaining w = (Throw e, w').
Proof.
  intros H Hne. destruct remaining; simpl; unfold try_catch; rewrite H;
    unfold is_429; now rewrite bool_decide_false.
Qed.

Lemma retry_from_exhausted {T} (requestFn : M T) (attempt : Z) (w w' : World) (e : Exn) :
  requestFn w = (Throw e, w') ->
  retry_from requestFn attempt 0 w = (Throw e, w').
Proof.
  intros H. simpl. unfold try_catch. rewrite H. now destruct (is_429 e).
Qed.

(** C5.  With [maxRetries = 3], whatever the operation: after [k <= 3]
    throttling responses, each followed by its backoff sleep of
    [5000 * 2 ^ attempt] ms (5 s, 10 s, 20 s), the wrapper runs the
    operation again and hands back its value if it succeeds; an error
    that is not a 429 is rethrown from the very world the operation
    left, with no sleep and no further attempt, at whatever attempt it
    occurs; and a fourth throttling response, after three of them and
    their three sleeps, is rethrown as well. *)
Theorem makeRequestWithRetry_backoff {T} (requestFn : M T) (w0 : World) :
  (forall (k : nat) (w w' : World) (v : T),
      (k <= 3)%nat -> throttled requestFn 0 k w0 w ->
      requestFn w = (Ok v, w') ->
      makeRequestWithRetry requestFn 3 w0 = (Ok v, w')) /\
  (forall (k : nat) (w w' : World) (e : Exn),
      (k <= 3)%nat -> throttled requestFn 0 k w0 w ->
      requestFn w = (Throw e, w') -> exn_status e <> Some 429 ->
      makeRequestWithRetry requestFn 3 w0 = (Throw e, w')) /\
  (forall (w w' : World) (e : Exn),
      throttled requestFn 0 3 w0 w ->
      requestFn w = (Throw e, w') -> exn_status e = Some 429 ->
      makeRequestWithRetry requestFn 3 w0 = (Throw e, w')) /\
  map (fun attempt => 5000 * 2 ^ attempt) [0; 1; 2] = [5000; 10000; 20000].
Proof.
  unfold makeRequestWithRetry. split; [|split; [|split]].
  - intros k w w' v Hk Hthr Hrun.
    replace 3%nat with (k + (3 - k))%nat by lia.
    rewrite (retry_from_throttled _ _ _ _ _ Hthr). now apply retry_from_ok.
  - intros k w w' e Hk Hthr Hrun Hne.
    replace 3%nat with (k + (3 - k))%nat by lia.
    rewrite (retry_from_throttled _ _ _ _ _ Hthr). now apply retry_from_other_error.
  - intros w w' e Hthr Hrun _.
    change 3%nat with (3 + 0)%nat.
    rewrite (retry_from_throttled _ _ _ _ _ Hthr). now apply retry_from_exhausted.
  - reflexivity.
Qed.

Lemma makeRequestWithRetry_backoff_witness :
  let requestFn := http (ReqGet "https://oauth.reddit.com/r/rust/hot") in
  let w0 := boot 0 [too_many_requests; too_many_requests;
                    too_many_requests; too_many_requests] [] in
  exists w',
    makeRequestWithRetry requestFn 3 w0
      = (Throw (mkExn (Some 429) "Request failed with status code 429"), w') /\
    trace w' =
      [EvRequest 0 (ReqGet "https://oauth.reddit.com/r/rust/hot");
       EvSleep SleepBackoff 5000;
       EvRequest 5040 (ReqGet "https://oauth.reddit.com/r/rust/hot");
       EvSleep SleepBackoff 10000;
       EvRequest 15080 (ReqGet "https://oauth.reddit.com/r/rust/hot");
       EvSleep SleepBackoff 20000;
       EvRequest 35120 (ReqGet "https://oauth.reddit.com/r/rust/hot")].
Proof.
  intros requestFn w0.
  pose (e := mkExn (Some 429) "Request failed with status code 429").
  pose (a1 := snd (sleep SleepBackoff 5000 (snd (requestFn w0)))).
  pose (a2 := snd (sleep SleepBackoff 10000 (snd (requestFn a1)))).
  pose (a3 := snd (sleep SleepBackoff 20000 (snd (requestFn a2)))).
  exists (snd (requestFn a3)). split; [|vm_compute; reflexivity].
  apply (proj1 (proj2 (proj2 (makeRequestWithRetry_backoff requestFn w0))) a3).
  - apply (throttled_again requestFn 0 2 w0 (snd (requestFn w0)) a3 e);
      [vm_compute; reflexivity|reflexivity|].
    apply (throttled_again requestFn 1 1 a1 (snd (requestFn a1)) a3 e);
      [vm_compute; reflexivity|reflexivity|].
    apply (throttled_again requestFn 2 0 a2 (snd (requestFn a2)) a3 e);
      [vm_compute; reflexivity|reflexivity|].
    apply throttled_none.
  - vm_compute. reflexivity.
  - reflexivity.
Defined.

(* ================================================================== *)
(** * The pre-request throttle *)
(* ================================================================== *)

Ltac world_simpl :=
  cbn [fst snd now svc redis redis_up net trace db
       set_now set_svc set_redis set_net set_trace set_db
       accessToken tokenExpiry requestCount lastResetTime lastRequestTime
       redditRateLimitRemaining redditRateLimitReset
       set_accessToken set_tokenExpiry set_requestCount set_lastResetTime
       set_lastRequestTime set_redditRateLimitRemaining set_redditRateLimitReset] in *.

(** What one call of [checkRateLimit] does to the world, in closed
    form: [t1], [t2] and [t3] are the clock after the remote-quota wait,
    after the local-limit wait and after the minimum-interval wait. *)
Lemma checkRateLimit_run (env : Env) (w : World) :
  let t := now w in
  let s := svc w in
  let timeSinceReset := t - lastResetTime s in
  let stale := 60000 <=? timeSinceReset in
  let count := if stale then 0 else requestCount s in
  let quota := (redditRateLimitRemaining s <=? 1) && (t <? redditRateLimitReset s) in
  let t1 := if quota then t + timer_delay (redditRateLimitReset s - t) else t in
  let limited := RATE_LIMIT env <=? count in
  let t2 := if limited then t1 + timer_delay (60000 - timeSinceReset) else t1 in
  let sinceLast := t2 - lastRequestTime s in
  let early := sinceLast <? MIN_REQUEST_INTERVAL env in
  let t3 := if early then t2 + timer_delay (MIN_REQUEST_INTERVAL env - sinceLast) else t2 in
  exists w',
    RedditService.checkRateLimit env w = (Ok tt, w') /\
    trace w' =
      trace w ++ [EvThrottle]
        ++ (if quota then [EvSleep SleepRedditQuota (redditRateLimitReset s - t)] else [])
        ++ (if limited then [EvSleep SleepLocalLimit (60000 - timeSinceReset)] else [])
        ++ (if early
            then [EvSleep SleepInterval (MIN_REQUEST_INTERVAL env - sinceLast)] else [])
        ++ [EvPaced t3] /\
    now w' = t3 /\
    svc w' =
      mkService (accessToken s) (tokenExpiry s)
        ((if limited then 0 else count) + 1)
        (if limited then t2 else if stale then t else lastResetTime s)
        t3
        (if quota then 60 else redditRateLimitRemaining s)
        (redditRateLimitReset s) /\
    redis w' = redis w /\ redis_up w' = redis_up w /\ net w' = net w /\ db w' = db w.
Proof.
  cbv zeta.
  unfold RedditService.checkRateLimit, RedditService.waitForRequestInterval.
  unfold bind, when, emit, Date_now, get_svc, modify_svc, sleep, ret.
  destruct w as [t [tok expiry count windowStart lastPass remaining resetAt]
                   cache up replies log d].
  world_simpl.
  destruct (60000 <=? t - windowStart); world_simpl;
    destruct ((remaining <=? 1) && (t <? resetAt)); world_simpl;
    match goal with |- context [RATE_LIMIT env <=? ?c] =>
      destruct (RATE_LIMIT env <=? c) end; world_simpl;
    match goal with |- context [?a <? MIN_REQUEST_INTERVAL env] =>
      destruct (a <? MIN_REQUEST_INTERVAL env) end; world_simpl;
    (eexists; split; [reflexivity|]); world_simpl;
    rewrite <- ?app_assoc; repeat split.
Qed.


(** C3, as the code has it.  Every call of [checkRateLimit] succeeds
    and proceeds in this order.  It first restarts the local window if
    it is a minute old.  Its waits then come in the order remote quota,
    local limit, minimum interval: if the remote quota is at most 1 and
    its reset instant lies ahead, it sleeps until that instant and
    assumes a quota of 60; if the local counter has reached
    [RATE_LIMIT], it sleeps [60000 - timeSinceReset] and restarts the
    window; last, whatever happened before, it measures the time since
    the previous pass at the clock reached by then and sleeps what is
    missing to [MIN_REQUEST_INTERVAL].  Only then is the pass stamped
    and the local counter incremented. *)
Theorem checkRateLimit_order (env : Env) (w : World) :
  let t := now w in
  let s := svc w in
  let timeSinceReset := t - lastResetTime s in
  let stale := 60000 <=? timeSinceReset in
  let count := if stale then 0 else requestCount s in
  let quota := (redditRateLimitRemaining s <=? 1) && (t <? redditRateLimitReset s) in
  let t1 := if quota then t + timer_delay (redditRateLimitReset s - t) else t in
  let limited := RATE_LIMIT env <=? count in
  let t2 := if limited then t1 + timer_delay (60000 - timeSinceReset) else t1 in
  let sinceLast := t2 - lastRequestTime s in
  let early := sinceLast <? MIN_REQUEST_INTERVAL env in
  exists w',
    RedditService.checkRateLimit env w = (Ok tt, w') /\
    events_since w w' =
      [EvThrottle]
        ++ (if quota then [EvSleep SleepRedditQuota (redditRateLimitReset s - t)] else [])
        ++ (if limited then [EvSleep SleepLocalLimit (60000 - timeSinceReset)] else [])
        ++ (if early
            then [EvSleep SleepInterval (MIN_REQUEST_INTERVAL env - sinceLast)] else [])
        ++ [EvPaced (now w')] /\
    now w' = (if early
              then t2 + timer_delay (MIN_REQUEST_INTERVAL env - sinceLast) else t2) /\
    lastRequestTime (svc w') = now w' /\
    requestCount (svc w') = (if limited then 0 else count) + 1 /\
    lastResetTime (svc w')
      = (if limited then t2 else if stale then t else lastResetTime s) /\
    redditRateLimitRemaining (svc w')
      = (if quota then 60 else redditRateLimitRemaining s).
Proof.
  intros t s timeSinceReset stale count quota t1 limited t2 sinceLast early.
  destruct (checkRateLimit_run env w) as (w' & Hrun & Htrace & Hnow & Hsvc & _).
  cbv zeta in Htrace, Hnow, Hsvc.
  fold t s timeSinceReset stale count quota t1 limited t2 sinceLast early
    in Htrace, Hnow, Hsvc.
  exists w'. split; [exact Hrun|]. split.
  - unfold events_since. rewrite Htrace, drop_app_length. now rewrite Hnow.
  - rewrite Hsvc. cbn [lastRequestTime requestCount lastResetTime
                       redditRateLimitRemaining].
    rewrite Hnow. repeat split.
Qed.

(** C3, counterexample to the claim as stated.  With the previous pass
    100 ms back, one request of remote quota left and the quota reset
    500 ms ahead, the throttle first sleeps the 500 ms to the quota
    reset and only then the 1400 ms missing to the minimum interval:
    the minimum-interval wait is not the first of the waits. *)
Lemma checkRateLimit_quota_wait_precedes_interval_wait :
  let w' := snd (RedditService.checkRateLimit default_env nearly_exhausted) in
  events_since nearly_exhausted w'
    = [EvThrottle; EvSleep SleepRedditQuota 500; EvSleep SleepInterval 1400;
       EvPaced 101900] /\
  ~ interval_wait_first (events_since nearly_exhausted w').
Proof.
  split; [reflexivity|].
  intros H.
  specialize (H 2%nat 1%nat SleepRedditQuota 1400 500 eq_refl eq_refl).
  assert (Hlt : (2 < 1)%nat) by (apply H; discriminate).
  lia.
Qed.

(* ================================================================== *)
(** * Effects that stay within a relation *)
(* ================================================================== *)

Section Preserves.

Variable R : World -> World -> Prop.
Hypothesis R_refl : forall w, R w w.
Hypothesis R_trans : forall a b c, R a b -> R b c -> R a c.

Lemma preserves_ret {A} (a : A) : preserves R (ret a).
Proof. intros w. apply R_refl. Qed.

Lemma preserves_throw {A} (e : Exn) : preserves R (@throw A e).
Proof. intros w. apply R_refl. Qed.

Lemma preserves_bind {A B} (m : M A) (k : A -> M B) :
  preserves R m -> (forall a, preserves R (k a)) -> preserves R (bind m k).
Proof.
  intros Hm Hk w. unfold bind. specialize (Hm w).
  destruct (m w) as [[a|e] w1]; [|exact Hm].
  eapply R_trans; [exact Hm|apply Hk].
Qed.

Lemma preserves_try_catch {A} (m : M A) (h : Exn -> M A) :
  preserves R m -> (forall e, preserves R (h e)) -> preserves R (try_catch m h).
Proof.
  intros Hm Hh w. unfold try_catch. specialize (Hm w).
  destruct (m w) as [[a|e] w1]; [exact Hm|].
  eapply R_trans; [exact Hm|apply Hh].
Qed.

Lemma preserves_when (b : bool) (m : M unit) :
  preserves R m -> preserves R (when b m).
Proof. intros Hm. destruct b; [exact Hm|apply preserves_ret]. Qed.

Lemma preserves_retry_from {T} (requestFn : M T) (remaining : nat) :
  preserves R requestFn ->
  (forall ms, preserves R (sleep SleepBackoff ms)) ->
  forall attempt, preserves R (retry_from requestFn attempt remaining).
Proof.
  intros Hf Hsleep. induction remaining as [|remaining IH]; intros attempt;
    cbn [retry_from]; apply preserves_try_catch; try exact Hf; intros e;
    destruct (is_429 e); try apply preserves_throw.
  apply preserves_bind; [apply Hsleep|]. intros _. apply IH.
Qed.

End Preserves.

Lemma maintains_bind (I : World -> Prop) {A B} (m : M A) (k : A -> M B) :
  maintains I m -> (forall a, maintains I (k a)) -> maintains I (bind m k).
Proof.
  intros Hm Hk w Hw. unfold bind. specialize (Hm w Hw).
  destruct (m w) as [[a|e] w1]; [|exact Hm]. now apply Hk.
Qed.

Lemma maintains_preserves (R : World -> World -> Prop) (I : World -> Prop) {A} (m : M A) :
  (forall w w', R w w' -> I w -> I w') -> preserves R m -> maintains I m.
Proof. intros HR Hm w Hw. exact (HR _ _ (Hm w) Hw). Qed.

(* ================================================================== *)
(** * Pacing of the throttle passes *)
(* ================================================================== *)

Lemma paced_instants_app (a b : list Event) :
  paced_instants (a ++ b) = paced_instants a ++ paced_instants b.
Proof.
  induction a as [|e a IH]; [reflexivity|]. destruct e; simpl; now rewrite IH.
Qed.

Lemma timer_delay_pos (ms : Z) : 1 <= timer_delay ms.
Proof.
  unfold timer_delay. destruct (ms <? 1) eqn:H1; simpl; [lia|].
  destruct (2147483647 <? ms); lia.
Qed.

Lemma timer_delay_in_range (ms : Z) :
  1 <= ms <= 2147483647 -> timer_delay ms = ms.
Proof.
  intros [H1 H2]. unfold timer_delay.
  destruct (ms <? 1) eqn:Ha; [lia|]. destruct (2147483647 <? ms) eqn:Hb; [lia|reflexivity].
Qed.

Lemma quiet_refl (w : World) : quiet w w.
Proof. repeat split. lia. Qed.

Lemma quiet_trans (a b c : World) : quiet a b -> quiet b c -> quiet a c.
Proof.
  unfold quiet. intros (? & ? & ? & ?) (? & ? & ? & ?).
  repeat split; try congruence; lia.
Qed.

Lemma quiet_emit (e : Event) : is_paced_event e = false -> preserves quiet (emit e).
Proof.
  intros He w. repeat split; simpl; try lia.
  rewrite paced_instants_app. destruct e; try discriminate; simpl; now rewrite app_nil_r.
Qed.

Lemma quiet_Date_now : preserves quiet Date_now.
Proof. intros w. apply quiet_refl. Qed.

Lemma quiet_get_svc : preserves quiet get_svc.
Proof. intros w. apply quiet_refl. Qed.

Lemma quiet_modify_svc (f : Service -> Service) :
  (forall s, lastRequestTime (f s) = lastRequestTime s) -> preserves quiet (modify_svc f).
Proof. intros Hf w. repeat split; simpl; try lia. apply Hf. Qed.

Lemma quiet_sleep (why : SleepReason) (ms : Z) : preserves quiet (sleep why ms).
Proof.
  intros w. repeat split; simpl.
  - pose proof (timer_delay_pos ms). lia.
  - rewrite paced_instants_app. simpl. now rewrite app_nil_r.
Qed.

Lemma quiet_http (req : Request) : preserves quiet (http req).
Proof.
  intros w. unfold http. destruct (net w) as [|r rest].
  - repeat split; simpl; try lia. rewrite paced_instants_app. simpl. now rewrite app_nil_r.
  - destruct (reply r); repeat split; simpl; try lia;
      rewrite paced_instants_app; simpl; now rewrite app_nil_r.
Qed.

Lemma quiet_getCached (key : string) : preserves quiet (getCached key).
Proof.
  intros w. unfold getCached.
  assert (Hq : quiet w (set_trace (trace w ++ [EvCacheGet key]) w)).
  { repeat split; simpl; try lia. rewrite paced_instants_app. simpl. now rewrite app_nil_r. }
  destruct (redis_up w); [|exact Hq].
  destruct (redis w !! key) as [entry|]; [|exact Hq].
  destruct (now w <? ce_expires entry); exact Hq.
Qed.

Lemma quiet_setCache (key : string) (value : list RedditPost) (ttl : Z) :
  preserves quiet (setCache key value ttl).
Proof.
  intros w. unfold setCache.
  destruct (redis_up w); repeat split; simpl; try lia;
    rewrite paced_instants_app; simpl; now rewrite app_nil_r.
Qed.

Ltac quiet_step :=
  first
    [ apply (preserves_bind quiet quiet_trans); [|intros ?]
    | apply (preserves_try_catch quiet quiet_trans); [|intros ?]
    | apply (preserves_when quiet quiet_refl)
    | apply (preserves_ret quiet quiet_refl)
    | apply (preserves_throw quiet quiet_refl)
    | apply quiet_emit; reflexivity
    | apply quiet_Date_now
    | apply quiet_get_svc
    | apply quiet_sleep
    | apply quiet_http
    | apply quiet_getCached
    | apply quiet_setCache
    | apply quiet_modify_svc; intros []; reflexivity ].

Ltac quiet_go :=
  repeat first
    [ quiet_step
    | match goal with |- preserves quiet (if ?b then _ else _) => destruct b end
    | match goal with |- preserves quiet (match ?x with _ => _ end) => destruct x end ].

Lemma quiet_authenticate (env : Env) : preserves quiet (RedditService.authenticate env).
Proof. unfold RedditService.authenticate. quiet_go. Qed.

Lemma quiet_updateRateLimitFromHeaders (env : Env) (headers : Headers) :
  preserves quiet (RedditService.updateRateLimitFromHeaders headers).
Proof.
  unfold RedditService.updateRateLimitFromHeaders. apply quiet_modify_svc.
  intros s. destruct (x_ratelimit_remaining headers), (x_ratelimit_reset headers);
    destruct s; reflexivity.
Qed.

Lemma quiet_makeRequestWithRetry {T} (requestFn : M T) (maxRetries : nat) :
  preserves quiet requestFn -> preserves quiet (makeRequestWithRetry requestFn maxRetries).
Proof.
  intros Hf. apply (preserves_retry_from quiet quiet_refl quiet_trans); [exact Hf|].
  intros ms. apply quiet_sleep.
Qed.

Lemma spaced_snoc (gap t : Z) (ts : list Z) :
  spaced gap ts ->
  (forall t0, last ts = Some t0 -> t0 + gap <= t) ->
  spaced gap (ts ++ [t]).
Proof.
  induction ts as [|t1 ts IH]; intros Hs Hlast; [simpl; auto|].
  destruct ts as [|t2 ts].
  - simpl. repeat split. apply Hlast. reflexivity.
  - destruct Hs as [H12 Hs]. cbn [app spaced]. split; [exact H12|].
    apply IH; [exact Hs|]. intros t0 Ht0. apply Hlast. exact Ht0.
Qed.

Lemma quiet_pacing_ok (gap : Z) (w w' : World) :
  quiet w w' -> pacing_ok gap w -> pacing_ok gap w'.
Proof.
  intros (Hl & Hn & Hp & _) (Hs & Hlast). unfold pacing_ok. rewrite Hp, Hl.
  split; [exact Hs|]. intros t Ht. destruct (Hlast t Ht). split; [assumption|lia].
Qed.

Lemma checkRateLimit_pacing_ok (env : Env) :
  MIN_REQUEST_INTERVAL env <= 2147483647 ->
  maintains (pacing_ok (MIN_REQUEST_INTERVAL env)) (RedditService.checkRateLimit env).
Proof.
  intros Hmax w (Hs & Hlast).
  destruct (checkRateLimit_run env w) as (w' & Hrun & Htrace & Hnow & Hsvc & _).
  rewrite Hrun. cbn [snd]. cbv zeta in Htrace, Hnow, Hsvc.
  set (t := now w) in *. set (s := svc w) in *.
  set (quota := (redditRateLimitRemaining s <=? 1) && (t <? redditRateLimitReset s)) in *.
  set (t1 := if quota then t + timer_delay (redditRateLimitReset s - t) else t) in *.
  set (limited := RATE_LIMIT env <=? _) in *.
  set (t2 := if limited then t1 + timer_delay (60000 - (t - lastResetTime s)) else t1) in *.
  set (early := t2 - lastRequestTime s <? MIN_REQUEST_INTERVAL env) in *.
  set (t3 := if early then _ else t2) in *.
  assert (Ht1 : t <= t1).
  { subst t1. destruct quota; [|lia].
    pose proof (timer_delay_pos (redditRateLimitReset s - t)). lia. }
  assert (Ht2 : t1 <= t2).
  { subst t2. destruct limited; [|lia].
    pose proof (timer_delay_pos (60000 - (t - lastResetTime s))). lia. }
  assert (Hps : paced_instants (trace w') = paced_instants (trace w) ++ [t3]).
  { rewrite Htrace, !paced_instants_app.
    destruct quota, limited, early; simpl; reflexivity. }
  unfold pacing_ok. rewrite Hps, Hsvc, Hnow. cbn [lastRequestTime]. split.
  - apply spaced_snoc; [exact Hs|]. intros t0 Ht0.
    destruct (Hlast t0 Ht0) as [-> Hle]. fold s t in Hle |- *.
    subst t3. destruct early eqn:Hearly; subst early.
    + apply Z.ltb_lt in Hearly. rewrite timer_delay_in_range by lia. lia.
    + apply Z.ltb_ge in Hearly. lia.
  - intros t0 Ht0. rewrite last_snoc in Ht0. injection Ht0 as <-. split; [reflexivity|lia].
Qed.

Lemma perform_pacing_ok (env : Env) (w : World) (c : Call) :
  MIN_REQUEST_INTERVAL env <= 2147483647 ->
  pacing_ok (MIN_REQUEST_INTERVAL env) w ->
  pacing_ok (MIN_REQUEST_INTERVAL env) (perform env w c).
Proof.
  intros Hmax.
  pose proof (checkRateLimit_pacing_ok env Hmax) as Hthrottle.
  assert (Hquiet : forall A (m : M A),
             preserves quiet m -> maintains (pacing_ok (MIN_REQUEST_INTERVAL env)) m).
  { intros A m. apply maintains_preserves. apply quiet_pacing_ok. }
  destruct c as [subreddit limit timeFilter sort|q subreddit limit sort timeFilter
                |subreddit postId limit|ms]; cbn [perform].
  - revert w. change (maintains (pacing_ok (MIN_REQUEST_INTERVAL env))
                        (RedditService.fetchPosts env subreddit limit timeFilter sort)).
    unfold RedditService.fetchPosts.
    apply maintains_bind; [apply Hquiet, quiet_getCached|]. intros [posts|].
    + apply Hquiet. quiet_step.
    + apply maintains_bind; [exact Hthrottle|]. intros _.
      apply maintains_bind; [apply Hquiet, quiet_authenticate|]. intros token.
      apply Hquiet, quiet_makeRequestWithRetry.
      quiet_step; [quiet_step|].
      quiet_step; [apply (quiet_updateRateLimitFromHeaders env)|].
      quiet_go.
  - revert w. change (maintains (pacing_ok (MIN_REQUEST_INTERVAL env))
                        (RedditService.searchPosts env q subreddit limit sort timeFilter)).
    unfold RedditService.searchPosts.
    apply maintains_bind; [exact Hthrottle|]. intros _.
    apply maintains_bind; [apply Hquiet, quiet_authenticate|]. intros token.
    apply Hquiet, quiet_makeRequestWithRetry.
    quiet_step; [quiet_step|].
    quiet_step; [apply (quiet_updateRateLimitFromHeaders env)|].
    quiet_go.
  - revert w. change (maintains (pacing_ok (MIN_REQUEST_INTERVAL env))
                        (RedditService.fetchComments env subreddit postId limit)).
    unfold RedditService.fetchComments.
    apply maintains_bind; [exact Hthrottle|]. intros _.
    apply maintains_bind; [apply Hquiet, quiet_authenticate|]. intros token.
    apply Hquiet, quiet_makeRequestWithRetry.
    quiet_step; [quiet_step|].
    quiet_step; [apply (quiet_updateRateLimitFromHeaders env)|].
    quiet_go.
  - apply quiet_pacing_ok. repeat split; simpl; lia.
Qed.

(** C4, as the code has it.  Whatever sequence of fetches, searches,
    comment fetches and pauses the client goes through one after
    another, none starting before the previous one has returned, with
    any replies and latencies, the instants at which its throttle lets
    a caller through (the successive values of [lastRequestTime]) are
    at least [MIN_REQUEST_INTERVAL] apart, provided the interval is
    within the range of a timer (2^31-1 ms).  Calls that overlap at
    their [await]s are not covered: [overlapping_calls_pass_together]
    has two of them pass at the same instant. *)
Theorem throttle_passes_spaced (env : Env) (calls : list Call) (w : World) :
  MIN_REQUEST_INTERVAL env <= 2147483647 ->
  paced_instants (trace w) = [] ->
  spaced (MIN_REQUEST_INTERVAL env)
         (paced_instants (trace (foldl (perform env) w calls))).
Proof.
  intros Hmax Hfresh.
  assert (Hinv : pacing_ok (MIN_REQUEST_INTERVAL env) w).
  { unfold pacing_ok. rewrite Hfresh. split; [exact I|]. intros t Ht. discriminate. }
  clear Hfresh. revert w Hinv.
  induction calls as [|c calls IH]; intros w Hinv; [apply Hinv|].
  simpl. apply IH. now apply perform_pacing_ok.
Qed.

Lemma throttle_passes_spaced_witness :
  spaced 2000 (paced_instants (trace (foldl (perform default_env) cold_start two_searches))).
Proof.
  apply (throttle_passes_spaced default_env two_searches cold_start).
  - vm_compute. discriminate.
  - reflexivity.
Defined.

(** C4, counterexample to the claim as stated.  With the default
    interval of 2000 ms, a client that has just started is asked for
    two searches in a row.  The first pass of the throttle is stamped at
    1000000, but the search request only leaves at 1000100, once the
    token exchange has returned; the second pass is let through
    2000 ms after the first stamp, and its request leaves at once, at
    1002000: the two requests are 1900 ms apart. *)
Lemma requests_closer_than_interval :
  let w := foldl (perform default_env) cold_start two_searches in
  MIN_REQUEST_INTERVAL default_env = 2000 /\
  request_instants (trace w) = [1000100; 1002000] /\
  ~ spaced (MIN_REQUEST_INTERVAL default_env) (request_instants (trace w)).
Proof.
  intros w.
  assert (Hs : request_instants (trace w) = [1000100; 1002000])
    by (vm_compute; reflexivity).
  split; [reflexivity|]. split; [exact Hs|].
  rewrite Hs. change (MIN_REQUEST_INTERVAL default_env) with 2000.
  intros [H _]. lia.
Qed.

(** The same with a configured interval of 6000 ms and a single fetch:
    the listing request is answered with a 429 and repeated after the
    5000 ms backoff, without a new pass through the throttle, 5040 ms
    after the first. *)
Lemma retry_closer_than_interval :
  let w := perform cautious_env throttled_once (CallFetchPosts "rust" 100 Week SortHot) in
  MIN_REQUEST_INTERVAL cautious_env = 6000 /\
  request_instants (trace w) = [1000100; 1005140] /\
  paced_instants (trace w) = [1000000] /\
  ~ spaced (MIN_REQUEST_INTERVAL cautious_env) (request_instants (trace w)).
Proof.
  intros w.
  assert (Hs : request_instants (trace w) = [1000100; 1005140])
    by (vm_compute; reflexivity).
  split; [reflexivity|]. split; [exact Hs|]. split; [vm_compute; reflexivity|].
  rewrite Hs. change (MIN_REQUEST_INTERVAL cautious_env) with 6000.
  intros [H _]. lia.
Qed.

(** ** The throttle, run alone and overlapped *)

Lemma alone_interval (env : Env) (fuel : nat) (w : World) :
  RedditService.go_on (RedditService.run_alone env (S (S fuel)))
                      (RedditService.interval_stage env w)
  = Some (snd ((let* _ := RedditService.waitForRequestInterval env in
                modify_svc (fun s => set_requestCount (requestCount s + 1) s)) w)).
Proof.
  unfold RedditService.interval_stage, RedditService.waitForRequestInterval.
  cbv beta iota zeta delta [bind Date_now get_svc when].
  destruct (_ <? _); reflexivity.
Qed.

Lemma alone_limit (env : Env) (fuel : nat) (timeSinceReset : Z) (w : World) :
  RedditService.go_on (RedditService.run_alone env (S (S (S fuel))))
                      (RedditService.limit_stage env timeSinceReset w)
  = Some (snd ((let* s := get_svc in
                let* _ := when (RATE_LIMIT env <=? requestCount s)
                            (let waitTime := 60000 - timeSinceReset in
                             let* _ := sleep SleepLocalLimit waitTime in
                             let* t' := Date_now in
                             modify_svc (fun s => set_lastResetTime t' (set_requestCount 0 s))) in
                let* _ := RedditService.waitForRequestInterval env in
                modify_svc (fun s => set_requestCount (requestCount s + 1) s)) w)).
Proof.
  unfold RedditService.limit_stage.
  cbv beta iota zeta delta [bind get_svc when].
  destruct (_ <=? _).
  - change (RedditService.go_on _ _) with
      (RedditService.go_on (RedditService.run_alone env (S (S fuel)))
         (RedditService.interval_stage env
            (set_svc (set_lastResetTime (now w + timer_delay (60000 - timeSinceReset))
                        (set_requestCount 0 (svc w)))
               (set_now (now w + timer_delay (60000 - timeSinceReset))
                  (set_trace (trace w ++ [EvSleep SleepLocalLimit (60000 - timeSinceReset)]) w))))).
    rewrite alone_interval. reflexivity.
  - cbv beta iota delta [ret]. apply alone_interval.
Qed.

(** A call of the throttle that no other call overlaps is the
    computation [checkRateLimit]: at most five stretches between its
    [await]s, ending in the same state, clock and log. *)
Lemma run_alone_checkRateLimit (env : Env) (w : World) :
  RedditService.run_alone env 5 RedditService.Entering w
  = Some (snd (RedditService.checkRateLimit env w)).
Proof.
  change (RedditService.run_alone env 5 RedditService.Entering w)
    with (RedditService.go_on (RedditService.run_alone env 4)
            (RedditService.resume env RedditService.Entering w)).
  unfold RedditService.resume, RedditService.checkRateLimit.
  cbv beta iota zeta delta [bind emit Date_now get_svc when].
  destruct (60000 <=? _).
  - cbv beta iota zeta delta [modify_svc].
    destruct (_ && _).
    + cbv beta iota zeta delta [emit sleep ret].
      match goal with
      | |- RedditService.go_on _ (Ok (RedditService.QuotaSleeping ?tsr, Some ?ms), ?w1) = _ =>
          change (RedditService.go_on (RedditService.run_alone env 4)
                    (Ok (RedditService.QuotaSleeping tsr, Some ms), w1))
            with (RedditService.go_on (RedditService.run_alone env 3)
                    (RedditService.limit_stage env tsr
                       (set_svc (set_redditRateLimitRemaining 60 (svc w1))
                          (set_now (now w1 + timer_delay ms) w1))))
      end.
      rewrite alone_limit. reflexivity.
    + cbv beta iota zeta delta [ret]. rewrite alone_limit. reflexivity.
  - cbv beta iota zeta delta [ret].
    destruct (_ && _).
    + cbv beta iota zeta delta [emit sleep ret modify_svc].
      match goal with
      | |- RedditService.go_on _ (Ok (RedditService.QuotaSleeping ?tsr, Some ?ms), ?w1) = _ =>
          change (RedditService.go_on (RedditService.run_alone env 4)
                    (Ok (RedditService.QuotaSleeping tsr, Some ms), w1))
            with (RedditService.go_on (RedditService.run_alone env 3)
                    (RedditService.limit_stage env tsr
                       (set_svc (set_redditRateLimitRemaining 60 (svc w1))
                          (set_now (now w1 + timer_delay ms) w1))))
      end.
      rewrite alone_limit. reflexivity.
    + rewrite alone_limit. reflexivity.
Qed.

(** Calls that overlap are another matter.  Three handlers call the
    throttle of a client that has just started, with the default
    interval of 2000 ms.  The second and the third call both find the
    first call's stamp, wait until 2000 ms after it and stamp their own
    pass at the same instant 1002000: two passes 0 ms apart. *)
Lemma overlapping_calls_pass_together :
  exists w,
    RedditService.event_loop default_env overlap_schedule three_callers (boot 1000000 [] [])
    = Some (replicate 3 (RedditService.mkCaller RedditService.Returned None), w) /\
    paced_instants (trace w) = [1000000; 1002000; 1002000] /\
    ~ spaced (MIN_REQUEST_INTERVAL default_env) (paced_instants (trace w)).
Proof.
  eexists. split; [vm_compute; reflexivity|]. split; [reflexivity|].
  cbn. intros (_ & H & _). lia.
Qed.

(** With a local limit of 2 requests per minute the same three calls
    leave the counter of the window at 3: the second and the third call
    both test the counter while it is 1, and both count themselves
    afterwards. *)
Lemma overlapping_calls_exceed_limit :
  exists w,
    RedditService.event_loop strict_env overlap_schedule three_callers (boot 1000000 [] [])
    = Some (replicate 3 (RedditService.mkCaller RedditService.Returned None), w) /\
    limiter_ok strict_env (boot 1000000 [] []) /\
    requestCount (svc w) = 3 /\
    ~ limiter_ok strict_env w.
Proof.
  eexists. split; [vm_compute; reflexivity|]. split.
  - unfold limiter_ok. cbn. lia.
  - split; [reflexivity|]. unfold limiter_ok. cbn. lia.
Qed.

(* ================================================================== *)
(** * The response cache *)
(* ================================================================== *)

Lemma cache_untouched_refl (w : World) : cache_untouched w w.
Proof.
  repeat split. exists []. split; [now rewrite app_nil_r|constructor].
Qed.

Lemma cache_untouched_trans (a b c : World) :
  cache_untouched a b -> cache_untouched b c -> cache_untouched a c.
Proof.
  intros (Hr1 & Hu1 & evs1 & Ht1 & Hf1) (Hr2 & Hu2 & evs2 & Ht2 & Hf2).
  repeat split; try congruence.
  exists (evs1 ++ evs2). split.
  - rewrite Ht2, Ht1. now rewrite app_assoc.
  - apply Forall_app. auto.
Qed.

Lemma cache_untouched_emit (e : Event) :
  is_cache_event e = false -> preserves cache_untouched (emit e).
Proof.
  intros He w. repeat split. exists [e]. split; [reflexivity|]. now repeat constructor.
Qed.

Lemma cache_untouched_pure {A} (m : M A) :
  (forall w, snd (m w) = w) -> preserves cache_untouched m.
Proof. intros H w. rewrite H. apply cache_untouched_refl. Qed.

Lemma cache_untouched_modify_svc (f : Service -> Service) :
  preserves cache_untouched (modify_svc f).
Proof.
  intros w. repeat split. exists []. split; [simpl; now rewrite app_nil_r|constructor].
Qed.

Lemma cache_untouched_sleep (why : SleepReason) (ms : Z) :
  preserves cache_untouched (sleep why ms).
Proof.
  intros w. repeat split. eexists. split; [reflexivity|]. now repeat constructor.
Qed.

Lemma cache_untouched_http (req : Request) : preserves cache_untouched (http req).
Proof.
  intros w. unfold http. destruct (net w) as [|r rest]; [|destruct (reply r)];
    repeat split; eexists; (split; [reflexivity|]); now repeat constructor.
Qed.

Ltac cache_free :=
  repeat first
    [ apply (preserves_bind cache_untouched cache_untouched_trans); [|intros ?]
    | apply (preserves_try_catch cache_untouched cache_untouched_trans); [|intros ?]
    | apply (preserves_when cache_untouched cache_untouched_refl)
    | apply (preserves_ret cache_untouched cache_untouched_refl)
    | apply (preserves_throw cache_untouched cache_untouched_refl)
    | apply (preserves_retry_from cache_untouched cache_untouched_refl cache_untouched_trans);
      [|intros ?]
    | apply cache_untouched_emit; reflexivity
    | apply cache_untouched_pure; reflexivity
    | apply cache_untouched_sleep
    | apply cache_untouched_http
    | apply cache_untouched_modify_svc
    | match goal with
      | |- preserves cache_untouched (if ?b then _ else _) => destruct b
      | |- preserves cache_untouched (match ?x with _ => _ end) => destruct x
      end ].

Lemma searchPosts_cache_untouched (env : Env) (query : string) (subreddit : option string)
    (limit : Z) (sort : SearchSort) (timeFilter : TimeFilter) :
  preserves cache_untouched
    (RedditService.searchPosts env query subreddit limit sort timeFilter).
Proof.
  unfold RedditService.searchPosts, RedditService.checkRateLimit,
    RedditService.waitForRequestInterval, RedditService.authenticate,
    RedditService.updateRateLimitFromHeaders, makeRequestWithRetry.
  cache_free.
Qed.

Lemma retry_from_ok_inv (R : World -> World -> Prop) {T} (requestFn : M T) :
  (forall w, R w w) -> (forall a b c, R a b -> R b c -> R a c) ->
  preserves R requestFn -> (forall ms, preserves R (sleep SleepBackoff ms)) ->
  forall (remaining : nat) (attempt : Z) (w w' : World) (v : T),
    retry_from requestFn attempt remaining w = (Ok v, w') ->
    exists w1, R w w1 /\ requestFn w1 = (Ok v, w').
Proof.
  intros Hrefl Htrans Hf Hsleep.
  induction remaining as [|remaining IH]; intros attempt w w' v; cbn [retry_from];
    unfold try_catch; destruct (requestFn w) as [[v0|e] w1] eqn:Hrun.
  - intros [= <- <-]. exists w. auto.
  - destruct (is_429 e); discriminate.
  - intros [= <- <-]. exists w. auto.
  - destruct (is_429 e); [|discriminate].
    unfold bind. cbn [sleep]. intros H. apply IH in H as (w2 & HR & H).
    exists w2. split; [|exact H].
    eapply Htrans; [|exact HR]. eapply Htrans; [|apply (Hsleep _ w1)].
    specialize (Hf w). now rewrite Hrun in Hf.
Qed.

Lemma checkRateLimit_redis_up (env : Env) (w : World) :
  redis_up (snd (RedditService.checkRateLimit env w)) = redis_up w.
Proof.
  destruct (checkRateLimit_run env w) as (w' & -> & _ & _ & _ & _ & Hup & _). exact Hup.
Qed.

Lemma chars_app (a b : string) :
  String.list_ascii_of_string (a +:+ b)
    = String.list_ascii_of_string a ++ String.list_ascii_of_string b.
Proof. induction a as [|c a IH]; [reflexivity|]. simpl. f_equal. exact IH. Qed.

Lemma chars_inj (a b : string) :
  String.list_ascii_of_string a = String.list_ascii_of_string b -> a = b.
Proof.
  intros H. rewrite <- (String.string_of_list_ascii_of_string a),
    <- (String.string_of_list_ascii_of_string b). now rewrite H.
Qed.

Lemma split_at_first (sep : ascii) (p q a b : list ascii) :
  sep ∉ p -> sep ∉ q -> p ++ sep :: a = q ++ sep :: b -> p = q /\ a = b.
Proof.
  revert q. induction p as [|x p IH]; intros [|y q] Hp Hq H; cbn in H.
  - injection H as ->. auto.
  - injection H as -> _. exfalso. apply Hq. now left.
  - injection H as -> _. exfalso. apply Hp. now left.
  - injection H as -> H. apply IH in H as [-> ->]; [auto| |].
    + intros Hin. apply Hp. now right.
    + intros Hin. apply Hq. now right.
Qed.

Lemma split_at_last (sep : ascii) (a b x y : list ascii) :
  sep ∉ x -> sep ∉ y -> a ++ sep :: x = b ++ sep :: y -> a = b /\ x = y.
Proof.
  intros Hx Hy H. apply (f_equal reverse) in H.
  rewrite !reverse_app, !reverse_cons, <- !app_assoc in H. cbn [app] in H.
  apply split_at_first in H as [Hxy Hab].
  - split.
    + rewrite <- (reverse_involutive a), <- (reverse_involutive b). now rewrite Hab.
    + rewrite <- (reverse_involutive x), <- (reverse_involutive y). now rewrite Hxy.
  - now rewrite elem_of_reverse.
  - now rewrite elem_of_reverse.
Qed.

Lemma digits_no_colon (d : Decimal.uint) :
  ":"%char ∉ String.list_ascii_of_string (NilEmpty.string_of_uint d).
Proof.
  induction d; cbn; [apply not_elem_of_nil|..];
    (apply not_elem_of_cons; split; [discriminate|assumption]).
Qed.

Lemma show_number_no_colon (n : Z) :
  ":"%char ∉ String.list_ascii_of_string (show_number n).
Proof.
  unfold show_number.
  assert (Hu : forall d, ":"%char ∉ String.list_ascii_of_string (NilZero.string_of_uint d)).
  { intros d. pose proof (digits_no_colon d) as H.
    destruct d; try exact H. cbn. apply not_elem_of_cons. split; [discriminate|].
    apply not_elem_of_nil. }
  destruct (Z.to_int n) as [d|d]; cbn [NilZero.string_of_int]; [apply Hu|].
  cbn. apply not_elem_of_cons. split; [discriminate|apply Hu].
Qed.

Lemma show_number_inj (a b : Z) : show_number a = show_number b -> a = b.
Proof.
  unfold show_number. intros H.
  assert (Hnorm : forall z, Decimal.norm (Z.to_int z) = Z.to_int z).
  { intros z. rewrite <- DecimalZ.to_of. now rewrite DecimalZ.of_to. }
  assert (Hproper : forall z, Z.to_int z <> Decimal.Pos Decimal.Nil /\
                              Z.to_int z <> Decimal.Neg Decimal.Nil).
  { intros z. split; intros Hz; specialize (Hnorm z); rewrite Hz in Hnorm;
      discriminate Hnorm. }
  destruct (Hproper a) as [Ha1 Ha2]. destruct (Hproper b) as [Hb1 Hb2].
  pose proof (NilZero.isi _ Ha1 Ha2) as Ia. pose proof (NilZero.isi _ Hb1 Hb2) as Ib.
  rewrite H, Ib in Ia. injection Ia as Hab.
  rewrite <- (DecimalZ.of_to a), <- (DecimalZ.of_to b). now rewrite Hab.
Qed.

(** The cache key tells the four parameters of [fetchPosts] apart. *)
Lemma posts_cacheKey_inj (subreddit subreddit' : string) (limit limit' : Z)
    (timeFilter timeFilter' : TimeFilter) (sort sort' : ListingSort) :
  RedditService.posts_cacheKey subreddit limit timeFilter sort
    = RedditService.posts_cacheKey subreddit' limit' timeFilter' sort' ->
  subreddit = subreddit' /\ limit = limit' /\ timeFilter = timeFilter' /\ sort = sort'.
Proof.
  unfold RedditService.posts_cacheKey. intros H.
  apply (f_equal String.list_ascii_of_string) in H. rewrite !chars_app in H.
  apply app_inv_head in H.
  change (String.list_ascii_of_string ":") with [":"%char] in H.
  set (c := ":"%char) in *.
  assert (Hrot : forall s o t n : list ascii,
             s ++ [c] ++ o ++ [c] ++ t ++ [c] ++ n
             = ((s ++ c :: o) ++ c :: t) ++ c :: n).
  { intros. now rewrite <- !app_assoc. }
  rewrite !Hrot in H.
  assert (Htf : forall t, c ∉ String.list_ascii_of_string (show_timeFilter t))
    by (intros []; apply (bool_decide_unpack _); vm_compute; exact I).
  assert (Hsort : forall o, c ∉ String.list_ascii_of_string (show_sort o))
    by (intros []; apply (bool_decide_unpack _); vm_compute; exact I).
  apply split_at_last in H as [H Hn]; [|apply show_number_no_colon..].
  apply split_at_last in H as [H Ht]; [|apply Htf..].
  apply split_at_last in H as [Hs Ho]; [|apply Hsort..].
  apply chars_inj in Hs, Hn, Ht, Ho. apply show_number_inj in Hn.
  split; [exact Hs|]. split; [exact Hn|]. split.
  - destruct timeFilter, timeFilter'; try reflexivity; discriminate Ht.
  - destruct sort, sort'; try reflexivity; discriminate Ho.
Qed.

Lemma cache_only_at_refl (key : string) (w : World) : cache_only_at key w w.
Proof. intros k _. reflexivity. Qed.

Lemma cache_only_at_trans (key : string) (a b c : World) :
  cache_only_at key a b -> cache_only_at key b c -> cache_only_at key a c.
Proof. intros Hab Hbc k Hk. now rewrite (Hbc k Hk), (Hab k Hk). Qed.

Lemma cache_only_at_same {A} (key : string) (m : M A) :
  (forall w, redis (snd (m w)) = redis w) -> preserves (cache_only_at key) m.
Proof. intros H w k _. now rewrite H. Qed.

Lemma cache_only_at_untouched {A} (key : string) (m : M A) :
  preserves cache_untouched m -> preserves (cache_only_at key) m.
Proof. intros H w k _. destruct (H w) as (-> & _). reflexivity. Qed.

Lemma cache_only_at_setCache (key : string) (value : list RedditPost) (ttl : Z) :
  preserves (cache_only_at key) (setCache key value ttl).
Proof.
  intros w k Hk. unfold setCache. destruct (redis_up w); [|reflexivity].
  cbn. now rewrite lookup_insert_ne.
Qed.

Lemma fetchPosts_cache_only_at (env : Env) (subreddit : string) (limit : Z)
    (timeFilter : TimeFilter) (sort : ListingSort) :
  preserves (cache_only_at (RedditService.posts_cacheKey subreddit limit timeFilter sort))
    (RedditService.fetchPosts env subreddit limit timeFilter sort).
Proof.
  set (key := RedditService.posts_cacheKey subreddit limit timeFilter sort).
  assert (Hbind := @preserves_bind (cache_only_at key) (cache_only_at_trans key)).
  unfold RedditService.fetchPosts. fold key.
  apply Hbind.
  { apply cache_only_at_same. intros w. unfold getCached.
    destruct (redis_up w); [|reflexivity].
    destruct (redis w !! key) as [entry|]; [|reflexivity].
    now destruct (now w <? ce_expires entry). }
  intros [posts|]; [apply (preserves_ret _ (cache_only_at_refl key))|].
  apply Hbind.
  { apply cache_only_at_same. intros w.
    destruct (checkRateLimit_run env w) as (w' & -> & _ & _ & _ & Hredis & _). exact Hredis. }
  intros _. apply Hbind.
  { apply cache_only_at_untouched. unfold RedditService.authenticate. cache_free. }
  intros token. unfold makeRequestWithRetry.
  apply (preserves_retry_from _ (cache_only_at_refl key) (cache_only_at_trans key)).
  - apply Hbind; [apply cache_only_at_untouched, cache_untouched_http|]. intros response.
    apply Hbind.
    { apply cache_only_at_untouched. unfold RedditService.updateRateLimitFromHeaders.
      apply cache_untouched_modify_svc. }
    intros _. destruct (snd response); try apply (preserves_throw _ (cache_only_at_refl key)).
    apply Hbind; [apply cache_only_at_setCache|]. intros _.
    apply (preserves_ret _ (cache_only_at_refl key)).
  - intros ms. apply cache_only_at_untouched, cache_untouched_sleep.
Qed.

(** C6.  When the key built from subreddit, sort, time filter and limit
    is in the cache and fresh, [fetchPosts] returns the cached posts
    and the world is as before but for the logged cache read: no
    throttle call, no authentication, no request, no change to the
    rate-limit fields or the clock.  On a miss, a fetch that succeeds
    ends with [setCache(key, posts, 600)], after which (Redis being up)
    the key holds the returned posts for 600 s from that instant.
    [searchPosts] makes no cache call and leaves the cache as it is.
    The key tells the four parameters apart: two calls have the same
    key only if they agree on subreddit, limit, time filter and sort,
    and a [fetchPosts] leaves the entry of every other combination of
    parameters as it is, so that a call is never answered from the
    entry of a call with other parameters. *)
Theorem fetchPosts_cache_discipline (env : Env) :
  (forall subreddit limit timeFilter sort (w : World) (entry : CacheEntry),
      redis_up w = true ->
      redis w !! RedditService.posts_cacheKey subreddit limit timeFilter sort = Some entry ->
      now w < ce_expires entry ->
      RedditService.fetchPosts env subreddit limit timeFilter sort w
        = (Ok (ce_value entry),
           set_trace
             (trace w ++ [EvCacheGet (RedditService.posts_cacheKey
                                        subreddit limit timeFilter sort)]) w)) /\
  (forall subreddit limit timeFilter sort (w w' : World) (posts : list RedditPost),
      let key := RedditService.posts_cacheKey subreddit limit timeFilter sort in
      fst (getCached key w) = Ok None ->
      RedditService.fetchPosts env subreddit limit timeFilter sort w = (Ok posts, w') ->
      last (trace w') = Some (EvCacheSet key 600) /\
      (redis_up w = true ->
       redis w' !! key = Some (mkCacheEntry posts (now w' + 600 * 1000)) /\
       forall t, fst (getCached key (set_now t w'))
                 = Ok (if t <? now w' + 600 * 1000 then Some posts else None))) /\
  (forall query subreddit limit sort timeFilter (w : World),
      cache_untouched w
        (snd (RedditService.searchPosts env query subreddit limit sort timeFilter w))) /\
  (forall subreddit limit timeFilter sort subreddit' limit' timeFilter' sort',
      RedditService.posts_cacheKey subreddit limit timeFilter sort
        = RedditService.posts_cacheKey subreddit' limit' timeFilter' sort' ->
      subreddit = subreddit' /\ limit = limit' /\ timeFilter = timeFilter' /\ sort = sort') /\
  (forall subreddit limit timeFilter sort subreddit' limit' timeFilter' sort' (w : World),
      (subreddit, limit, timeFilter, sort) <> (subreddit', limit', timeFilter', sort') ->
      redis (snd (RedditService.fetchPosts env subreddit limit timeFilter sort w))
        !! RedditService.posts_cacheKey subreddit' limit' timeFilter' sort'
      = redis w !! RedditService.posts_cacheKey subreddit' limit' timeFilter' sort').
Proof.
  split; [|split; [|split; [|split]]].
  - intros subreddit limit timeFilter sort w entry Hup Hget Hfresh.
    unfold RedditService.fetchPosts, bind, getCached.
    rewrite Hup, Hget. apply Z.ltb_lt in Hfresh. rewrite Hfresh. reflexivity.
  - intros subreddit limit timeFilter sort w w' posts key Hmiss Hrun.
    unfold RedditService.fetchPosts in Hrun. fold key in Hrun.
    apply bind_ok_inv in Hrun as (cached & w1 & Hget & Hrun).
    rewrite Hget in Hmiss. cbn [fst] in Hmiss. injection Hmiss as ->.
    apply bind_ok_inv in Hrun as ([] & w2 & Hthrottle & Hrun).
    apply bind_ok_inv in Hrun as (token & w3 & Hauth & Hrun).
    unfold makeRequestWithRetry in Hrun.
    apply (retry_from_ok_inv quiet) in Hrun as (w4 & Hq4 & Hrun);
      [|apply quiet_refl|apply quiet_trans| |intros ms; apply quiet_sleep]; cycle 1.
    { quiet_step; [quiet_step|]. quiet_step; [apply (quiet_updateRateLimitFromHeaders env)|].
      quiet_go. }
    assert (Hup4 : redis_up w4 = redis_up w).
    { destruct Hq4 as (_ & _ & _ & ->).
      pose proof (quiet_authenticate env w2) as (_ & _ & _ & Hup3).
      rewrite Hauth in Hup3. cbn [snd] in Hup3. rewrite Hup3.
      pose proof (checkRateLimit_redis_up env w1) as Hup2.
      rewrite Hthrottle in Hup2. cbn [snd] in Hup2. rewrite Hup2.
      pose proof (quiet_getCached key w) as (_ & _ & _ & Hup1).
      rewrite Hget in Hup1. exact Hup1. }
    apply bind_ok_inv in Hrun as (response & w5 & Hhttp & Hrun).
    apply bind_ok_inv in Hrun as ([] & w6 & Hhdr & Hrun).
    assert (Hup6 : redis_up w6 = redis_up w).
    { pose proof (quiet_updateRateLimitFromHeaders env (fst response) w5) as (_ & _ & _ & Hu6).
      rewrite Hhdr in Hu6. cbn [snd] in Hu6. rewrite Hu6.
      pose proof (quiet_http (ReqGet ("https://oauth.reddit.com/r/" +:+ subreddit +:+ "/"
                                        +:+ show_sort sort)) w4) as (_ & _ & _ & Hu5).
      rewrite Hhttp in Hu5. cbn [snd] in Hu5. now rewrite Hu5. }
    destruct (snd response) as [| children |]; try discriminate.
    apply bind_ok_inv in Hrun as ([] & w7 & Hset & Hret).
    injection Hret as <- <-.
    unfold setCache in Hset. rewrite Hup6 in Hset.
    destruct (redis_up w) eqn:Hup; injection Hset as <-; cbn [trace set_trace set_redis].
    + split; [apply last_snoc|]. intros _. cbn [redis set_redis now set_trace].
      split; [apply lookup_insert_eq|].
      intros t. unfold getCached. cbn [redis_up redis set_now set_redis set_trace now fst].
      rewrite Hup6. cbn. rewrite lookup_insert_eq. cbn [ce_expires ce_value].
      now destruct (t <? now w6 + 600 * 1000).
    + split; [apply last_snoc|]. intros [=].
  - intros. apply searchPosts_cache_untouched.
  - intros. now apply posts_cacheKey_inj.
  - intros subreddit limit timeFilter sort subreddit' limit' timeFilter' sort' w Hne.
    apply fetchPosts_cache_only_at. intros Hk. apply Hne.
    apply posts_cacheKey_inj in Hk as (-> & -> & -> & ->). reflexivity.
Qed.

Lemma fetchPosts_cache_discipline_witness :
  let key := RedditService.posts_cacheKey "rust" 100 Week SortHot in
  key = "reddit:posts:rust:hot:week:100" /\
  RedditService.fetchPosts default_env "rust" 100 Week SortHot (set_now 1500000 warm_cache)
    = (Ok [normalizePostData raw_sample],
       set_trace (trace warm_cache ++ [EvCacheGet key]) (set_now 1500000 warm_cache)) /\
  redis warm_cache !! RedditService.posts_cacheKey "golang" 100 Week SortHot = None.
Proof.
  intros key. split; [reflexivity|]. split.
  - apply (proj1 (fetchPosts_cache_discipline default_env) "rust" 100 Week SortHot
             (set_now 1500000 warm_cache)
             (mkCacheEntry [normalizePostData raw_sample] 1600150)).
    + reflexivity.
    + vm_compute. reflexivity.
    + vm_compute. reflexivity.
  - unfold warm_cache.
    destruct (fetchPosts_cache_discipline default_env) as (_ & _ & _ & _ & Hframe).
    rewrite (Hframe "rust" 100 Week SortHot "golang" 100 Week SortHot);
      [reflexivity|discriminate].
Defined.

(* ================================================================== *)
(** * Ingestion runs *)
(* ================================================================== *)

Lemma storeEach_outcomes (posts : list RedditPost) (subredditId : Z) :
  forall (postsCount : Z) (errors : list string) (w : World),
    ETLService.storeEach posts subredditId postsCount errors w
      = (Ok (postsCount + stored_count (fst (store_outcomes posts subredditId w)),
             errors ++ failure_messages (fst (store_outcomes posts subredditId w))),
         snd (store_outcomes posts subredditId w)).
Proof.
  induction posts as [|post rest IH]; intros postsCount errors w.
  - simpl. unfold ret. now rewrite Z.add_0_r, app_nil_r.
  - cbn [ETLService.storeEach store_outcomes]. unfold bind at 1, try_catch, bind at 1.
    destruct (ETLService.storePost post subredditId w) as [[[]|e] w1].
    + unfold ret at 1. cbn [fst snd]. rewrite IH.
      destruct (store_outcomes rest subredditId w1) as [outcomes w'].
      cbn [fst snd stored_count failure_messages].
      now rewrite Z.add_assoc.
    + unfold ret at 1. cbn [fst snd]. rewrite IH.
      destruct (store_outcomes rest subredditId w1) as [outcomes w'].
      cbn [fst snd stored_count failure_messages]. now rewrite <- app_assoc.
Qed.

Lemma store_outcomes_posts (posts : list RedditPost) (subredditId : Z) (w : World) :
  map fst (fst (store_outcomes posts subredditId w)) = posts.
Proof.
  revert w. induction posts as [|post rest IH]; intros w; [reflexivity|].
  cbn [store_outcomes]. destruct (ETLService.storePost post subredditId w) as [r w1].
  specialize (IH w1). destruct (store_outcomes rest subredditId w1) as [outcomes w'].
  simpl in *. now rewrite IH.
Qed.

Lemma outcomes_accounted (outcomes : list (RedditPost * option Exn)) :
  stored_count outcomes + Z.of_nat (length (failure_messages outcomes))
    = Z.of_nat (length outcomes) /\
  forall post e, (post, Some e) ∈ outcomes ->
    ("Failed to store post " +:+ rp_id post +:+ ": " +:+ exn_message e)
      ∈ failure_messages outcomes.
Proof.
  induction outcomes as [|[post [e|]] rest [IHn IHm]].
  - split; [reflexivity|]. intros post e H. inversion H.
  - split; [cbn [stored_count failure_messages length]; lia|].
    intros p e0 H. apply elem_of_cons in H as [[= -> ->]|H]; simpl.
    + apply elem_of_cons. now left.
    + apply elem_of_cons. right. now apply IHm.
  - split; [cbn [stored_count failure_messages length]; lia|].
    intros p e0 H. apply elem_of_cons in H as [[=]|H]. simpl. now apply IHm.
Qed.

(** C2, as the code has it.  [syncSubreddit] never throws.  It reports
    [success = false], with the error's message as only entry, exactly
    when the fetch throws or, the fetch having returned items, the
    subreddit upsert throws.  A fetch of zero items gives
    [{ success: true, postsCount: 0, errors: [] }].  Otherwise every
    fetched item is stored in turn whatever happened to the previous
    ones, the run reports [success = true], [postsCount] counts the
    items stored, and [errors] lists, in order, one message per failed
    item, naming its external identifier. *)
Theorem syncSubreddit_result (env : Env) (subredditName : string) (limit : Z)
    (timeFilter : TimeFilter) (sort : ListingSort) (w : World) :
  exists (result : SyncResult) (w' : World),
    ETLService.syncSubreddit env subredditName limit timeFilter sort w = (Ok result, w') /\
    match RedditService.fetchPosts env subredditName limit timeFilter sort w with
    | (Throw e, _) => result = mkSyncResult false 0 [exn_message e]
    | (Ok [], _) => result = mkSyncResult true 0 []
    | (Ok (post :: rest), w1) =>
        match SubredditModel.findOrCreate subredditName None None w1 with
        | (Throw e, _) => result = mkSyncResult false 0 [exn_message e]
        | (Ok subredditId, w2) =>
            let outcomes := fst (store_outcomes (post :: rest) subredditId w2) in
            result = mkSyncResult true (stored_count outcomes) (failure_messages outcomes) /\
            map fst outcomes = post :: rest /\
            stored_count outcomes + Z.of_nat (length (failure_messages outcomes))
              = Z.of_nat (length (post :: rest)) /\
            forall p e, (p, Some e) ∈ outcomes ->
              ("Failed to store post " +:+ rp_id p +:+ ": " +:+ exn_message e)
                ∈ errors result
        end
    end.
Proof.
  unfold ETLService.syncSubreddit, try_catch, bind at 1.
  destruct (RedditService.fetchPosts env subredditName limit timeFilter sort w)
    as [[[|post rest]|e] w1].
  - do 2 eexists. split; reflexivity.
  - unfold bind at 1.
    destruct (SubredditModel.findOrCreate subredditName None None w1) as [[subredditId|e] w2].
    + unfold bind. rewrite storeEach_outcomes. unfold ret. cbn [fst snd].
      do 2 eexists. split; [reflexivity|]. cbv zeta.
      set (outcomes := fst (store_outcomes (post :: rest) subredditId w2)).
      rewrite Z.add_0_l, app_nil_l.
      split; [reflexivity|]. split; [apply store_outcomes_posts|].
      destruct (outcomes_accounted outcomes) as [Hn Hm].
      split; [|exact Hm]. rewrite Hn. f_equal.
      rewrite <- (length_map fst outcomes). unfold outcomes.
      now rewrite store_outcomes_posts.
    + unfold ret. do 2 eexists. split; reflexivity.
  - unfold ret. do 2 eexists. split; reflexivity.
Qed.

(** C2, counterexample to the claim as stated.  The fetch succeeds and
    returns three items, but the database connection is lost when the
    subreddit is looked up: the run is reported with [success = false],
    although the fetch itself did not fail. *)
Lemma syncSubreddit_fails_after_successful_fetch :
  let w := boot 1000000 [token_reply; three_items] [connection_lost] in
  map rp_id
      (match fst (RedditService.fetchPosts default_env "rust" 100 Week SortHot w) with
       | Ok posts => posts
       | Throw _ => []
       end) = ["p1"; "p2"; "p3"] /\
  fst (ETLService.syncSubreddit default_env "rust" 100 Week SortHot w)
    = Ok (mkSyncResult false 0 ["Connection terminated unexpectedly"]).
Proof. vm_compute. split; reflexivity. Qed.

(** A run in which the store of the second of three items fails. *)
Lemma syncSubreddit_isolates_item_failure :
  let w := boot 1000000 [token_reply; three_items]
                [served; served; served; served; served; connection_lost] in
  fst (ETLService.syncSubreddit default_env "rust" 100 Week SortHot w)
    = Ok (mkSyncResult true 2
            ["Failed to store post p2: Connection terminated unexpectedly"]) /\
  map pr_reddit_id
      (posts (db (snd (ETLService.syncSubreddit default_env "rust" 100 Week SortHot w))))
    = ["p1"; "p3"].
Proof. vm_compute. split; reflexivity. Qed.

(* ================================================================== *)
(** * Steps of the client outside the throttle *)
(* ================================================================== *)

Lemma steady_refl (w : World) : steady w w.
Proof. repeat split. lia. Qed.

Lemma steady_trans (a b c : World) : steady a b -> steady b c -> steady a c.
Proof.
  unfold steady. intros (? & ? & ? & ?) (? & ? & ? & ?).
  repeat split; try congruence. lia.
Qed.

Lemma steady_fixed {A} (m : M A) :
  (forall w, db (snd (m w)) = db w /\ svc (snd (m w)) = svc w /\ now w <= now (snd (m w))) ->
  preserves steady m.
Proof.
  intros H w. destruct (H w) as (Hd & Hs & Ht). unfold steady. now rewrite Hd, Hs.
Qed.

Lemma steady_modify_svc (f : Service -> Service) :
  (forall s, requestCount (f s) = requestCount s /\ lastResetTime (f s) = lastResetTime s) ->
  preserves steady (modify_svc f).
Proof. intros Hf w. destruct (Hf (svc w)). repeat split; try assumption. cbn. lia. Qed.

Lemma steady_http (req : Request) : preserves steady (http req).
Proof.
  intros w. unfold http.
  destruct (net w) as [|r rest]; [|destruct (reply r)]; repeat split; cbn; lia.
Qed.

Lemma steady_getCached (key : string) : preserves steady (getCached key).
Proof.
  intros w. unfold getCached. destruct (redis_up w); [|repeat split; cbn; lia].
  destruct (redis w !! key) as [entry|]; [|repeat split; cbn; lia].
  destruct (now w <? ce_expires entry); repeat split; cbn; lia.
Qed.

Lemma steady_setCache (key : string) (value : list RedditPost) (ttl : Z) :
  preserves steady (setCache key value ttl).
Proof. intros w. unfold setCache. destruct (redis_up w); repeat split; cbn; lia. Qed.

Lemma steady_sleep (why : SleepReason) (ms : Z) : preserves steady (sleep why ms).
Proof.
  intros w. repeat split. cbn. pose proof (timer_delay_pos ms). lia.
Qed.

Ltac steady_go :=
  repeat first
    [ apply (preserves_bind steady steady_trans); [|intros ?]
    | apply (preserves_try_catch steady steady_trans); [|intros ?]
    | apply (preserves_when steady steady_refl)
    | apply (preserves_ret steady steady_refl)
    | apply (preserves_throw steady steady_refl)
    | apply (preserves_retry_from steady steady_refl steady_trans); [|intros ?]
    | apply steady_http
    | apply steady_getCached
    | apply steady_setCache
    | apply steady_sleep
    | apply steady_fixed; intros ?; repeat split; cbn; lia
    | apply steady_modify_svc; intros []; split; reflexivity
    | match goal with
      | |- preserves steady (if ?b then _ else _) => destruct b
      | |- preserves steady (match ?x with _ => _ end) => destruct x
      end ].

Lemma steady_authenticate (env : Env) : preserves steady (RedditService.authenticate env).
Proof. unfold RedditService.authenticate. steady_go. Qed.

Lemma steady_updateRateLimitFromHeaders (headers : Headers) :
  preserves steady (RedditService.updateRateLimitFromHeaders headers).
Proof.
  unfold RedditService.updateRateLimitFromHeaders. apply steady_modify_svc.
  intros s. destruct (x_ratelimit_remaining headers), (x_ratelimit_reset headers);
    destruct s; split; reflexivity.
Qed.

(** An invariant that the throttle keeps and that steps outside the
    throttle cannot break is kept by the three operations of the
    client. *)
Lemma client_maintains (env : Env) (I : World -> Prop) :
  (forall w w', steady w w' -> I w -> I w') ->
  maintains I (RedditService.checkRateLimit env) ->
  (forall subreddit limit timeFilter sort,
      maintains I (RedditService.fetchPosts env subreddit limit timeFilter sort)) /\
  (forall query subreddit limit sort timeFilter,
      maintains I (RedditService.searchPosts env query subreddit limit sort timeFilter)) /\
  (forall subreddit postId limit,
      maintains I (RedditService.fetchComments env subreddit postId limit)).
Proof.
  intros Hsteady Hthrottle.
  assert (Hs : forall A (m : M A), preserves steady m -> maintains I m).
  { intros A m. now apply maintains_preserves. }
  split; [|split].
  - intros. unfold RedditService.fetchPosts.
    apply maintains_bind; [apply Hs, steady_getCached|]. intros [posts|].
    + apply Hs. steady_go.
    + apply maintains_bind; [exact Hthrottle|]. intros _.
      apply maintains_bind; [apply Hs, steady_authenticate|]. intros token.
      apply Hs. unfold makeRequestWithRetry.
      apply (preserves_retry_from steady steady_refl steady_trans); [|steady_go].
      apply (preserves_bind steady steady_trans); [apply steady_http|]. intros response.
      apply (preserves_bind steady steady_trans);
        [apply steady_updateRateLimitFromHeaders|]. intros _.
      steady_go.
  - intros. unfold RedditService.searchPosts.
    apply maintains_bind; [exact Hthrottle|]. intros _.
    apply maintains_bind; [apply Hs, steady_authenticate|]. intros token.
    apply Hs. unfold makeRequestWithRetry.
    apply (preserves_retry_from steady steady_refl steady_trans); [|steady_go].
    apply (preserves_bind steady steady_trans); [apply steady_http|]. intros response.
    apply (preserves_bind steady steady_trans);
      [apply steady_updateRateLimitFromHeaders|]. intros _.
    steady_go.
  - intros. unfold RedditService.fetchComments.
    apply maintains_bind; [exact Hthrottle|]. intros _.
    apply maintains_bind; [apply Hs, steady_authenticate|]. intros token.
    apply Hs. unfold makeRequestWithRetry.
    apply (preserves_retry_from steady steady_refl steady_trans); [|steady_go].
    apply (preserves_bind steady steady_trans); [apply steady_http|]. intros response.
    apply (preserves_bind steady steady_trans);
      [apply steady_updateRateLimitFromHeaders|]. intros _.
    steady_go.
Qed.

Lemma checkRateLimit_keeps_db (env : Env) (w : World) :
  db (snd (RedditService.checkRateLimit env w)) = db w.
Proof.
  destruct (checkRateLimit_run env w) as (w' & -> & _ & _ & _ & _ & _ & _ & Hdb). exact Hdb.
Qed.

Lemma maintains_ret (I : World -> Prop) {A} (a : A) : maintains I (ret a).
Proof. intros w Hw. exact Hw. Qed.

Lemma maintains_try_catch (I : World -> Prop) {A} (m : M A) (h : Exn -> M A) :
  maintains I m -> (forall e, maintains I (h e)) -> maintains I (try_catch m h).
Proof.
  intros Hm Hh w Hw. unfold try_catch. specialize (Hm w Hw).
  destruct (m w) as [[a|e] w1]; [exact Hm|]. now apply Hh.
Qed.

(* ================================================================== *)
(** * Key constraints of the store *)
(* ================================================================== *)

Lemma keys_ok_append {A} (id : A -> Z) (rows : list A) (seq : Z) (r : A) :
  keys_ok id rows seq -> id r = seq + 1 -> keys_ok id (rows ++ [r]) (seq + 1).
Proof.
  intros (Hseq & Hnd & Hrange) Hid. split; [lia|]. split.
  - rewrite map_app. apply NoDup_app. split; [exact Hnd|]. split.
    + intros i Hi Hi'. apply list_elem_of_singleton in Hi'. subst i.
      apply list_elem_of_fmap in Hi as (x & Hx & Hin).
      rewrite Forall_forall in Hrange. specialize (Hrange x Hin). lia.
    + apply NoDup_singleton.
  - apply Forall_app. split.
    + eapply Forall_impl; [exact Hrange|]. intros x Hx. cbn beta in Hx. lia.
    + constructor; [lia|constructor].
Qed.

Lemma keys_ok_map {A} (id : A -> Z) (f : A -> A) (rows : list A) (seq seq' : Z) :
  (forall r, id (f r) = id r) -> seq <= seq' ->
  keys_ok id rows seq -> keys_ok id (map f rows) seq'.
Proof.
  intros Hf Hle (Hseq & Hnd & Hrange). split; [lia|]. split.
  - rewrite <- list_fmap_compose. erewrite list_fmap_ext; [exact Hnd|].
    intros i x _. apply Hf.
  - apply Forall_forall. intros y Hy. apply list_elem_of_fmap in Hy as (x & -> & Hx).
    rewrite Forall_forall in Hrange. specialize (Hrange x Hx). rewrite Hf. lia.
Qed.

Lemma unique_map {A K} (key : A -> K) (f : A -> A) (rows : list A) :
  (forall r, key (f r) = key r) -> NoDup (map key rows) -> NoDup (map key (map f rows)).
Proof.
  intros Hf Hnd. rewrite <- list_fmap_compose. erewrite list_fmap_ext; [exact Hnd|].
  intros i x _. apply Hf.
Qed.

Lemma unique_append {A K} (key : A -> K) (rows : list A) (r : A) :
  NoDup (map key rows) -> key r ∉ map key rows -> NoDup (map key (rows ++ [r])).
Proof.
  intros Hnd Hfresh. rewrite map_app. apply NoDup_app. split; [exact Hnd|]. split.
  - intros k Hk Hk'. apply list_elem_of_singleton in Hk'. now subst k.
  - apply NoDup_singleton.
Qed.

Lemma subreddit_insert_wf (name : string) (description : option string) (n : Z) (d : Db) :
  db_wf d -> db_wf (snd (SubredditModel.insert name description n d)).
Proof.
  intros Hd. unfold SubredditModel.insert.
  destruct (bool_decide _) eqn:Hex; [exact Hd|].
  destruct Hd as (Hs & Hsn & Ha & Han & Hp & Hpr).
  apply bool_decide_eq_false in Hex. cbn.
  split; [now apply keys_ok_append|]. split; [|tauto].
  apply unique_append; [exact Hsn|]. cbn. intros Hin. apply Hex.
  apply list_elem_of_fmap in Hin as (r & Hr & Hin). apply Exists_exists. eauto.
Qed.

Lemma author_insert_wf (username : string) (lk ck : Z) (d : Db) :
  db_wf d -> db_wf (snd (AuthorModel.insert username lk ck d)).
Proof.
  intros Hd. unfold AuthorModel.insert.
  destruct (bool_decide _) eqn:Hex; [exact Hd|].
  destruct Hd as (Hs & Hsn & Ha & Han & Hp & Hpr).
  apply bool_decide_eq_false in Hex. cbn.
  split; [assumption|]. split; [assumption|].
  split; [now apply keys_ok_append|]. split; [|split; assumption].
  apply unique_append; [exact Han|]. cbn. intros Hin. apply Hex.
  apply list_elem_of_fmap in Hin as (r & Hr & Hin). apply Exists_exists. eauto.
Qed.

Lemma author_update_wf (lk ck : Z) (username : string) (d : Db) :
  db_wf d -> db_wf (snd (AuthorModel.update_karma lk ck username d)).
Proof.
  intros (Hs & Hsn & Ha & Han & Hp & Hpr). cbn.
  split; [assumption|]. split; [assumption|].
  split; [|split; [|split; assumption]].
  - apply (keys_ok_map ar_id) with (seq := _) (3 := Ha); [|cbn; lia]. intros r. now destruct (bool_decide _).
  - apply (unique_map ar_username); [|exact Han]. intros r. now destruct (bool_decide _).
Qed.

Lemma query_store_ok {A} (stmt : Db -> Result A * Db) :
  (forall d, db_wf d -> db_wf (snd (stmt d))) -> maintains store_ok (query stmt).
Proof.
  intros Hstmt w Hw. unfold store_ok, query in *.
  destruct (db_script (db w)) as [|e rest].
  - specialize (Hstmt (db w) Hw). now destruct (stmt (db w)).
  - destruct (q_fault e); [exact Hw|].
    match goal with |- context [stmt ?d1] =>
      specialize (Hstmt d1 Hw); now destruct (stmt d1) end.
Qed.

Lemma subreddit_findOrCreate_store_ok (name : string) (description : option string)
    (subscribersCount : option Z) :
  maintains store_ok (SubredditModel.findOrCreate name description subscribersCount).
Proof.
  unfold SubredditModel.findOrCreate. apply maintains_bind.
  - apply query_store_ok. intros d Hd. exact Hd.
  - intros [|id ids]; [|apply maintains_ret].
    apply query_store_ok. intros d. apply subreddit_insert_wf.
Qed.

Lemma author_findOrCreate_store_ok (username : string) (lk ck : Z) :
  maintains store_ok (AuthorModel.findOrCreate username lk ck).
Proof.
  unfold AuthorModel.findOrCreate. apply maintains_bind.
  - apply query_store_ok. intros d Hd. exact Hd.
  - intros [|id ids].
    + apply query_store_ok. intros d. apply author_insert_wf.
    + apply maintains_bind; [|intros _; apply maintains_ret].
      apply query_store_ok. intros d. apply author_update_wf.
Qed.

(* ================================================================== *)
(** * The local limiter *)
(* ================================================================== *)

Lemma offline_refl (w : World) : offline w w.
Proof. repeat split. Qed.

Lemma offline_trans (a b c : World) : offline a b -> offline b c -> offline a c.
Proof.
  unfold offline. intros (? & ? & ? & ? & ? & ?) (? & ? & ? & ? & ? & ?).
  repeat split; congruence.
Qed.

Lemma offline_query {A} (stmt : Db -> Result A * Db) : preserves offline (query stmt).
Proof.
  intros w. unfold query. destruct (db_script (db w)) as [|e rest].
  - destruct (stmt (db w)). repeat split.
  - destruct (q_fault e); [repeat split|].
    match goal with |- context [stmt ?d1] => destruct (stmt d1) end. repeat split.
Qed.

Ltac offline_go :=
  repeat first
    [ apply (preserves_bind offline offline_trans); [|intros ?]
    | apply (preserves_try_catch offline offline_trans); [|intros ?]
    | apply (preserves_ret offline offline_refl)
    | apply (preserves_throw offline offline_refl)
    | apply offline_query
    | match goal with
      | |- preserves offline (match ?x with _ => _ end) => destruct x
      end ].

Lemma offline_subreddit_findOrCreate (name : string) (description : option string)
    (subscribersCount : option Z) :
  preserves offline (SubredditModel.findOrCreate name description subscribersCount).
Proof. unfold SubredditModel.findOrCreate. offline_go. Qed.

Lemma offline_author_findOrCreate (username : string) (lk ck : Z) :
  preserves offline (AuthorModel.findOrCreate username lk ck).
Proof. unfold AuthorModel.findOrCreate. offline_go. Qed.

Lemma offline_storePost (redditPost : RedditPost) (subredditId : Z) :
  preserves offline (ETLService.storePost redditPost subredditId).
Proof.
  unfold ETLService.storePost.
  apply (preserves_bind offline offline_trans); [apply offline_author_findOrCreate|].
  intros authorId. unfold PostModel.create. offline_go.
Qed.

Lemma offline_storeEach (posts : list RedditPost) (subredditId : Z) :
  forall postsCount errors,
    preserves offline (ETLService.storeEach posts subredditId postsCount errors).
Proof.
  induction posts as [|post rest IH]; intros postsCount errors; cbn [ETLService.storeEach].
  - apply (preserves_ret offline offline_refl).
  - apply (preserves_bind offline offline_trans); [|intros locals; apply IH].
    apply (preserves_try_catch offline offline_trans);
      [|intros e; apply (preserves_ret offline offline_refl)].
    apply (preserves_bind offline offline_trans); [apply offline_storePost|].
    intros _. apply (preserves_ret offline offline_refl).
Qed.

Lemma offline_processGroups (groups : list (string * list RedditPost)) :
  forall postsCount errors,
    preserves offline (ETLService.processGroups groups postsCount errors).
Proof.
  induction groups as [|[name posts] rest IH]; intros postsCount errors;
    cbn [ETLService.processGroups].
  - apply (preserves_ret offline offline_refl).
  - apply (preserves_bind offline offline_trans); [|intros locals; apply IH].
    apply (preserves_try_catch offline offline_trans);
      [|intros e; apply (preserves_ret offline offline_refl)].
    apply (preserves_bind offline offline_trans);
      [apply offline_subreddit_findOrCreate|].
    intros subredditId. apply offline_storeEach.
Qed.

Lemma offline_limiter_ok (env : Env) (w w' : World) :
  offline w w' -> limiter_ok env w -> limiter_ok env w'.
Proof. intros (Hs & Ht & _) H. unfold limiter_ok. now rewrite Hs, Ht. Qed.

Lemma steady_limiter_ok (env : Env) (w w' : World) :
  steady w w' -> limiter_ok env w -> limiter_ok env w'.
Proof.
  intros (_ & Hc & Hr & Ht) (Hcount & Hwindow). unfold limiter_ok.
  rewrite Hc, Hr. split; [exact Hcount|lia].
Qed.

Ltac timer_facts :=
  repeat match goal with
         | |- context [timer_delay ?x] =>
             lazymatch goal with
             | _ : 1 <= timer_delay x |- _ => fail
             | _ => pose proof (timer_delay_pos x)
             end
         end.

Ltac split_ifs :=
  repeat match goal with
         | |- context [if ?b then _ else _] => destruct b eqn:?
         end.

Lemma checkRateLimit_limiter_ok (env : Env) :
  1 <= RATE_LIMIT env -> maintains (limiter_ok env) (RedditService.checkRateLimit env).
Proof.
  intros Hlimit w ((Hlo & Hhi) & Hwindow).
  destruct (checkRateLimit_run env w) as (w' & -> & _ & Hnow & Hsvc & _).
  cbn [snd]. unfold limiter_ok. rewrite Hnow, Hsvc. cbn [requestCount lastResetTime].
  split_ifs; timer_facts; lia.
Qed.

Lemma client_limiter_ok (env : Env) :
  1 <= RATE_LIMIT env ->
  (forall subreddit limit timeFilter sort,
      maintains (limiter_ok env)
        (RedditService.fetchPosts env subreddit limit timeFilter sort)) /\
  (forall query subreddit limit sort timeFilter,
      maintains (limiter_ok env)
        (RedditService.searchPosts env query subreddit limit sort timeFilter)) /\
  (forall subreddit postId limit,
      maintains (limiter_ok env) (RedditService.fetchComments env subreddit postId limit)).
Proof.
  intros Hlimit. apply client_maintains; [apply steady_limiter_ok|].
  now apply checkRateLimit_limiter_ok.
Qed.

Lemma perform_limiter_ok (env : Env) (c : Call) (w : World) :
  1 <= RATE_LIMIT env -> limiter_ok env w -> limiter_ok env (perform env w c).
Proof.
  intros Hlimit Hw. destruct (client_limiter_ok env Hlimit) as (Hf & Hs & Hc).
  destruct c as [subreddit limit timeFilter sort|query subreddit limit sort timeFilter
                |subreddit postId limit|ms]; cbn [perform].
  - now apply Hf.
  - now apply Hs.
  - now apply Hc.
  - destruct Hw as (Hcount & Hwindow). split; [exact Hcount|]. cbn. lia.
Qed.

Lemma syncSubreddit_limiter_ok (env : Env) (subredditName : string) (limit : Z)
    (timeFilter : TimeFilter) (sort : ListingSort) :
  1 <= RATE_LIMIT env ->
  maintains (limiter_ok env)
    (ETLService.syncSubreddit env subredditName limit timeFilter sort).
Proof.
  intros Hlimit. destruct (client_limiter_ok env Hlimit) as (Hf & _).
  assert (Ho : forall A (m : M A), preserves offline m -> maintains (limiter_ok env) m).
  { intros A m. apply maintains_preserves, offline_limiter_ok. }
  unfold ETLService.syncSubreddit.
  apply maintains_try_catch; [|intros e; apply maintains_ret].
  apply maintains_bind; [apply Hf|]. intros [|post rest]; [apply maintains_ret|].
  apply Ho.
  apply (preserves_bind offline offline_trans); [apply offline_subreddit_findOrCreate|].
  intros subredditId.
  apply (preserves_bind offline offline_trans); [apply offline_storeEach|].
  intros locals. apply (preserves_ret offline offline_refl).
Qed.

Lemma syncEach_limiter_ok (env : Env) (subreddits : list string) (limit : Z) :
  1 <= RATE_LIMIT env ->
  forall results,
    maintains (limiter_ok env) (ETLService.syncEach env subreddits limit results).
Proof.
  intros Hlimit.
  induction subreddits as [|subreddit rest IH]; intros results; cbn [ETLService.syncEach].
  - apply maintains_ret.
  - apply maintains_bind; [now apply syncSubreddit_limiter_ok|]. intros result.
    apply maintains_bind; [|intros _; apply IH].
    intros w (Hcount & Hwindow). split; [exact Hcount|]. cbn.
    pose proof (timer_delay_pos 1000). lia.
Qed.

(** ** The local counter under overlapping calls *)

Lemma interval_stage_count (env : Env) (w : World) :
  exists c' a w',
    RedditService.interval_stage env w = (Ok (c', a), w') /\
    past_limit_test c' = 1 /\
    requestCount (svc w') = requestCount (svc w).
Proof.
  unfold RedditService.interval_stage, RedditService.stamp_stage.
  unfold bind, Date_now, get_svc, emit, modify_svc, ret.
  destruct (_ <? _); do 3 eexists; (split; [reflexivity|]); split; reflexivity.
Qed.

Lemma limit_stage_count (env : Env) (timeSinceReset : Z) (w : World) :
  exists c' a w',
    RedditService.limit_stage env timeSinceReset w = (Ok (c', a), w') /\
    requestCount (svc w') = requestCount (svc w) /\
    (past_limit_test c' = 0 \/
     (past_limit_test c' = 1 /\ requestCount (svc w) <= RATE_LIMIT env - 1)).
Proof.
  unfold RedditService.limit_stage, bind, get_svc.
  destruct (RATE_LIMIT env <=? requestCount (svc w)) eqn:Hfull.
  - unfold emit, ret. do 3 eexists. split; [reflexivity|]. split; [reflexivity|].
    left. reflexivity.
  - apply Z.leb_gt in Hfull.
    destruct (interval_stage_count env w) as (c' & a & w' & -> & Hp & Hn).
    exists c', a, w'. split; [reflexivity|]. split; [exact Hn|]. right. split; [exact Hp|lia].
Qed.

(** One stretch of a call and the counter: a call that has not passed
    the local-limit test leaves the counter as it is or resets it, and
    passes the test only below the limit; the counter goes up by one
    when a call that has passed returns. *)
Lemma resume_count (env : Env) (c : RedditService.ThrottleCall) (w : World) :
  1 <= RATE_LIMIT env ->
  exists c' a w',
    RedditService.resume env c w = (Ok (c', a), w') /\
    let n := requestCount (svc w) in
    let n' := requestCount (svc w') in
    match past_limit_test c, past_limit_test c' with
    | 0, 0 => n' = n \/ n' = 0
    | 0, _ => (n' = n \/ n' = 0) /\ n' <= RATE_LIMIT env - 1 /\ past_limit_test c' = 1
    | _, 0 => n' = n + 1 /\ past_limit_test c = 1
    | _, _ => n' = n /\ past_limit_test c = 1 /\ past_limit_test c' = 1
    end.
Proof.
  intros Hlimit. destruct c; cbn [RedditService.resume past_limit_test].
  - unfold bind at 1 2 3 4 5. unfold emit at 1, Date_now at 1, get_svc at 1 2.
    cbn [now svc set_trace].
    set (stale := 60000 <=? _).
    assert (Hreset : exists w1, when stale
                       (modify_svc (fun s => set_lastResetTime (now w) (set_requestCount 0 s)))
                       (set_trace (trace w ++ [EvThrottle]) w) = (Ok tt, w1) /\
                     (requestCount (svc w1) = requestCount (svc w) \/
                      requestCount (svc w1) = 0)).
    { destruct stale; cbn [when]; unfold modify_svc, ret; eexists;
        (split; [reflexivity|]); [right|left]; reflexivity. }
    destruct Hreset as (w1 & -> & Hn1).
    destruct (_ && _).
    + unfold bind, emit, ret. do 3 eexists. split; [reflexivity|].
      cbn [past_limit_test set_trace svc]. cbv zeta. exact Hn1.
    + destruct (limit_stage_count env (now w - lastResetTime (svc w)) w1)
        as (c' & a & w' & -> & Hn & [Hp | [Hp Hle]]).
      * do 3 eexists. split; [reflexivity|]. cbv zeta. rewrite Hp, Hn. exact Hn1.
      * do 3 eexists. split; [reflexivity|]. cbv zeta. rewrite Hp, Hn.
        split; [exact Hn1|]. split; [exact Hle|reflexivity].
  - unfold bind at 1, modify_svc at 1.
    match goal with |- context [RedditService.limit_stage env ?t ?w1] =>
      destruct (limit_stage_count env t w1) as (c' & a & w' & -> & Hn & [Hp | [Hp Hle]])
    end; cbn [svc set_svc requestCount set_redditRateLimitRemaining] in *.
    + do 3 eexists. split; [reflexivity|]. cbv zeta. rewrite Hp, Hn. now left.
    + do 3 eexists. split; [reflexivity|]. cbv zeta. rewrite Hp, Hn.
      split; [now left|]. split; [exact Hle|reflexivity].
  - unfold bind at 1 2, Date_now at 1, modify_svc at 1.
    match goal with |- context [RedditService.interval_stage env ?w1] =>
      destruct (interval_stage_count env w1) as (c' & a & w' & -> & Hp & Hn)
    end; cbn [svc set_svc requestCount set_lastResetTime set_requestCount] in *.
    do 3 eexists. split; [reflexivity|]. cbv zeta. rewrite Hp, Hn.
    split; [now right|]. split; [lia|reflexivity].
  - unfold RedditService.stamp_stage, bind, Date_now, modify_svc, emit, ret.
    do 3 eexists. split; [reflexivity|]. cbn. auto.
  - unfold bind, modify_svc, ret. do 3 eexists. split; [reflexivity|]. cbn. auto.
  - unfold ret. do 3 eexists. split; [reflexivity|]. cbn. now left.
Qed.

Lemma past_limit_test_range (c : RedditService.ThrottleCall) : 0 <= past_limit_test c <= 1.
Proof. destruct c; cbn; lia. Qed.

Lemma in_flight_insert (callers : list RedditService.Caller) (i : nat)
    (c c' : RedditService.Caller) :
  callers !! i = Some c ->
  in_flight (<[i := c']> callers)
  = in_flight callers - past_limit_test (RedditService.standing c)
    + past_limit_test (RedditService.standing c') /\
  0 <= in_flight callers - past_limit_test (RedditService.standing c)
    <= Z.of_nat (length callers) - 1.
Proof.
  revert i. induction callers as [|x callers IH]; intros i Hi; [discriminate|].
  assert (Hall : 0 <= in_flight callers <= Z.of_nat (length callers)).
  { clear. induction callers as [|y l IH]; cbn [in_flight foldr length]; [lia|].
    fold (in_flight l). pose proof (past_limit_test_range (RedditService.standing y)). lia. }
  destruct i as [|i].
  - injection Hi as ->.
    change (<[0%nat := c']> (c :: callers)) with (c' :: callers).
    cbn [in_flight foldr length]. fold (in_flight callers). lia.
  - change (<[S i := c']> (x :: callers)) with (x :: <[i := c']> callers).
    change ((x :: callers) !! S i) with (callers !! i) in Hi.
    cbn [in_flight foldr length].
    fold (in_flight callers). fold (in_flight (<[i := c']> callers)).
    destruct (IH i Hi) as [-> Hrange].
    pose proof (past_limit_test_range (RedditService.standing x)). lia.
Qed.

(** Whatever the schedule, the counter stays within the limit plus the
    number of calls that passed the test while others were still to
    count themselves. *)
Lemma event_loop_counter (env : Env) (turns : list RedditService.Turn) :
  1 <= RATE_LIMIT env ->
  forall callers w callers' w',
    RedditService.event_loop env turns callers w = Some (callers', w') ->
    0 <= requestCount (svc w) ->
    requestCount (svc w) + in_flight callers
      <= RATE_LIMIT env + Z.of_nat (length callers) - 1 ->
    0 <= requestCount (svc w') /\
    requestCount (svc w') + in_flight callers'
      <= RATE_LIMIT env + Z.of_nat (length callers) - 1.
Proof.
  intros Hlimit. induction turns as [|turn turns IH]; intros callers w callers' w' Hrun Hpos Hsum.
  - injection Hrun as <- <-. auto.
  - destruct turn as [i|ms]; cbn [RedditService.event_loop] in Hrun.
    + destruct (callers !! i) as [c|] eqn:Hc; [|discriminate].
      destruct (RedditService.may_run c callers w); [|discriminate].
      unfold RedditService.run_caller in Hrun.
      destruct (resume_count env (RedditService.standing c) w Hlimit)
        as (c' & a & w1 & Hres & Hcount).
      rewrite Hres in Hrun. cbv zeta in Hcount.
      pose proof (past_limit_test_range (RedditService.standing c)) as Hp.
      pose proof (past_limit_test_range c') as Hp'.
      assert (Hstep : 0 <= requestCount (svc w1) /\
                      forall callers1 : list RedditService.Caller,
                        in_flight callers1
                        = in_flight callers - past_limit_test (RedditService.standing c)
                          + past_limit_test c' ->
                        requestCount (svc w1) + in_flight callers1
                        <= RATE_LIMIT env + Z.of_nat (length callers) - 1).
      { pose proof (in_flight_insert callers i c c Hc) as [_ Hothers].
        destruct (past_limit_test (RedditService.standing c)) as [|p|p] eqn:Epc;
          destruct (past_limit_test c') as [|p'|p'] eqn:Epc'; try lia.
        - split; [lia|]. intros callers1 ->. lia.
        - destruct Hcount as ([Hn | Hn] & Hle & Hone); split; try lia;
            intros callers1 ->; lia.
        - destruct Hcount as (Hn & Hone). split; [lia|]. intros callers1 ->. lia.
        - destruct Hcount as (Hn & Hone & Hone'). split; [lia|]. intros callers1 ->. lia. }
      destruct Hstep as [Hpos1 Hsum1].
      destruct a as [ms|];
        (eapply IH in Hrun; [rewrite length_insert in Hrun; exact Hrun|exact Hpos1|]);
        rewrite length_insert; apply Hsum1;
        match goal with
        | |- in_flight (<[i := ?x]> callers) = _ =>
            destruct (in_flight_insert callers i c x Hc) as [-> _]
        end; reflexivity.
    + destruct (forallb _ callers); [|discriminate].
      eapply IH in Hrun; [exact Hrun|exact Hpos|exact Hsum].
Qed.

(** X2.  As long as no two calls of the client overlap, each one
    returning before the next starts, the local limiter's bookkeeping
    is kept: with [RATE_LIMIT >= 1], the counter of the current window
    stays between 0 and [RATE_LIMIT] and the window never starts in the
    future, through any such sequence of fetches, searches, comment
    fetches and pauses and through one run of [syncSubreddit],
    [syncSearchResults] or [syncMultipleSubreddits], whatever is cached
    and whatever the remote side and the store reply.  When calls of
    the throttle overlap at their [await]s, whatever the order in which
    the event loop runs them, the counter stays between 0 and
    [RATE_LIMIT] plus the number of callers less one; that it can go
    above [RATE_LIMIT] then is shown by
    [overlapping_calls_exceed_limit]. *)
Theorem limiter_bookkeeping_invariant (env : Env) (w : World) :
  1 <= RATE_LIMIT env -> limiter_ok env w ->
  (forall calls, limiter_ok env (foldl (perform env) w calls)) /\
  (forall subredditName limit timeFilter sort,
      limiter_ok env
        (snd (ETLService.syncSubreddit env subredditName limit timeFilter sort w))) /\
  (forall query subreddit limit,
      limiter_ok env (snd (ETLService.syncSearchResults env query subreddit limit w))) /\
  (forall subreddits limit,
      limiter_ok env (snd (ETLService.syncMultipleSubreddits env subreddits limit w))) /\
  (forall turns callers callers' w',
      callers <> [] ->
      Forall (fun c => RedditService.standing c = RedditService.Entering) callers ->
      RedditService.event_loop env turns callers w = Some (callers', w') ->
      0 <= requestCount (svc w')
        <= RATE_LIMIT env + Z.of_nat (length callers) - 1).
Proof.
  intros Hlimit Hw. split; [|split; [|split; [|split]]].
  - intros calls. revert w Hw.
    induction calls as [|c calls IH]; intros w Hw; [exact Hw|].
    cbn [foldl]. apply IH. now apply perform_limiter_ok.
  - intros subredditName limit timeFilter sort. now apply syncSubreddit_limiter_ok.
  - intros query subreddit limit. revert w Hw.
    destruct (client_limiter_ok env Hlimit) as (_ & Hs & _).
    unfold ETLService.syncSearchResults.
    apply maintains_try_catch; [|intros e; apply maintains_ret].
    apply maintains_bind; [apply Hs|]. intros [|post rest]; [apply maintains_ret|].
    apply (maintains_preserves offline); [apply offline_limiter_ok|].
    apply (preserves_bind offline offline_trans); [apply offline_processGroups|].
    intros locals. apply (preserves_ret offline offline_refl).
  - intros subreddits limit. unfold ETLService.syncMultipleSubreddits.
    now apply syncEach_limiter_ok.
  - intros turns callers callers' w' Hsome Hentering Hrun.
    destruct Hw as ((Hpos & Hle) & _).
    assert (Hnone : in_flight callers = 0).
    { clear -Hentering. induction Hentering as [|c l Hc _ IH]; [reflexivity|].
      cbn [in_flight foldr]. fold (in_flight l). now rewrite Hc, IH. }
    assert (Hlen : 1 <= Z.of_nat (length callers)).
    { destruct callers; [contradiction|]. cbn [length]. lia. }
    destruct (event_loop_counter env turns Hlimit callers w callers' w' Hrun Hpos)
      as (Hpos' & Hsum'); [lia|].
    assert (0 <= in_flight callers').
    { clear. induction callers' as [|c l IH]; cbn [in_flight foldr]; [lia|].
      fold (in_flight l). pose proof (past_limit_test_range (RedditService.standing c)). lia. }
    lia.
Qed.

Lemma limiter_bookkeeping_invariant_witness :
  limiter_ok default_env cold_start /\
  limiter_ok default_env (foldl (perform default_env) cold_start two_searches).
Proof.
  assert (Hw : limiter_ok default_env cold_start).
  { unfold limiter_ok. vm_compute. repeat split; discriminate. }
  split; [exact Hw|].
  assert (Hlimit : 1 <= RATE_LIMIT default_env) by (vm_compute; discriminate).
  destruct (limiter_bookkeeping_invariant default_env cold_start Hlimit Hw) as (Hcalls & _).
  apply Hcalls.
Defined.

(** X3.  [getRateLimitStatus] reports a whole number of seconds that is
    never negative: the least number of seconds covering what is left
    of the 60 s window, and 0 once the window is over.  As long as the
    limiter's bookkeeping holds it is at most 60, and the reported
    count does not exceed the reported limit. *)
Theorem getRateLimitStatus_bounds (env : Env) (w : World) :
  let status := RedditService.getRateLimitStatus env w in
  let left := Z.max 0 (60000 - (now w - lastResetTime (svc w))) in
  0 <= RedditService.st_resetsIn status /\
  1000 * (RedditService.st_resetsIn status - 1) < left <= 1000 * RedditService.st_resetsIn status /\
  (60000 <= now w - lastResetTime (svc w) -> RedditService.st_resetsIn status = 0) /\
  (limiter_ok env w ->
   RedditService.st_resetsIn status <= 60 /\ RedditService.st_requestCount status <= RedditService.st_limit status).
Proof.
  cbv zeta. unfold RedditService.getRateLimitStatus.
  cbn [RedditService.st_resetsIn RedditService.st_requestCount RedditService.st_limit].
  set (left := Z.max 0 (60000 - (now w - lastResetTime (svc w)))).
  assert (Hleft : 0 <= left) by (unfold left; lia).
  pose proof (Z.div_mod (left + 999) 1000 ltac:(lia)) as Hdiv.
  pose proof (Z.mod_pos_bound (left + 999) 1000 ltac:(lia)) as Hmod.
  split; [lia|]. split; [lia|]. split.
  - intros Hover. replace left with 0 by (unfold left; lia). reflexivity.
  - intros ((_ & Hhi) & Hwindow). split; [|exact Hhi].
    assert (left <= 60000) by (unfold left; lia). lia.
Qed.

Lemma getRateLimitStatus_bounds_witness :
  RedditService.st_resetsIn (RedditService.getRateLimitStatus default_env nearly_exhausted)
    = 59 /\
  RedditService.st_requestCount (RedditService.getRateLimitStatus default_env nearly_exhausted)
    <= RedditService.st_limit (RedditService.getRateLimitStatus default_env nearly_exhausted).
Proof.
  split; [vm_compute; reflexivity|].
  destruct (getRateLimitStatus_bounds default_env nearly_exhausted) as (_ & _ & _ & Hok).
  apply Hok. unfold limiter_ok. vm_compute. repeat split; discriminate.
Defined.

(** X4.  The remote quota: when the last response left at most one
    request and its reset instant lies ahead, within the range of a
    timer, [checkRateLimit] does not let the caller through before that
    instant, and it then assumes a full quota of 60 again.  When the
    reset instant is not ahead, or more than one request is left, the
    remote quota causes no wait and is left as it is. *)
Theorem checkRateLimit_quota_wait (env : Env) (w : World) :
  let s := svc w in
  let w' := snd (RedditService.checkRateLimit env w) in
  (redditRateLimitRemaining s <= 1 -> now w < redditRateLimitReset s ->
   redditRateLimitReset s - now w <= 2147483647 ->
   redditRateLimitReset s <= now w' /\
   redditRateLimitRemaining (svc w') = 60 /\
   EvSleep SleepRedditQuota (redditRateLimitReset s - now w) ∈ events_since w w') /\
  (1 < redditRateLimitRemaining s \/ redditRateLimitReset s <= now w ->
   redditRateLimitRemaining (svc w') = redditRateLimitRemaining s /\
   forall ms, EvSleep SleepRedditQuota ms ∉ events_since w w') /\
  redditRateLimitReset (svc w') = redditRateLimitReset s.
Proof.
  cbv zeta.
  destruct (checkRateLimit_run env w) as (w' & -> & Htrace & Hnow & Hsvc & _).
  cbn [snd]. cbv zeta in Htrace, Hnow, Hsvc.
  unfold events_since. rewrite Htrace, Hnow, Hsvc; clear Htrace Hnow Hsvc.
  cbn [redditRateLimitRemaining redditRateLimitReset].
  rewrite drop_app_length. cbn [app].
  split; [|split; [|reflexivity]].
  - intros Hrem Hahead Hrange.
    assert (Hq : (redditRateLimitRemaining (svc w) <=? 1)
                 && (now w <? redditRateLimitReset (svc w)) = true).
    { apply andb_true_iff. split; [now apply Z.leb_le|now apply Z.ltb_lt]. }
    rewrite Hq.
    assert (Hd : timer_delay (redditRateLimitReset (svc w) - now w)
                 = redditRateLimitReset (svc w) - now w).
    { unfold timer_delay.
      destruct (redditRateLimitReset (svc w) - now w <? 1) eqn:Hlow;
        [apply Z.ltb_lt in Hlow; lia|].
      destruct (2147483647 <? redditRateLimitReset (svc w) - now w) eqn:Hhigh;
        [apply Z.ltb_lt in Hhigh; lia|]. reflexivity. }
    split; [|split; [reflexivity|]].
    + rewrite Hd. split_ifs; timer_facts; lia.
    + apply elem_of_cons. right. apply elem_of_app. left. apply list_elem_of_singleton.
      reflexivity.
  - intros Hno.
    assert (Hq : (redditRateLimitRemaining (svc w) <=? 1)
                 && (now w <? redditRateLimitReset (svc w)) = false).
    { apply andb_false_iff. destruct Hno as [Hno|Hno];
        [left; apply Z.leb_gt; lia|right; apply Z.ltb_ge; lia]. }
    rewrite Hq. split; [reflexivity|]. intros ms Hin.
    apply elem_of_cons in Hin as [Hin|Hin]; [discriminate|].
    cbn [app] in Hin.
    repeat match type of Hin with
           | context [if ?b then _ else _] => destruct b
           end;
      repeat (apply elem_of_cons in Hin as [Hin|Hin]; [discriminate|]);
      now apply elem_of_nil in Hin.
Qed.

Lemma checkRateLimit_quota_wait_witness :
  100500 <= now (snd (RedditService.checkRateLimit default_env nearly_exhausted)) /\
  redditRateLimitRemaining (svc (snd (RedditService.checkRateLimit default_env nearly_exhausted)))
    = 60.
Proof.
  destruct (checkRateLimit_quota_wait default_env nearly_exhausted) as (Hwait & _).
  destruct Hwait as (Hnow & Hrem & _).
  - vm_compute. discriminate.
  - vm_compute. reflexivity.
  - vm_compute. discriminate.
  - split; [exact Hnow|exact Hrem].
Defined.



(* ================================================================== *)
(** * The access token *)
(* ================================================================== *)

Lemma authenticate_cached (env : Env) (w : World) (token : string) :
  accessToken (svc w) = Some token -> token <> EmptyString ->
  now w < tokenExpiry (svc w) ->
  RedditService.authenticate env w
    = (Ok token, set_trace (trace w ++ [EvAuthenticate]) w).
Proof.
  intros Htoken Hne Hfresh. unfold RedditService.authenticate, bind, emit, Date_now, get_svc.
  cbn [svc now set_trace]. rewrite Htoken.
  apply Z.ltb_lt in Hfresh. rewrite Hfresh.
  destruct token; [contradiction|]. reflexivity.
Qed.

Lemma authenticate_unconfigured (env : Env) (w : World) :
  truthy (REDDIT_CLIENT_ID env) = false \/ truthy (REDDIT_CLIENT_SECRET env) = false ->
  truthy (accessToken (svc w)) = false ->
  RedditService.authenticate env w
    = (Throw (mkExn None not_configured), set_trace (trace w ++ [EvAuthenticate]) w).
Proof.
  intros Hmissing Hnone. unfold RedditService.authenticate, bind, emit, Date_now, get_svc.
  cbn [svc now set_trace]. rewrite Hnone. cbn [andb].
  destruct Hmissing as [-> | ->]; cbn [negb orb]; [reflexivity|].
  rewrite orb_true_r. reflexivity.
Qed.

(** X6.  The access token is reused until its expiry: once
    [authenticate] has returned a non-empty token, every later call made
    before the recorded expiry, in any world that still holds that
    token and that expiry, returns the token without any request,
    whatever else has changed in between (the throttle's counters and
    stamps, the clock, the cache, the store).  A token obtained from
    the remote side expires [expires_in] seconds, less a minute, after
    the instant at which [authenticate] was entered, not after the
    instant at which the reply arrived. *)
Theorem authenticate_token_reuse (env : Env) (w w1 : World) (token : string) :
  RedditService.authenticate env w = (Ok token, w1) -> token <> EmptyString ->
  (forall w2,
     accessToken (svc w2) = accessToken (svc w1) ->
     tokenExpiry (svc w2) = tokenExpiry (svc w1) ->
     now w2 < tokenExpiry (svc w1) ->
     RedditService.authenticate env w2
       = (Ok token, set_trace (trace w2 ++ [EvAuthenticate]) w2)) /\
  (net w1 <> net w ->
   exists r rest headers expires_in,
     net w = r :: rest /\ reply r = NetOk headers (BToken token expires_in) /\
     tokenExpiry (svc w1) = now w + expires_in * 1000 - 60000 /\
     now w1 = now w + Z.of_N (latency r)).
Proof.
  intros Hrun Hne.
  assert (Hstate : accessToken (svc w1) = Some token /\
                   (net w1 <> net w ->
                    exists r rest headers expires_in,
                      net w = r :: rest /\
                      reply r = NetOk headers (BToken token expires_in) /\
                      tokenExpiry (svc w1) = now w + expires_in * 1000 - 60000 /\
                      now w1 = now w + Z.of_N (latency r))).
  { revert Hrun. unfold RedditService.authenticate, bind, emit, Date_now, get_svc.
    cbn [svc now set_trace].
    destruct (truthy (accessToken (svc w)) && (now w <? tokenExpiry (svc w))) eqn:Hvalid.
    - unfold ret. intros [= <- <-]. cbn [svc net]. split; [|intros []; reflexivity].
      apply andb_true_iff in Hvalid as [Htruthy _].
      destruct (accessToken (svc w)) as [[|c s]|] eqn:Htok; try discriminate.
      cbn [svc set_trace]. exact Htok.
    - destruct (negb _ || negb _); [unfold throw; discriminate|].
      unfold try_catch, http, bind. cbn [net trace now set_trace].
      destruct (net w) as [|r rest] eqn:Hnet; [unfold throw; discriminate|].
      destruct (reply r) as [status message|headers body] eqn:Hreply;
        [unfold throw; discriminate|].
      cbn [snd]. destruct body as [access_token expires_in|children|children];
        try (unfold throw; discriminate).
      unfold modify_svc, ret. intros [= <- <-]. cbn. split; [reflexivity|].
      intros _. exists r, rest, headers, expires_in. repeat split.
      exact Hreply. }
  destruct Hstate as [Htoken Hfetched]. split; [|exact Hfetched].
  intros w2 Htok Hexp Hfresh. apply authenticate_cached; [|exact Hne|].
  - now rewrite Htok.
  - now rewrite Hexp.
Qed.

Lemma authenticate_token_reuse_witness :
  let w1 := snd (RedditService.authenticate default_env cold_start) in
  let w2 := snd (RedditService.checkRateLimit default_env (set_now 4000000 w1)) in
  requestCount (svc w2) <> requestCount (svc w1) /\
  lastRequestTime (svc w2) <> lastRequestTime (svc w1) /\
  RedditService.authenticate default_env w2
  = (Ok "token", set_trace (trace w2 ++ [EvAuthenticate]) w2).
Proof.
  intros w1 w2.
  split; [vm_compute; discriminate|]. split; [vm_compute; discriminate|].
  assert (Hrun : RedditService.authenticate default_env cold_start = (Ok "token", w1))
    by (vm_compute; reflexivity).
  assert (Hne : "token" <> EmptyString) by discriminate.
  destruct (authenticate_token_reuse default_env cold_start w1 "token" Hrun Hne)
    as (Hreuse & _).
  apply Hreuse.
  - vm_compute. reflexivity.
  - vm_compute. reflexivity.
  - vm_compute. reflexivity.
Defined.

Lemma checkRateLimit_keeps_token (env : Env) (w : World) :
  accessToken (svc (snd (RedditService.checkRateLimit env w))) = accessToken (svc w) /\
  net (snd (RedditService.checkRateLimit env w)) = net w /\
  requests_sent (fun _ => true) (trace (snd (RedditService.checkRateLimit env w)))
    = requests_sent (fun _ => true) (trace w).
Proof.
  destruct (checkRateLimit_run env w) as (w' & -> & Htrace & _ & Hsvc & _ & _ & Hnet & _).
  cbn [snd]. cbv zeta in Htrace, Hsvc. rewrite Hsvc, Hnet, Htrace. cbn [accessToken].
  split; [reflexivity|]. split; [reflexivity|].
  unfold requests_sent. rewrite !omap_app.
  repeat match goal with
         | |- context [if ?b then _ else _] => destruct b
         end; cbn; now rewrite app_nil_r.
Qed.

(** X7.  Without credentials and without a token, the client reaches
    the remote side for nothing.  A search and a comment fetch first
    pass the throttle, which stamps the pass and counts it as it would
    for a request that is sent; [authenticate] then fails with the
    configuration error before any request leaves, so that the world
    is the one the throttle left with one entry more in the log, and
    the scripted replies are all still pending.  [syncSearchResults]
    turns the error into a failed run with that message as its only
    entry and leaves the store as it is. *)
Theorem unconfigured_client_sends_nothing (env : Env) (w : World) :
  truthy (REDDIT_CLIENT_ID env) = false \/ truthy (REDDIT_CLIENT_SECRET env) = false ->
  truthy (accessToken (svc w)) = false ->
  let passed := snd (RedditService.checkRateLimit env w) in
  let failed := set_trace (trace passed ++ [EvAuthenticate]) passed in
  paced_instants (trace failed) = paced_instants (trace w) ++ [now failed] /\
  lastRequestTime (svc failed) = now failed /\
  (let count := if 60000 <=? now w - lastResetTime (svc w)
                then 0 else requestCount (svc w) in
   requestCount (svc failed) = (if RATE_LIMIT env <=? count then 0 else count) + 1) /\
  (forall query subreddit limit sort timeFilter,
     let run := RedditService.searchPosts env query subreddit limit sort timeFilter w in
     fst run = Throw (mkExn None not_configured) /\
     snd run = failed /\
     net (snd run) = net w /\
     requests_sent (fun _ => true) (trace (snd run))
       = requests_sent (fun _ => true) (trace w)) /\
  (forall subreddit postId limit,
     let run := RedditService.fetchComments env subreddit postId limit w in
     fst run = Throw (mkExn None not_configured) /\
     snd run = failed /\
     net (snd run) = net w /\
     requests_sent (fun _ => true) (trace (snd run))
       = requests_sent (fun _ => true) (trace w)) /\
  (forall query subreddit limit,
     let run := ETLService.syncSearchResults env query subreddit limit w in
     fst run = Ok (mkSyncResult false 0 [not_configured]) /\
     snd run = failed /\
     db (snd run) = db w /\ net (snd run) = net w).
Proof.
  intros Hmissing Hnone. cbv zeta.
  destruct (checkRateLimit_keeps_token env w) as (Htoken & Hnet & Hsent).
  pose proof (checkRateLimit_keeps_db env w) as Hdb.
  destruct (checkRateLimit_run env w) as (w1 & Hrun & Htrace & Hnow & Hsvc & _).
  cbv zeta in Htrace, Hnow, Hsvc.
  rewrite Hrun in Htoken, Hnet, Hsent, Hdb |- *.
  cbn [snd] in Htoken, Hnet, Hsent, Hdb |- *.
  assert (Hauth := authenticate_unconfigured env w1 Hmissing).
  rewrite Htoken in Hauth. specialize (Hauth Hnone).
  assert (Hlog : requests_sent (fun _ => true) (trace w1 ++ [EvAuthenticate])
                 = requests_sent (fun _ => true) (trace w)).
  { unfold requests_sent in *. rewrite omap_app, Hsent. cbn. now rewrite app_nil_r. }
  cbn [trace set_trace now svc].
  split; [|split; [|split; [|split; [|split]]]].
  - rewrite Htrace, <- Hnow. rewrite !paced_instants_app.
    repeat match goal with
           | |- context [if ?b then _ else _] => destruct b
           end; cbn; rewrite ?app_nil_r; reflexivity.
  - rewrite Hsvc, Hnow. reflexivity.
  - rewrite Hsvc. reflexivity.
  - intros query subreddit limit sort timeFilter. cbv zeta.
    unfold RedditService.searchPosts, bind. rewrite Hrun, Hauth. cbn.
    split; [reflexivity|]. split; [reflexivity|]. split; [exact Hnet|exact Hlog].
  - intros subreddit postId limit. cbv zeta.
    unfold RedditService.fetchComments, bind. rewrite Hrun, Hauth. cbn.
    split; [reflexivity|]. split; [reflexivity|]. split; [exact Hnet|exact Hlog].
  - intros query subreddit limit. cbv zeta.
    unfold ETLService.syncSearchResults, try_catch, bind at 1.
    unfold RedditService.searchPosts, bind. rewrite Hrun, Hauth. cbn.
    split; [reflexivity|]. split; [reflexivity|]. split; [exact Hdb|exact Hnet].
Qed.

Lemma unconfigured_client_sends_nothing_witness :
  fst (ETLService.syncSearchResults secret_unset "rust" None 100 cold_start)
    = Ok (mkSyncResult false 0 [not_configured]) /\
  net (snd (ETLService.syncSearchResults secret_unset "rust" None 100 cold_start))
    = net cold_start /\
  paced_instants
    (trace (snd (ETLService.syncSearchResults secret_unset "rust" None 100 cold_start)))
    = [1000000] /\
  requestCount
    (svc (snd (ETLService.syncSearchResults secret_unset "rust" None 100 cold_start))) = 1.
Proof.
  assert (Hmissing : truthy (REDDIT_CLIENT_ID secret_unset) = false \/
                     truthy (REDDIT_CLIENT_SECRET secret_unset) = false)
    by (right; reflexivity).
  assert (Hnone : truthy (accessToken (svc cold_start)) = false) by reflexivity.
  destruct (unconfigured_client_sends_nothing secret_unset cold_start Hmissing Hnone)
    as (Hpaced & _ & Hcount & _ & _ & Hsync).
  destruct (Hsync "rust" None 100) as (Hresult & Hworld & _ & Hnet).
  split; [exact Hresult|]. split; [exact Hnet|].
  rewrite Hworld. split; [rewrite Hpaced|rewrite Hcount]; vm_compute; reflexivity.
Defined.

(* ================================================================== *)
(** * Requests sent by one call of the client *)
(* ================================================================== *)

Lemma sends_refl (w : World) : sends 0 0 w w.
Proof. exists []. rewrite app_nil_r. repeat split; cbn; lia. Qed.

Lemma sends_trans (g1 t1 g2 t2 : nat) (a b c : World) :
  sends g1 t1 a b -> sends g2 t2 b c -> sends (g1 + g2) (t1 + t2) a c.
Proof.
  intros (e1 & H1 & Hg1 & Ht1) (e2 & H2 & Hg2 & Ht2). exists (e1 ++ e2).
  split; [rewrite H2, H1; now rewrite app_assoc|].
  unfold requests_sent in *. rewrite !omap_app, !length_app. lia.
Qed.

Lemma sends_weaken (g t g' t' : nat) (w w' : World) :
  (g <= g')%nat -> (t <= t')%nat -> sends g t w w' -> sends g' t' w w'.
Proof. intros Hg Ht (evs & H & ? & ?). exists evs. repeat split; [exact H|lia|lia]. Qed.

Lemma sends_bind {A B} (m : M A) (k : A -> M B) (g1 t1 g2 t2 : nat) :
  (forall w, sends g1 t1 w (snd (m w))) ->
  (forall a w, sends g2 t2 w (snd (k a w))) ->
  forall w, sends (g1 + g2) (t1 + t2) w (snd (bind m k w)).
Proof.
  intros Hm Hk w. unfold bind. specialize (Hm w).
  destruct (m w) as [[a|e] w1]; cbn [snd] in *.
  - eapply sends_trans; [exact Hm|apply Hk].
  - eapply sends_weaken; [| |exact Hm]; lia.
Qed.

Lemma sends_try_catch {A} (m : M A) (h : Exn -> M A) (g1 t1 g2 t2 : nat) :
  (forall w, sends g1 t1 w (snd (m w))) ->
  (forall e w, sends g2 t2 w (snd (h e w))) ->
  forall w, sends (g1 + g2) (t1 + t2) w (snd (try_catch m h w)).
Proof.
  intros Hm Hh w. unfold try_catch. specialize (Hm w).
  destruct (m w) as [[a|e] w1]; cbn [snd] in *.
  - eapply sends_weaken; [| |exact Hm]; lia.
  - eapply sends_trans; [exact Hm|apply Hh].
Qed.

Lemma sends_logged {A} (m : M A) (e : Event) (g t : nat) :
  (forall w, trace (snd (m w)) = trace w ++ [e]) ->
  (length (requests_sent is_get_request [e]) <= g)%nat ->
  (length (requests_sent is_token_request [e]) <= t)%nat ->
  forall w, sends g t w (snd (m w)).
Proof. intros H Hg Ht w. exists [e]. repeat split; [apply H|exact Hg|exact Ht]. Qed.

Lemma sends_silent {A} (m : M A) :
  (forall w, trace (snd (m w)) = trace w) -> forall w, sends 0 0 w (snd (m w)).
Proof.
  intros H w. exists []. rewrite H, app_nil_r. repeat split; cbn; lia.
Qed.

Lemma sends_http (req : Request) (w : World) :
  sends (if is_get_request req then 1 else 0) (if is_token_request req then 1 else 0)
        w (snd (http req w)).
Proof.
  exists [EvRequest (now w) req]. split.
  - unfold http. destruct (net w) as [|r rest]; [reflexivity|]. now destruct (reply r).
  - unfold requests_sent, is_get_request. destruct req; cbn; lia.
Qed.

Lemma sends_getCached (key : string) (w : World) : sends 0 0 w (snd (getCached key w)).
Proof.
  exists [EvCacheGet key]. split; [|cbn; lia].
  unfold getCached. destruct (redis_up w); [|reflexivity].
  destruct (redis w !! key) as [entry|]; [|reflexivity].
  now destruct (now w <? ce_expires entry).
Qed.

Lemma sends_setCache (key : string) (value : list RedditPost) (ttl : Z) (w : World) :
  sends 0 0 w (snd (setCache key value ttl w)).
Proof.
  exists [EvCacheSet key ttl]. split; [|cbn; lia].
  unfold setCache. now destruct (redis_up w).
Qed.

Lemma sends_checkRateLimit (env : Env) (w : World) :
  sends 0 0 w (snd (RedditService.checkRateLimit env w)).
Proof.
  destruct (checkRateLimit_run env w) as (w' & -> & Htrace & _). cbn [snd].
  cbv zeta in Htrace. eexists. split; [exact Htrace|].
  unfold requests_sent. rewrite !omap_app.
  repeat match goal with
         | |- context [if ?b then _ else _] => destruct b
         end; cbn; lia.
Qed.

Lemma sends_authenticate (env : Env) (w : World) :
  sends 0 1 w (snd (RedditService.authenticate env w)).
Proof.
  revert w. unfold RedditService.authenticate.
  apply (sends_bind _ _ 0 0 0 1); [apply sends_logged with (e := EvAuthenticate);
                                   [reflexivity|cbn; lia|cbn; lia]|].
  intros _. apply (sends_bind _ _ 0 0 0 1); [apply sends_silent; reflexivity|]. intros t.
  apply (sends_bind _ _ 0 0 0 1); [apply sends_silent; reflexivity|]. intros s w.
  destruct (truthy (accessToken s) && (t <? tokenExpiry s));
    [eapply sends_weaken; [| |apply sends_refl]; lia|].
  destruct (negb _ || negb _); [eapply sends_weaken; [| |apply sends_refl]; lia|].
  revert w. apply (sends_try_catch _ _ 0 1 0 0); [|intros e w; apply sends_refl].
  apply (sends_bind _ _ 0 1 0 0); [intros w; apply (sends_http ReqToken)|].
  intros response w. destruct (snd response); try apply sends_refl.
  revert w. apply (sends_bind _ _ 0 0 0 0); [apply sends_silent; reflexivity|].
  intros _ w. apply sends_refl.
Qed.

Lemma sends_retry_from {T} (requestFn : M T) (remaining : nat) :
  (forall w, sends 1 0 w (snd (requestFn w))) ->
  forall attempt w, sends (S remaining) 0 w (snd (retry_from requestFn attempt remaining w)).
Proof.
  intros Hf. induction remaining as [|remaining IH]; intros attempt; cbn [retry_from].
  - apply (sends_try_catch _ _ 1 0 0 0); [exact Hf|].
    intros e w. destruct (is_429 e); apply sends_refl.
  - intros w.
    eapply sends_weaken;
      [| |apply (sends_try_catch _ _ 1 0 (S remaining) 0); [exact Hf|]]; [lia|lia|].
    intros e w1. destruct (is_429 e);
      [|eapply sends_weaken; [| |apply sends_refl]; lia].
    revert w1. apply (sends_bind _ _ 0 0 (S remaining) 0).
    + apply sends_logged with (e := EvSleep SleepBackoff (5000 * 2 ^ attempt));
        [reflexivity|cbn; lia|cbn; lia].
    + intros _. apply IH.
Qed.

Lemma sends_updateRateLimitFromHeaders (headers : Headers) (w : World) :
  sends 0 0 w (snd (RedditService.updateRateLimitFromHeaders headers w)).
Proof. apply sends_silent. reflexivity. Qed.

(** X8.  One call of the client costs the remote side at most five
    requests: at most one token request and at most four resource
    requests (the first attempt and three retries), whatever the
    replies; a [fetchPosts] served from the cache sends none. *)
Theorem client_request_budget (env : Env) (w : World) :
  (forall subreddit limit timeFilter sort,
     sends 4 1 w (snd (RedditService.fetchPosts env subreddit limit timeFilter sort w))) /\
  (forall subreddit limit timeFilter sort posts,
     fst (getCached (RedditService.posts_cacheKey subreddit limit timeFilter sort) w)
       = Ok (Some posts) ->
     sends 0 0 w (snd (RedditService.fetchPosts env subreddit limit timeFilter sort w))) /\
  (forall query subreddit limit sort timeFilter,
     sends 4 1 w
       (snd (RedditService.searchPosts env query subreddit limit sort timeFilter w))) /\
  (forall subreddit postId limit,
     sends 4 1 w (snd (RedditService.fetchComments env subreddit postId limit w))).
Proof.
  assert (Hchain : forall T (requestFn : M T),
             (forall w, sends 1 0 w (snd (requestFn w))) ->
             forall w, sends 4 1 w
               (snd ((let* _ := RedditService.checkRateLimit env in
                      let* token := RedditService.authenticate env in
                      makeRequestWithRetry requestFn 3) w))).
  { intros T requestFn Hf.
    apply (sends_bind _ _ 0 0 4 1); [apply sends_checkRateLimit|]. intros _.
    apply (sends_bind _ _ 0 1 4 0); [apply sends_authenticate|]. intros token.
    apply (sends_retry_from requestFn 3 Hf). }
  split; [|split; [|split]].
  - intros subreddit limit timeFilter sort. revert w. unfold RedditService.fetchPosts.
    apply (sends_bind _ _ 0 0 4 1); [apply sends_getCached|].
    intros [posts|]; [intros w; eapply sends_weaken; [| |apply sends_refl]; lia|].
    apply Hchain.
    apply (sends_bind _ _ 1 0 0 0); [intros w; apply (sends_http (ReqGet _))|].
    intros response.
    apply (sends_bind _ _ 0 0 0 0); [apply sends_updateRateLimitFromHeaders|]. intros _ w.
    destruct (snd response); try apply sends_refl.
    revert w. apply (sends_bind _ _ 0 0 0 0); [apply sends_setCache|].
    intros _ w. apply sends_refl.
  - intros subreddit limit timeFilter sort posts Hhit.
    unfold RedditService.fetchPosts, bind.
    pose proof (sends_getCached
                  (RedditService.posts_cacheKey subreddit limit timeFilter sort) w) as Hlog.
    destruct (getCached _ w) as [[cached|e] w1]; cbn [fst snd] in *; [|discriminate].
    injection Hhit as ->. exact Hlog.
  - intros query subreddit limit sort timeFilter. revert w.
    unfold RedditService.searchPosts. apply Hchain.
    apply (sends_bind _ _ 1 0 0 0); [intros w; apply (sends_http (ReqGet _))|].
    intros response.
    apply (sends_bind _ _ 0 0 0 0); [apply sends_updateRateLimitFromHeaders|]. intros _ w.
    destruct (snd response); apply sends_refl.
  - intros subreddit postId limit. revert w.
    unfold RedditService.fetchComments. apply Hchain.
    apply (sends_bind _ _ 1 0 0 0); [intros w; apply (sends_http (ReqGet _))|].
    intros response.
    apply (sends_bind _ _ 0 0 0 0); [apply sends_updateRateLimitFromHeaders|]. intros _ w.
    destruct (snd response); apply sends_refl.
Qed.

Lemma client_request_budget_witness :
  sends 0 0 warm_cache
    (snd (RedditService.fetchPosts default_env "rust" 100 Week SortHot warm_cache)).
Proof.
  destruct (client_request_budget default_env warm_cache) as (_ & Hhit & _).
  apply (Hhit "rust" 100 Week SortHot (listing_posts [("t3", raw_sample); ("t5", raw_sample)])).
  vm_compute. reflexivity.
Defined.

(* ================================================================== *)
(** * Grouping the results of a search *)
(* ================================================================== *)

Lemma first_occurrences_elem (keys : list string) (k : string) :
  k ∈ first_occurrences keys <-> k ∈ keys.
Proof.
  induction keys as [|a keys IH]; [reflexivity|]. cbn [first_occurrences].
  rewrite !elem_of_cons, <- IH. split.
  - intros [->|Hin]; [now left|]. right.
    apply list_elem_of_In, List.filter_In in Hin as [Hin _]. now apply list_elem_of_In.
  - intros [->|Hin]; [now left|]. destruct (decide (k = a)) as [->|Hne]; [now left|].
    right. apply list_elem_of_In, List.filter_In. split; [now apply list_elem_of_In|].
    apply negb_true_iff, bool_decide_eq_false. exact Hne.
Qed.

Lemma NoDup_list_filter {A} (f : A -> bool) (l : list A) : NoDup l -> NoDup (List.filter f l).
Proof.
  induction 1 as [|x l Hx Hnd IH]; cbn; [constructor|].
  destruct (f x); [|exact IH]. constructor; [|exact IH].
  intros Hin. apply Hx. apply list_elem_of_In, List.filter_In in Hin as [Hin _].
  now apply list_elem_of_In.
Qed.

Lemma first_occurrences_NoDup (keys : list string) : NoDup (first_occurrences keys).
Proof.
  induction keys as [|a keys IH]; cbn [first_occurrences]; constructor.
  - intros Hin. apply list_elem_of_In, List.filter_In in Hin as [_ Hne].
    apply negb_true_iff, bool_decide_eq_false in Hne. now apply Hne.
  - now apply NoDup_list_filter.
Qed.

Lemma first_occurrences_snoc (keys : list string) (k : string) :
  first_occurrences (keys ++ [k])
    = if decide (k ∈ keys) then first_occurrences keys else first_occurrences keys ++ [k].
Proof.
  induction keys as [|a keys IH]; cbn [app first_occurrences].
  - destruct (decide (k ∈ [])) as [Hin|_]; [now apply elem_of_nil in Hin|reflexivity].
  - rewrite IH. destruct (decide (k = a)) as [->|Hne].
    + destruct (decide (a ∈ a :: keys)) as [_|Hout]; [|exfalso; apply Hout; now left].
      destruct (decide (a ∈ keys)); [reflexivity|].
      rewrite List.filter_app. cbn. rewrite bool_decide_eq_true_2 by reflexivity.
      cbn. now rewrite app_nil_r.
    + destruct (decide (k ∈ keys)) as [Hin|Hout].
      * destruct (decide (k ∈ a :: keys)) as [_|Hout]; [reflexivity|].
        exfalso. apply Hout. now right.
      * destruct (decide (k ∈ a :: keys)) as [Hin|_].
        { apply elem_of_cons in Hin as [?|?]; contradiction. }
        rewrite List.filter_app. cbn. rewrite bool_decide_eq_false_2 by exact Hne.
        reflexivity.
Qed.

Section Keyed.

Context {V : Type}.
Variable F : string -> V.

Lemma map_get_keyed (k : string) (names : list string) :
  map_get k (map (fun n => (n, F n)) names)
    = if decide (k ∈ names) then Some (F k) else None.
Proof.
  induction names as [|a names IH]; cbn [map map_get].
  - destruct (decide (k ∈ [])) as [Hin|_]; [now apply elem_of_nil in Hin|reflexivity].
  - destruct (bool_decide (a = k)) eqn:Hak.
    + apply bool_decide_eq_true in Hak as ->.
      destruct (decide (k ∈ k :: names)) as [_|Hout]; [reflexivity|].
      exfalso. apply Hout. now left.
    + apply bool_decide_eq_false in Hak. rewrite IH.
      destruct (decide (k ∈ names)) as [Hin|Hout].
      * destruct (decide (k ∈ a :: names)) as [_|Hout]; [reflexivity|].
        exfalso. apply Hout. now right.
      * destruct (decide (k ∈ a :: names)) as [Hin|_]; [|reflexivity].
        apply elem_of_cons in Hin as [->|?]; contradiction.
Qed.

Lemma map_set_keyed_absent (k : string) (v : V) (names : list string) :
  k ∉ names ->
  map_set k v (map (fun n => (n, F n)) names) = map (fun n => (n, F n)) names ++ [(k, v)].
Proof.
  induction names as [|a names IH]; intros Hout; [reflexivity|]. cbn [map map_set app].
  rewrite bool_decide_eq_false_2 by (intros ->; apply Hout; now left).
  rewrite IH; [reflexivity|]. intros Hin. apply Hout. now right.
Qed.

Lemma map_set_keyed_present (k : string) (v : V) (names : list string) :
  NoDup names -> k ∈ names ->
  map_set k v (map (fun n => (n, F n)) names)
    = map (fun n => (n, if bool_decide (n = k) then v else F n)) names.
Proof.
  induction 1 as [|a names Ha Hnd IH]; intros Hin; [now apply elem_of_nil in Hin|].
  cbn [map map_set]. destruct (bool_decide (a = k)) eqn:Hak.
  - apply bool_decide_eq_true in Hak as ->. f_equal.
    apply map_ext_in. intros n Hn. rewrite bool_decide_eq_false_2; [reflexivity|].
    intros ->. apply Ha. now apply list_elem_of_In.
  - apply bool_decide_eq_false in Hak. f_equal. apply IH.
    apply elem_of_cons in Hin as [->|Hin]; [contradiction|exact Hin].
Qed.

End Keyed.

Lemma list_filter_none {A} (f : A -> bool) (l : list A) :
  (forall x, x ∈ l -> f x = false) -> List.filter f l = [].
Proof.
  induction l as [|a l IH]; intros H; [reflexivity|]. cbn.
  rewrite (H a) by now left. apply IH. intros x Hx. apply H. now right.
Qed.

Lemma group_push_grouped (posts : list RedditPost) (post : RedditPost) :
  ETLService.group_push (groups_by_first_occurrence posts) post
    = groups_by_first_occurrence (posts ++ [post]).
Proof.
  unfold ETLService.group_push, groups_by_first_occurrence.
  set (key := rp_subreddit post). set (names := map rp_subreddit posts).
  rewrite map_app. cbn [map]. fold key names. rewrite first_occurrences_snoc.
  pose proof (first_occurrences_NoDup names) as Hnd.
  rewrite map_get_keyed.
  assert (Hnames : forall n, n ∈ first_occurrences names -> n ∈ names)
    by (intros n; apply first_occurrences_elem).
  destruct (decide (key ∈ names)) as [Hin|Hout].
  - rewrite decide_True by now apply first_occurrences_elem.
    rewrite map_get_keyed, decide_True by now apply first_occurrences_elem.
    cbn [default]. rewrite map_set_keyed_present;
      [|exact Hnd|now apply first_occurrences_elem].
    apply map_ext_in. intros n _. rewrite List.filter_app. cbn [List.filter].
    destruct (bool_decide (n = key)) eqn:Hn.
    + apply bool_decide_eq_true in Hn as ->.
      now rewrite (bool_decide_eq_true_2 (key = key)).
    + apply bool_decide_eq_false in Hn.
      rewrite (bool_decide_eq_false_2 (key = n)) by congruence. now rewrite app_nil_r.
  - rewrite decide_False by (intros H; apply Hout; now apply first_occurrences_elem).
    rewrite map_set_keyed_absent
      by (intros H; apply Hout; now apply first_occurrences_elem).
    assert (Hget : map_get key
                     (map (fun name =>
                             (name, List.filter
                                      (fun p => bool_decide (rp_subreddit p = name)) posts))
                          (first_occurrences names) ++ [(key, [])]) = Some []).
    { rewrite <- (map_set_keyed_absent
                    (fun name => List.filter
                                   (fun p => bool_decide (rp_subreddit p = name)) posts)
                    key [] (first_occurrences names))
        by (intros H; apply Hout; now apply first_occurrences_elem).
      clear. induction (map _ (first_occurrences names)) as [|[k x] m IH];
        cbn [map_set map_get].
      - now rewrite bool_decide_eq_true_2.
      - destruct (bool_decide (k = key)) eqn:Hk; cbn [map_get]; rewrite Hk;
          [reflexivity|exact IH]. }
    rewrite Hget. cbn [default app].
    rewrite <- (map_set_keyed_absent
                  (fun name => List.filter
                                 (fun p => bool_decide (rp_subreddit p = name)) posts)
                  key [] (first_occurrences names))
      by (intros H; apply Hout; now apply first_occurrences_elem).
    assert (Hset : forall (m : list (string * list RedditPost)) v1 v2,
               map_set key v2 (map_set key v1 m) = map_set key v2 m).
    { clear. induction m as [|[k x] m IH]; intros v1 v2; cbn [map_set].
      - now rewrite bool_decide_eq_true_2.
      - destruct (bool_decide (k = key)) eqn:Hk; cbn [map_set]; rewrite Hk;
          [reflexivity|now rewrite IH]. }
    rewrite Hset, map_set_keyed_absent
      by (intros H; apply Hout; now apply first_occurrences_elem).
    rewrite map_app. cbn [map]. f_equal.
    + apply map_ext_in. intros n Hn. rewrite List.filter_app. cbn [List.filter].
      rewrite (bool_decide_eq_false_2 (key = n)); [now rewrite app_nil_r|].
      intros <-. apply Hout, Hnames. now apply list_elem_of_In.
    + f_equal. f_equal. rewrite List.filter_app. cbn [List.filter].
      rewrite (bool_decide_eq_true_2 (key = key)) by reflexivity.
      rewrite list_filter_none; [reflexivity|].
      intros p Hp. apply bool_decide_eq_false. intros Heq. apply Hout.
      rewrite <- Heq. unfold names. apply list_elem_of_fmap. now exists p.
Qed.

Lemma groupBySubreddit_grouped (posts : list RedditPost) :
  ETLService.groupBySubreddit posts = groups_by_first_occurrence posts.
Proof.
  unfold ETLService.groupBySubreddit.
  induction posts as [|post posts IH] using rev_ind; [reflexivity|].
  rewrite fold_left_app. cbn [fold_left]. rewrite IH. apply group_push_grouped.
Qed.

Lemma grouped_concat (posts : list RedditPost) (names : list string) :
  NoDup names -> (forall p, p ∈ posts -> rp_subreddit p ∈ names) ->
  Permutation
    (concat (map (fun name => List.filter (fun p => bool_decide (rp_subreddit p = name)) posts)
                 names))
    posts.
Proof.
  intros Hnd. revert posts. induction Hnd as [|a names Ha Hnd IH]; intros posts Hcover.
  - destruct posts as [|p posts]; [reflexivity|].
    specialize (Hcover p ltac:(now left)). now apply elem_of_nil in Hcover.
  - cbn [map concat].
    set (others := List.filter (fun p => negb (bool_decide (rp_subreddit p = a))) posts).
    assert (Hrest : map (fun name =>
                           List.filter (fun p => bool_decide (rp_subreddit p = name)) posts)
                        names
                    = map (fun name =>
                             List.filter (fun p => bool_decide (rp_subreddit p = name)) others)
                          names).
    { apply map_ext_in. intros n Hn. unfold others. clear -Hn Ha.
      induction posts as [|p posts IHp]; [reflexivity|]. cbn [List.filter].
      destruct (bool_decide (rp_subreddit p = n)) eqn:Hpn.
      - apply bool_decide_eq_true in Hpn.
        rewrite (bool_decide_eq_false_2 (rp_subreddit p = a)).
        + cbn [negb List.filter]. rewrite (bool_decide_eq_true_2 _ Hpn). now rewrite IHp.
        + intros Hpa. apply Ha. rewrite <- Hpa, Hpn. now apply list_elem_of_In.
      - destruct (negb (bool_decide (rp_subreddit p = a))); [|exact IHp].
        cbn [List.filter]. now rewrite Hpn. }
    rewrite Hrest, IH.
    + unfold others. clear. induction posts as [|p posts IHp]; [reflexivity|].
      cbn [List.filter]. destruct (bool_decide (rp_subreddit p = a)); cbn [negb app].
      * now constructor.
      * etransitivity; [symmetry; apply Permutation_middle|]. now constructor.
    + intros p Hp. unfold others in Hp.
      apply list_elem_of_In, List.filter_In in Hp as [Hp Hne].
      apply negb_true_iff, bool_decide_eq_false in Hne.
      specialize (Hcover p ltac:(now apply list_elem_of_In)).
      apply elem_of_cons in Hcover as [?|?]; [contradiction|assumption].
Qed.

Lemma grouped_partition (posts : list RedditPost) :
  let groups := ETLService.groupBySubreddit posts in
  map fst groups = first_occurrences (map rp_subreddit posts) /\
  NoDup (map fst groups) /\
  (forall name group, (name, group) ∈ groups ->
     group <> [] /\
     group = List.filter (fun p => bool_decide (rp_subreddit p = name)) posts) /\
  Permutation (concat (map snd groups)) posts.
Proof.
  cbv zeta. rewrite groupBySubreddit_grouped. unfold groups_by_first_occurrence.
  rewrite <- !list_fmap_compose.
  assert (Hfst : (fst ∘ (fun name => (name, List.filter
                     (fun p => bool_decide (rp_subreddit p = name)) posts)))
                 <$> first_occurrences (map rp_subreddit posts)
                 = first_occurrences (map rp_subreddit posts)).
  { rewrite <- (list_fmap_id (first_occurrences _)) at 2. now apply list_fmap_ext. }
  rewrite Hfst.
  split; [reflexivity|]. split; [apply first_occurrences_NoDup|]. split.
  - intros name group Hin. apply list_elem_of_fmap in Hin as (n & [= -> ->] & Hn).
    split; [|reflexivity]. apply (proj1 (first_occurrences_elem _ _)) in Hn.
    apply list_elem_of_fmap in Hn as (p & -> & Hp). intros Hempty.
    assert (Hp' : In p (List.filter
                          (fun q => bool_decide (rp_subreddit q = rp_subreddit p)) posts)).
    { apply List.filter_In. split; [now apply list_elem_of_In|].
      now apply bool_decide_eq_true. }
    rewrite Hempty in Hp'. destruct Hp'.
  - apply grouped_concat; [apply first_occurrences_NoDup|].
    intros p Hp. apply first_occurrences_elem. apply list_elem_of_fmap. now exists p.
Qed.

(** X9.  The grouping step of [syncSearchResults] builds one group per
    community, in the order in which the communities first occur in the
    listing; each group holds exactly the posts of its community, in
    listing order, so no group is empty, no community has two groups,
    and the groups together hold every post of the listing once. *)
Theorem groupBySubreddit_partition (posts : list RedditPost) :
  let groups := ETLService.groupBySubreddit posts in
  map fst groups = first_occurrences (map rp_subreddit posts) /\
  NoDup (map fst groups) /\
  (forall name group, (name, group) ∈ groups ->
     group <> [] /\
     group = List.filter (fun p => bool_decide (rp_subreddit p = name)) posts) /\
  Permutation (concat (map snd groups)) posts.
Proof. exact (grouped_partition posts). Qed.

(* ================================================================== *)
(** * The ingestion runs over several communities *)
(* ================================================================== *)

Lemma stored_count_nonneg (outcomes : list (RedditPost * option Exn)) :
  0 <= stored_count outcomes.
Proof.
  induction outcomes as [|[post [e|]] rest IH]; cbn [stored_count]; lia.
Qed.

Lemma processGroups_accounted (groups : list (string * list RedditPost)) :
  Forall (fun g => snd g <> []) groups ->
  forall (postsCount : Z) (errors : list string) (w : World),
  exists (postsCount' : Z) (more : list string) (w' : World),
    ETLService.processGroups groups postsCount errors w
      = (Ok (postsCount', errors ++ more), w') /\
    postsCount <= postsCount' /\
    (postsCount' - postsCount) + Z.of_nat (length more)
      <= Z.of_nat (length (concat (map snd groups))).
Proof.
  induction 1 as [|[name posts] groups Hne _ IH]; intros postsCount errors w.
  - exists postsCount, [], w. cbn. rewrite app_nil_r. repeat split; lia.
  - cbn [ETLService.processGroups]. unfold bind at 1, try_catch, bind at 1.
    cbn [snd] in Hne. cbn [map concat snd]. rewrite length_app.
    destruct (SubredditModel.findOrCreate name None None w) as [[subredditId|e] w1].
    + rewrite storeEach_outcomes. cbn [fst snd].
      set (outcomes := fst (store_outcomes posts subredditId w1)).
      destruct (IH (postsCount + stored_count outcomes)
                   (errors ++ failure_messages outcomes)
                   (snd (store_outcomes posts subredditId w1)))
        as (c' & more & w' & Hrun & Hle & Hsum).
      exists c', (failure_messages outcomes ++ more), w'.
      rewrite Hrun, app_assoc. split; [reflexivity|].
      pose proof (stored_count_nonneg outcomes).
      destruct (outcomes_accounted outcomes) as [Hacc _].
      assert (Hlen : length outcomes = length posts).
      { unfold outcomes. rewrite <- (store_outcomes_posts posts subredditId w1) at 2.
        now rewrite length_map. }
      rewrite length_app. split; lia.
    + unfold ret at 1. cbn [fst snd].
      destruct (IH postsCount
                   (errors ++ ["Failed to process subreddit " +:+ name +:+ ": "
                                 +:+ exn_message e]) w1)
        as (c' & more & w' & Hrun & Hle & Hsum).
      exists c', (("Failed to process subreddit " +:+ name +:+ ": " +:+ exn_message e)
                    :: more), w'.
      rewrite Hrun. rewrite <- app_assoc. split; [reflexivity|]. split; [exact Hle|].
      cbn [length]. destruct posts as [|p posts]; [contradiction|]. cbn [length]. lia.
Qed.

(** X10.  [syncSearchResults] never throws.  A search that throws gives
    a failed run whose only entry is the error's message, and a search
    without results gives [{ success: true, postsCount: 0, errors: [] }].
    Otherwise the run reports [success = true], and the posts it counts
    as stored together with the messages it lists never exceed the posts
    found: every post is either stored, or reported by a message of its
    own, or covered by the one message of a community that could not be
    upserted. *)
Theorem syncSearchResults_accounted (env : Env) (query : string)
    (subreddit : option string) (limit : Z) (w : World) :
  exists (result : SyncResult) (w' : World),
    ETLService.syncSearchResults env query subreddit limit w = (Ok result, w') /\
    match RedditService.searchPosts env query subreddit limit ByRelevance All w with
    | (Throw e, _) => result = mkSyncResult false 0 [exn_message e]
    | (Ok [], _) => result = mkSyncResult true 0 []
    | (Ok (post :: rest), _) =>
        success result = true /\
        0 <= postsCount result /\
        postsCount result + Z.of_nat (length (errors result))
          <= Z.of_nat (length (post :: rest))
    end.
Proof.
  unfold ETLService.syncSearchResults, try_catch, bind at 1.
  destruct (RedditService.searchPosts env query subreddit limit ByRelevance All w)
    as [[[|post rest]|e] w1].
  - do 2 eexists. split; reflexivity.
  - destruct (grouped_partition (post :: rest)) as (_ & _ & Hgroups & Hperm).
    cbv zeta in Hgroups, Hperm.
    assert (Hne : Forall (fun g => snd g <> [])
                         (ETLService.groupBySubreddit (post :: rest))).
    { apply Forall_forall. intros [name group] Hin. now apply (Hgroups name group). }
    destruct (processGroups_accounted _ Hne 0 [] w1)
      as (c' & more & w' & Hrun & Hle & Hsum).
    unfold bind. rewrite Hrun. unfold ret. do 2 eexists. split; [reflexivity|].
    cbn [success postsCount errors fst snd app].
    rewrite (Permutation_length Hperm) in Hsum. split; [reflexivity|]. split; lia.
  - unfold ret. do 2 eexists. split; reflexivity.
Qed.

Lemma map_set_keys {V} (key : string) (v : V) (m : list (string * V)) :
  map fst (map_set key v m) = add_key (map fst m) key.
Proof.
  unfold add_key. induction m as [|[k x] m IH]; cbn [map_set map fst].
  - destruct (decide (key ∈ [])) as [Hin|_]; [now apply elem_of_nil in Hin|reflexivity].
  - destruct (bool_decide (k = key)) eqn:Hk.
    + apply bool_decide_eq_true in Hk as ->. cbn [map fst].
      destruct (decide (key ∈ key :: map fst m)) as [_|Hout]; [reflexivity|].
      exfalso. apply Hout. now left.
    + apply bool_decide_eq_false in Hk. cbn [map fst]. rewrite IH.
      destruct (decide (key ∈ map fst m)) as [Hin|Hout].
      * destruct (decide (key ∈ k :: map fst m)) as [_|Hout]; [reflexivity|].
        exfalso. apply Hout. now right.
      * destruct (decide (key ∈ k :: map fst m)) as [Hin|_]; [|reflexivity].
        apply elem_of_cons in Hin as [->|?]; contradiction.
Qed.

Lemma add_keys_first_occurrences (keys : list string) :
  fold_left add_key keys [] = first_occurrences keys.
Proof.
  induction keys as [|k keys IH] using rev_ind; [reflexivity|].
  rewrite fold_left_app. cbn [fold_left]. rewrite IH, first_occurrences_snoc.
  unfold add_key. destruct (decide (k ∈ first_occurrences keys)) as [Hin|Hout].
  - rewrite decide_True; [reflexivity|]. now apply first_occurrences_elem.
  - rewrite decide_False; [reflexivity|]. intros Hin. apply Hout.
    now apply first_occurrences_elem.
Qed.

Lemma syncSubreddit_returns (env : Env) (subredditName : string) (limit : Z)
    (timeFilter : TimeFilter) (sort : ListingSort) (w : World) :
  exists result,
    ETLService.syncSubreddit env subredditName limit timeFilter sort w
      = (Ok result, snd (ETLService.syncSubreddit env subredditName limit timeFilter sort w)).
Proof.
  unfold ETLService.syncSubreddit, try_catch.
  match goal with |- context [match ?m w with _ => _ end] => destruct (m w) as [[r|e] w1] end.
  - now exists r.
  - unfold ret. eexists. reflexivity.
Qed.

Lemma checkRateLimit_clock (env : Env) (w : World) :
  now w <= now (snd (RedditService.checkRateLimit env w)).
Proof.
  destruct (checkRateLimit_run env w) as (w' & -> & _ & Hnow & _). cbn [snd].
  rewrite Hnow. cbv zeta. split_ifs; timer_facts; lia.
Qed.

Lemma syncSubreddit_clock (env : Env) (subredditName : string) (limit : Z)
    (timeFilter : TimeFilter) (sort : ListingSort) (w : World) :
  now w <= now (snd (ETLService.syncSubreddit env subredditName limit timeFilter sort w)).
Proof.
  set (I := fun w' : World => now w <= now w').
  assert (Hsteady : forall a b, steady a b -> I a -> I b).
  { unfold I. intros a b (_ & _ & _ & Hab) Ha. lia. }
  assert (Hoffline : forall a b, offline a b -> I a -> I b).
  { unfold I. intros a b (_ & Hab & _) Ha. lia. }
  assert (Hthrottle : maintains I (RedditService.checkRateLimit env)).
  { unfold I. intros a Ha. pose proof (checkRateLimit_clock env a). lia. }
  destruct (client_maintains env I Hsteady Hthrottle) as (Hf & _).
  assert (Hrun : maintains I
                   (ETLService.syncSubreddit env subredditName limit timeFilter sort)).
  { unfold ETLService.syncSubreddit.
    apply maintains_try_catch; [|intros e; apply maintains_ret].
    apply maintains_bind; [apply Hf|]. intros [|post rest]; [apply maintains_ret|].
    apply (maintains_preserves offline); [exact Hoffline|].
    apply (preserves_bind offline offline_trans); [apply offline_subreddit_findOrCreate|].
    intros subredditId.
    apply (preserves_bind offline offline_trans); [apply offline_storeEach|].
    intros locals. apply (preserves_ret offline offline_refl). }
  apply Hrun. unfold I. lia.
Qed.

Lemma syncEach_run (env : Env) (subreddits : list string) (limit : Z) :
  forall (results : list (string * SyncResult)) (w : World),
  exists (results' : list (string * SyncResult)) (w' : World),
    ETLService.syncEach env subreddits limit results w = (Ok results', w') /\
    map fst results' = fold_left add_key subreddits (map fst results) /\
    now w + 1000 * Z.of_nat (length subreddits) <= now w'.
Proof.
  induction subreddits as [|subreddit rest IH]; intros results w;
    cbn [ETLService.syncEach].
  - exists results, w. repeat split. cbn. lia.
  - unfold bind at 1.
    destruct (syncSubreddit_returns env subreddit limit Week SortHot w) as (result & Hrun).
    pose proof (syncSubreddit_clock env subreddit limit Week SortHot w) as Hclock.
    rewrite Hrun. unfold bind at 1, ETLService.pause.
    match goal with |- context [ETLService.syncEach env rest limit ?acc ?w1] =>
      destruct (IH acc w1) as (results' & w' & Hrest & Hkeys & Hlater) end.
    exists results', w'. split; [exact Hrest|]. split.
    + rewrite Hkeys, map_set_keys. reflexivity.
    + cbn [now set_now] in Hlater. change (timer_delay 1000) with 1000 in Hlater.
      cbn [length]. lia.
Qed.

(** X11.  [syncMultipleSubreddits] never throws: a community whose run
    fails gets a failed result and the batch goes on.  The map it
    returns has one entry per distinct name, in the order in which the
    names first occur in the request, and the batch takes at least one
    second per requested name, repeated names included. *)
Theorem syncMultipleSubreddits_batch (env : Env) (subreddits : list string) (limit : Z)
    (w : World) :
  exists (results : list (string * SyncResult)) (w' : World),
    ETLService.syncMultipleSubreddits env subreddits limit w = (Ok results, w') /\
    map fst results = first_occurrences subreddits /\
    NoDup (map fst results) /\
    now w + 1000 * Z.of_nat (length subreddits) <= now w'.
Proof.
  unfold ETLService.syncMultipleSubreddits.
  destruct (syncEach_run env subreddits limit [] w) as (results & w' & Hrun & Hkeys & Hclock).
  exists results, w'. cbn [map] in Hkeys. rewrite add_keys_first_occurrences in Hkeys.
  split; [exact Hrun|]. split; [exact Hkeys|]. split; [|exact Hclock].
  rewrite Hkeys. apply first_occurrences_NoDup.
Qed.

(* ================================================================== *)
(** * [SubredditModel] and [AuthorModel]: lookups after writes *)
(* ================================================================== *)

Lemma same_tables_sym (d d' : Db) : same_tables d d' -> same_tables d' d.
Proof. unfold same_tables. intros (? & ? & ? & ? & ? & ?). repeat split; congruence. Qed.

Lemma filter_nil_not_exists {A} (P : A -> Prop) `{forall x, Decision (P x)} (l : list A) :
  filter P l = [] -> ~ Exists P l.
Proof.
  intros Hf Hex. apply Exists_exists in Hex as (x & Hx & HP).
  assert (Hin : x ∈ filter P l) by (apply list_elem_of_filter; auto).
  rewrite Hf in Hin. inversion Hin.
Qed.

Lemma filter_head_unique {A K : Type} `{EqDecision K} (key : A -> K) (k : K)
    (l : list A) (r : A) (rest : list A) :
  NoDup (map key l) -> filter (fun x => key x = k) l = r :: rest ->
  rest = [] /\ r ∈ l /\ key r = k.
Proof.
  intros Hnd Hf.
  assert (Hr : r ∈ filter (fun x => key x = k) l) by (rewrite Hf; now left).
  apply list_elem_of_filter in Hr as [Hk Hin].
  pose proof (filter_unique_key key l r Hnd Hin) as Hu. rewrite Hk, Hf in Hu.
  injection Hu as ->. auto.
Qed.

Lemma subreddit_findOrCreate_inv (name : string) (description : option string)
    (subscribersCount : option Z) (w w' : World) (id : Z) :
  db_wf (db w) ->
  SubredditModel.findOrCreate name description subscribersCount w = (Ok id, w') ->
  (exists r, r ∈ subreddits (db w) /\ sr_name r = name /\ sr_id r = id /\
             same_tables (db w) (db w')) \/
  ((name ∉ map sr_name (subreddits (db w))) /\ id = subreddits_id_seq (db w) + 1 /\
   (exists t, subreddits (db w')
              = subreddits (db w)
                  ++ [mkSubredditRow id name (or_null description)
                                     (or_default subscribersCount 0) t t] /\
              authors (db w') = authors (db w) /\ posts (db w') = posts (db w))).
Proof.
  intros (_ & Hnames & _) Hrun. unfold SubredditModel.findOrCreate in Hrun.
  apply bind_ok_inv in Hrun as (ids & w1 & Hsel & Hrun).
  apply query_ok_inv in Hsel as (d1 & Ht1 & _ & _ & Hs).
  unfold SubredditModel.select_id in Hs. injection Hs as Hids Hd1.
  pose proof Ht1 as (Hsr1 & Har1 & Hpr1 & Hseq1 & _).
  destruct (filter (fun r => sr_name r = name) (subreddits d1)) as [|r rest] eqn:Hf.
  - right. cbn in Hids. subst ids.
    apply query_ok_inv in Hrun as (d2 & Ht2 & _ & _ & Hins).
    rewrite <- Hd1 in Ht2. pose proof Ht2 as (Hsr2 & Har2 & Hpr2 & Hseq2 & _).
    unfold SubredditModel.insert in Hins.
    destruct (bool_decide _) eqn:Hex; [discriminate|]. injection Hins as <- <-.
    split; [|split].
    + rewrite <- Hsr1. now apply (filter_key_absent sr_name).
    + congruence.
    + exists (db_now d2). cbn. rewrite Hsr2, Hsr1, Har2, Har1, Hpr2, Hpr1, Hseq2, Hseq1.
      repeat split.
  - left. cbn in Hids. subst ids. unfold ret in Hrun. injection Hrun as <- <-.
    rewrite <- Hsr1 in Hnames.
    destruct (filter_head_unique sr_name name _ r rest Hnames Hf) as (_ & Hin & Hname).
    exists r. split; [now rewrite <- Hsr1|]. split; [exact Hname|].
    split; [reflexivity|]. now rewrite <- Hd1.
Qed.

(** X12.  [SubredditModel.findOrCreate] on a store that meets its key
    constraints returns the id of the one row carrying the name.  A
    community that is already known keeps its row exactly as it is, the
    description and subscriber count passed along being ignored; an
    unknown one gets a new row at the end of the table, with the next id
    of the sequence, an empty description stored as [NULL] and a missing
    or zero subscriber count stored as 0.  Asking again for the same
    name, with whatever description, returns the same id and changes no
    table. *)
Theorem subreddit_findOrCreate_idempotent (name : string) (description : option string)
    (subscribersCount : option Z) (w w' : World) (id : Z) :
  db_wf (db w) ->
  SubredditModel.findOrCreate name description subscribersCount w = (Ok id, w') ->
  (exists r, filter (fun x => sr_name x = name) (subreddits (db w')) = [r] /\ sr_id r = id) /\
  (name ∈ map sr_name (subreddits (db w)) -> same_tables (db w) (db w')) /\
  (name ∉ map sr_name (subreddits (db w)) ->
   id = subreddits_id_seq (db w) + 1 /\
   exists t, subreddits (db w')
             = subreddits (db w)
                 ++ [mkSubredditRow id name (or_null description)
                                    (or_default subscribersCount 0) t t]) /\
  (forall description' subscribersCount' w'' id',
     SubredditModel.findOrCreate name description' subscribersCount' w' = (Ok id', w'') ->
     id' = id /\ same_tables (db w') (db w'')).
Proof.
  intros Hwf Hrun.
  assert (Hwf' : db_wf (db w')).
  { pose proof (subreddit_findOrCreate_store_ok name description subscribersCount w Hwf)
      as H. rewrite Hrun in H. exact H. }
  assert (Hrow : exists r, r ∈ subreddits (db w') /\ sr_name r = name /\ sr_id r = id).
  { destruct (subreddit_findOrCreate_inv _ _ _ _ _ _ Hwf Hrun)
      as [(r & Hin & Hname & Hid & Hsame)|(_ & _ & t & Hrows & _)].
    - exists r. destruct Hsame as (-> & _). auto.
    - eexists. rewrite Hrows. split; [apply elem_of_app; right; now left|]. split; reflexivity. }
  destruct Hrow as (r & Hin & Hname & Hid).
  assert (Hone : filter (fun x => sr_name x = name) (subreddits (db w')) = [r]).
  { rewrite <- Hname. apply (filter_unique_key sr_name); [apply Hwf'|exact Hin]. }
  split; [now exists r|]. split; [|split].
  - intros Hknown.
    destruct (subreddit_findOrCreate_inv _ _ _ _ _ _ Hwf Hrun)
      as [(_ & _ & _ & _ & Hsame)|(Hnew & _)]; [exact Hsame|contradiction].
  - intros Hunknown.
    destruct (subreddit_findOrCreate_inv _ _ _ _ _ _ Hwf Hrun)
      as [(r0 & Hin0 & Hname0 & _)|(_ & Hseq & t & Hrows & _)].
    + exfalso. apply Hunknown. apply list_elem_of_fmap. now exists r0.
    + split; [exact Hseq|now exists t].
  - intros description' subscribersCount' w'' id' Hagain.
    destruct (subreddit_findOrCreate_inv _ _ _ _ _ _ Hwf' Hagain)
      as [(r' & Hin' & Hname' & Hid' & Hsame)|(Hnew & _)].
    + split; [|exact Hsame].
      assert (Hr' : r' ∈ filter (fun x => sr_name x = name) (subreddits (db w')))
        by (apply list_elem_of_filter; auto).
      rewrite Hone in Hr'. apply list_elem_of_singleton in Hr'. congruence.
    + exfalso. apply Hnew. apply list_elem_of_fmap. now exists r.
Qed.

Lemma subreddit_findOrCreate_idempotent_witness :
  exists r, filter (fun x => sr_name x = "rust")
                   (subreddits (db (snd (SubredditModel.findOrCreate "rust" None None
                                           (boot 0 [] []))))) = [r] /\ sr_id r = 1.
Proof.
  assert (Hwf : db_wf (db (boot 0 [] []))).
  { unfold db_wf, keys_ok. apply (bool_decide_unpack _). vm_compute. exact I. }
  assert (Hrun : SubredditModel.findOrCreate "rust" None None (boot 0 [] [])
                 = (Ok 1, snd (SubredditModel.findOrCreate "rust" None None (boot 0 [] []))))
    by (vm_compute; reflexivity).
  destruct (subreddit_findOrCreate_idempotent _ _ _ _ _ _ Hwf Hrun) as (Hrow & _).
  exact Hrow.
Defined.

(** X13.  A lookup after [AuthorModel.findOrCreate]: whether the handle
    was known or not, [findByUsername] then finds a row for it that
    carries the id that was returned and the two karma values that were
    passed. *)
Theorem author_findOrCreate_then_find (username : string) (linkKarma commentKarma : Z)
    (w w' w'' : World) (id : Z) (found : option AuthorRow) :
  AuthorModel.findOrCreate username linkKarma commentKarma w = (Ok id, w') ->
  AuthorModel.findByUsername username w' = (Ok found, w'') ->
  exists a, found = Some a /\ ar_id a = id /\ ar_username a = username /\
            ar_link_karma a = linkKarma /\ ar_comment_karma a = commentKarma.
Proof.
  intros Hrun Hfind. unfold AuthorModel.findByUsername in Hfind.
  apply query_ok_inv in Hfind as (d3 & (_ & Har3 & _) & _ & _ & Hfind).
  injection Hfind as <- _. rewrite Har3. clear Har3 d3.
  unfold AuthorModel.findOrCreate in Hrun.
  apply bind_ok_inv in Hrun as (ids & w1 & Hsel & Hrun).
  apply query_ok_inv in Hsel as (d1 & (_ & Har1 & _) & _ & _ & Hs).
  unfold AuthorModel.select_id in Hs. injection Hs as Hids Hd1.
  destruct (filter (fun r => ar_username r = username) (authors d1)) as [|r rest] eqn:Hf;
    cbn in Hids; subst ids.
  - apply query_ok_inv in Hrun as (d2 & Ht2 & _ & _ & Hins).
    rewrite <- Hd1 in Ht2. destruct Ht2 as (_ & Har2 & _ & _ & Hseq2 & _).
    unfold AuthorModel.insert in Hins.
    destruct (bool_decide _) eqn:Hex; [discriminate|]. injection Hins as <- <-.
    cbn [authors set_authors set_authors_id_seq]. rewrite Har2, filter_app, Hf.
    rewrite filter_cons_True by reflexivity. rewrite filter_nil. cbn.
    eexists. split; [reflexivity|]. repeat split.
  - apply bind_ok_inv in Hrun as ([] & w2 & Hupd & Hret).
    unfold ret in Hret. injection Hret as <- <-.
    apply query_ok_inv in Hupd as (d2 & Ht2 & _ & _ & Hupd).
    rewrite <- Hd1 in Ht2. destruct Ht2 as (_ & Har2 & _).
    unfold AuthorModel.update_karma in Hupd. injection Hupd as <-.
    cbn [authors set_authors]. rewrite Har2.
    rewrite (filter_key_map ar_username) by (intros x; now destruct (bool_decide _)).
    rewrite Hf. cbn [map head].
    assert (Hr : ar_username r = username).
    { assert (Hin : r ∈ filter (fun x => ar_username x = username) (authors d1))
        by (rewrite Hf; now left).
      now apply list_elem_of_filter in Hin as [Hk _]. }
    rewrite bool_decide_eq_true_2 by exact Hr.
    eexists. split; [reflexivity|]. repeat split. exact Hr.
Qed.

Lemma author_findOrCreate_then_find_witness :
  exists a,
    fst (AuthorModel.findByUsername "alice"
           (snd (AuthorModel.findOrCreate "alice" 5 7 alice_known))) = Ok (Some a) /\
    ar_id a = 1 /\ ar_link_karma a = 5 /\ ar_comment_karma a = 7.
Proof.
  set (w' := snd (AuthorModel.findOrCreate "alice" 5 7 alice_known)).
  assert (Hrun : AuthorModel.findOrCreate "alice" 5 7 alice_known = (Ok 1, w'))
    by (vm_compute; reflexivity).
  assert (Hfind : AuthorModel.findByUsername "alice" w'
                  = (fst (AuthorModel.findByUsername "alice" w'),
                     snd (AuthorModel.findByUsername "alice" w')))
    by apply surjective_pairing.
  destruct (fst (AuthorModel.findByUsername "alice" w')) as [found|e] eqn:Hres;
    [|vm_compute in Hres; discriminate].
  destruct (author_findOrCreate_then_find _ _ _ _ _ _ _ _ Hrun Hfind)
    as (a & -> & Hid & _ & Hlk & Hck).
  exists a. repeat split; assumption.
Defined.

(* ================================================================== *)
(** * Updates and listings of the models *)
(* ================================================================== *)



Lemma insert_desc_perm {A} (key : A -> Z) (x : A) (l : list A) :
  Permutation (insert_desc key x l) (x :: l).
Proof.
  induction l as [|y l IH]; cbn [insert_desc]; [reflexivity|].
  destruct (key y <=? key x); [reflexivity|].
  etransitivity; [apply perm_skip, IH|apply perm_swap].
Qed.

Lemma order_desc_perm {A} (key : A -> Z) (l : list A) : Permutation (order_desc key l) l.
Proof.
  unfold order_desc. induction l as [|x l IH]; cbn [foldr]; [reflexivity|].
  etransitivity; [apply insert_desc_perm|now constructor].
Qed.

Lemma insert_desc_sorted {A} (key : A -> Z) (x : A) (l : list A) :
  descending key l -> descending key (insert_desc key x l).
Proof.
  unfold descending. induction 1 as [|y l Hs IH Hy]; cbn [insert_desc].
  - repeat constructor.
  - destruct (key y <=? key x) eqn:Hyx.
    + apply Z.leb_le in Hyx. constructor; [now constructor|].
      constructor; [exact Hyx|]. eapply Forall_impl; [exact Hy|]. cbn beta. intros z Hz. lia.
    + apply Z.leb_gt in Hyx. constructor; [exact IH|].
      apply Forall_forall. intros z Hz. apply list_elem_of_In in Hz.
      apply (Permutation_in z (insert_desc_perm key x l)) in Hz.
      destruct Hz as [<-|Hz]; [lia|]. rewrite Forall_forall in Hy.
      now apply Hy, list_elem_of_In.
Qed.

Lemma order_desc_sorted {A} (key : A -> Z) (l : list A) : descending key (order_desc key l).
Proof.
  unfold order_desc. induction l as [|x l IH]; cbn [foldr]; [constructor|].
  now apply insert_desc_sorted.
Qed.

Lemma order_desc_elem {A} (key : A -> Z) (l : list A) (x : A) :
  x ∈ order_desc key l <-> x ∈ l.
Proof.
  rewrite !list_elem_of_In. split; apply Permutation_in;
    [apply order_desc_perm|symmetry; apply order_desc_perm].
Qed.

Lemma length_take_le {A} (n : nat) (l : list A) : (length (take n l) <= n)%nat.
Proof. rewrite length_take. lia. Qed.

Lemma elem_of_take_inv {A} (n : nat) (l : list A) (x : A) : x ∈ take n l -> x ∈ l.
Proof.
  intros H. apply list_elem_of_lookup_1 in H as (i & Hi).
  apply lookup_take_Some in Hi as [Hi _]. eapply list_elem_of_lookup_2, Hi.
Qed.

Lemma elem_of_drop_inv {A} (n : nat) (l : list A) (x : A) : x ∈ drop n l -> x ∈ l.
Proof.
  intros H. apply list_elem_of_lookup_1 in H as (i & Hi).
  rewrite lookup_drop in Hi. eapply list_elem_of_lookup_2, Hi.
Qed.

Lemma list_filter_decide {A} (f : A -> bool) (P : A -> Prop) `{!forall a, Decision (P a)}
    (l : list A) :
  (forall a, f a = true <-> P a) -> List.filter f l = filter P l.
Proof.
  intros Hf. induction l as [|x l IH]; [reflexivity|]. cbn [List.filter].
  destruct (f x) eqn:Hx.
  - rewrite filter_cons_True by now apply Hf. now rewrite IH.
  - rewrite filter_cons_False; [exact IH|]. intros Hq. apply Hf in Hq. congruence.
Qed.

(** X15.  The two rankings.  [findAll] returns every community once,
    by subscriber count descending.  [findHighKarmaAuthors] returns the
    first 100 rows of a list that holds exactly the authors with a link
    karma or a comment karma above the threshold, by total karma
    descending: the ones left out, if any, have a total karma that none
    of the returned ones is below.  Neither changes a table. *)
Theorem rankings_sorted (w : World) :
  (forall rows w',
     SubredditModel.findAll w = (Ok rows, w') ->
     Permutation rows (subreddits (db w)) /\ descending sr_subscribers_count rows /\
     same_tables (db w) (db w')) /\
  (forall minKarma rows w',
     AuthorModel.findHighKarmaAuthors minKarma w = (Ok rows, w') ->
     let qualifies := fun a => minKarma < ar_link_karma a \/ minKarma < ar_comment_karma a in
     let karma := fun a => ar_link_karma a + ar_comment_karma a in
     (exists ordered,
        Permutation ordered (filter qualifies (authors (db w))) /\
        descending karma ordered /\
        rows = take 100 ordered /\
        (forall a b, a ∈ rows -> b ∈ drop 100 ordered -> karma b <= karma a)) /\
     (length rows <= 100)%nat /\
     descending karma rows /\
     (forall a, a ∈ rows -> a ∈ authors (db w) /\ qualifies a) /\
     ((length (filter qualifies (authors (db w))) <= 100)%nat ->
      forall a, a ∈ authors (db w) -> qualifies a -> a ∈ rows) /\
     same_tables (db w) (db w')).
Proof.
  split.
  - intros rows w' Hrun. unfold SubredditModel.findAll in Hrun.
    apply query_ok_inv in Hrun as (d1 & Ht & _ & _ & Hs). injection Hs as <- <-.
    pose proof Ht as (-> & _).
    split; [apply order_desc_perm|]. split; [apply order_desc_sorted|exact Ht].
  - intros minKarma rows w' Hrun qualifies karma.
    unfold AuthorModel.findHighKarmaAuthors in Hrun.
    apply query_ok_inv in Hrun as (d1 & Ht & _ & _ & Hs). injection Hs as <- <-.
    pose proof Ht as (_ & -> & _).
    set (f := fun a => (minKarma <? ar_link_karma a) || (minKarma <? ar_comment_karma a)).
    assert (Hf : forall a, f a = true <-> qualifies a).
    { intros a. unfold f, qualifies. rewrite orb_true_iff, !Z.ltb_lt. reflexivity. }
    rewrite (list_filter_decide f qualifies _ Hf).
    set (candidates := filter qualifies (authors (db w))).
    fold karma.
    pose proof (order_desc_sorted karma candidates) as Hsorted.
    split; [|split; [apply length_take_le|]].
    { exists (order_desc karma candidates).
      split; [apply order_desc_perm|]. split; [exact Hsorted|]. split; [reflexivity|].
      intros a b Ha Hb. revert Ha Hb Hsorted. unfold descending.
      generalize (order_desc karma candidates). generalize 100%nat.
      clear. intros n l. revert n.
      induction l as [|x l IH]; intros n Ha Hb Hs.
      - rewrite take_nil in Ha. inversion Ha.
      - destruct n as [|n]; [inversion Ha|]. cbn in Ha, Hb.
        inversion Hs as [|? ? Hl Hx]; subst.
        apply elem_of_cons in Ha as [-> | Ha].
        + rewrite Forall_forall in Hx. apply Hx. now apply elem_of_drop_inv in Hb.
        + now apply (IH n). }
    split; [apply StronglySorted_take, Hsorted|].
    split; [|split; [|exact Ht]].
    + intros a Ha. apply elem_of_take_inv, order_desc_elem in Ha.
      apply list_elem_of_filter in Ha as [Hq Hin]. split; assumption.
    + intros Hfew a Hin Hq.
      rewrite take_ge.
      * apply order_desc_elem, list_elem_of_filter. split; assumption.
      * rewrite (Permutation_length (order_desc_perm _ _)). exact Hfew.
Qed.

Lemma rankings_sorted_witness :
  map ar_username (match fst (AuthorModel.findHighKarmaAuthors 150 three_authors) with
                   | Ok rows => rows
                   | Throw _ => []
                   end) = ["carol"; "alice"; "bob"]
  /\ exists ordered,
       Permutation ordered (authors (db three_authors)) /\
       descending (fun a => ar_link_karma a + ar_comment_karma a) ordered /\
       fst (AuthorModel.findHighKarmaAuthors 150 three_authors) = Ok (take 100 ordered).
Proof.
  split; [vm_compute; reflexivity|].
  destruct (AuthorModel.findHighKarmaAuthors 150 three_authors) as [[rows|e] w'] eqn:Hrun;
    [|vm_compute in Hrun; discriminate].
  destruct (rankings_sorted three_authors) as (_ & Hhigh).
  destruct (Hhigh 150 rows w' Hrun) as ((ordered & Hperm & Hsorted & -> & _) & _).
  exists ordered. split; [exact Hperm|]. split; [exact Hsorted|reflexivity].
Defined.



(* ================================================================== *)
(** * A stored post and its author; what a search returns *)
(* ================================================================== *)

Lemma author_findOrCreate_inv (username : string) (linkKarma commentKarma : Z)
    (w w' : World) (id : Z) :
  AuthorModel.findOrCreate username linkKarma commentKarma w = (Ok id, w') ->
  (exists a, a ∈ authors (db w') /\ ar_username a = username /\ ar_id a = id) /\
  posts (db w') = posts (db w) /\ posts_id_seq (db w') = posts_id_seq (db w) /\
  w' = set_db (db w') w.
Proof.
  intros Hrun. unfold AuthorModel.findOrCreate in Hrun.
  apply bind_ok_inv in Hrun as (ids & w1 & Hsel & Hrun).
  apply query_ok_inv in Hsel as (d1 & (_ & Har1 & Hpr1 & _ & _ & Hseq1) & _ & Hw1 & Hs).
  unfold AuthorModel.select_id in Hs. injection Hs as Hids Hd1.
  destruct (filter (fun r => ar_username r = username) (authors d1)) as [|r rest] eqn:Hf;
    cbn in Hids; subst ids.
  - apply query_ok_inv in Hrun as (d2 & Ht2 & _ & Hw' & Hins).
    rewrite <- Hd1 in Ht2. destruct Ht2 as (_ & Har2 & Hpr2 & _ & _ & Hseq2).
    unfold AuthorModel.insert in Hins.
    destruct (bool_decide _) eqn:Hex; [discriminate|]. injection Hins as <- Hdb.
    rewrite <- Hdb. cbn. split; [|split; [congruence|split; [congruence|]]].
    + eexists. split; [apply elem_of_app; right; now left|]. split; reflexivity.
    + rewrite Hw', Hw1, Hdb. reflexivity.
  - apply bind_ok_inv in Hrun as ([] & w2 & Hupd & Hret).
    unfold ret in Hret. injection Hret as <- <-.
    apply query_ok_inv in Hupd as (d2 & Ht2 & _ & Hw2 & Hupd).
    rewrite <- Hd1 in Ht2. destruct Ht2 as (_ & Har2 & Hpr2 & _ & _ & Hseq2).
    unfold AuthorModel.update_karma in Hupd. injection Hupd as Hdb.
    assert (Hr : r ∈ authors d2 /\ ar_username r = username).
    { assert (Hin : r ∈ filter (fun x => ar_username x = username) (authors d1))
        by (rewrite Hf; now left).
      apply list_elem_of_filter in Hin as [Hk Hin]. rewrite Har2. auto. }
    destruct Hr as [Hin Hname].
    rewrite <- Hdb. cbn. split; [|split; [congruence|split; [congruence|]]].
    + exists (AuthorModel.overwritten linkKarma commentKarma (db_now d2) r).
      split; [|split; [exact Hname|reflexivity]].
      apply list_elem_of_fmap. exists r. split; [|exact Hin].
      now rewrite bool_decide_eq_true_2.
    + rewrite Hw2, Hw1, Hdb. reflexivity.
Qed.

(** X17.  A post stored for the first time is linked to its author: on
    a store that meets its key constraints, after a successful
    [storePost] of an item whose identifier was unknown, the table holds
    a row for the item whose [author_id] is the id of the [authors] row
    carrying the item's author handle, whose [subreddit_id] is the id
    passed in, whose content is [NULL] when the item has no text, whose
    creation time is the item's in milliseconds, and which is neither
    processed nor scored yet. *)
Theorem storePost_links_author (redditPost : RedditPost) (subredditId : Z)
    (w w' : World) :
  db_wf (db w) ->
  rp_id redditPost ∉ map pr_reddit_id (posts (db w)) ->
  ETLService.storePost redditPost subredditId w = (Ok tt, w') ->
  exists (row : PostRow) (author : AuthorRow),
    filter (fun p => pr_reddit_id p = rp_id redditPost) (posts (db w')) = [row] /\
    author ∈ authors (db w') /\ ar_username author = rp_author redditPost /\
    pr_author_id row = Some (ar_id author) /\
    pr_subreddit_id row = Some subredditId /\
    pr_title row = rp_title redditPost /\
    pr_content row = or_null (Some (rp_selftext redditPost)) /\
    pr_created_utc row = rp_created_utc redditPost * 1000 /\
    pr_processed row = false /\ pr_relevance_score row = 0.
Proof.
  intros Hwf Hfresh Hrun. unfold ETLService.storePost in Hrun.
  apply bind_ok_inv in Hrun as (authorId & w1 & Hauthor & Hrun).
  apply bind_ok_inv in Hrun as (postId & w2 & Hcreate & Hret).
  unfold ret in Hret. injection Hret as <-.
  assert (Hwf1 : db_wf (db w1)).
  { pose proof (author_findOrCreate_store_ok (rp_author redditPost) 0 0 w Hwf) as H.
    rewrite Hauthor in H. exact H. }
  destruct (author_findOrCreate_inv _ _ _ _ _ _ Hauthor)
    as ((author & Hin & Hname & Hid) & Hposts & _).
  apply create_inv in Hcreate as (d1 & (_ & Har1 & Hpr1 & _) & Hup).
  assert (Hnone : filter (fun x => pr_reddit_id x = rp_id redditPost) (posts d1) = []).
  { rewrite Hpr1, Hposts.
    destruct (filter _ (posts (db w))) as [|x rest] eqn:Hsome; [reflexivity|].
    exfalso. assert (Hx : x ∈ filter (fun x => pr_reddit_id x = rp_id redditPost)
                                     (posts (db w))) by (rewrite Hsome; now left).
    apply list_elem_of_filter in Hx as [Hx Hin']. apply Hfresh. rewrite <- Hx.
    apply list_elem_of_fmap. now exists x. }
  apply upsert_ok_inv in Hup as (_ & Har2 & _ & _ & _ & _ & _ & _ & Hup).
  cbn [reddit_id] in Hup. rewrite Hnone in Hup.
  destruct Hup as (_ & Hrows & _). rewrite Hrows, Har2.
  eexists. exists author. split.
  - rewrite filter_app, Hnone. rewrite filter_cons_True by reflexivity.
    rewrite filter_nil. reflexivity.
  - split; [now rewrite Har1|]. split; [exact Hname|].
    destruct Hwf1 as (_ & _ & (_ & _ & Hrange) & _).
    rewrite Forall_forall in Hrange. specialize (Hrange author Hin).
    cbn. rewrite Hid in *. unfold num_or_null.
    destruct (authorId =? 0) eqn:Hz; [apply Z.eqb_eq in Hz; lia|].
    repeat split. now destruct (rp_selftext redditPost).
Qed.

Lemma storePost_links_author_witness :
  exists row author,
    filter (fun p => pr_reddit_id p = "t3_abc")
           (posts (db (snd (ETLService.storePost alice_post 1 alice_known)))) = [row] /\
    author ∈ authors (db (snd (ETLService.storePost alice_post 1 alice_known))) /\
    ar_username author = "alice" /\ pr_author_id row = Some (ar_id author).
Proof.
  assert (Hwf : db_wf (db alice_known)).
  { unfold db_wf, keys_ok. apply (bool_decide_unpack _). vm_compute. exact I. }
  assert (Hfresh : rp_id alice_post ∉ map pr_reddit_id (posts (db alice_known))).
  { cbn. apply not_elem_of_nil. }
  assert (Hrun : ETLService.storePost alice_post 1 alice_known
                 = (Ok tt, snd (ETLService.storePost alice_post 1 alice_known)))
    by (vm_compute; reflexivity).
  destruct (storePost_links_author _ _ _ _ Hwf Hfresh Hrun)
    as (row & author & Hrow & Hin & Hname & Hlink & _).
  exists row, author. auto.
Defined.

Lemma search_inv (ts_match ilike : string -> string -> bool) (searchQuery : SearchQuery)
    (w w' : World) (rows : list SearchResult) :
  PostModel.search ts_match ilike searchQuery w = (Ok rows, w') ->
  let limit := or_default (sq_limit searchQuery) 50 in
  let offset := or_default (sq_offset searchQuery) 0 in
  0 <= limit /\ 0 <= offset /\ same_tables (db w) (db w') /\
  rows = map to_result
           (take (Z.to_nat limit)
              (drop (Z.to_nat offset)
                 (order_by_rank
                    (PostModel.matching ts_match ilike
                       (PostModel.where_clauses searchQuery) (db w))))).
Proof.
  intros H. cbv zeta. unfold PostModel.search in H.
  apply query_ok_inv in H as (d1 & Ht & _ & _ & Hs).
  unfold PostModel.select_ranked in Hs.
  destruct (or_default (sq_offset searchQuery) 0 <? 0) eqn:Ho; [discriminate|].
  destruct (or_default (sq_limit searchQuery) 50 <? 0) eqn:Hl; [discriminate|].
  apply Z.ltb_ge in Hl, Ho.
  injection Hs as <- <-. rewrite (matching_same_tables _ _ _ _ _ Ht). auto.
Qed.




Lemma take_take_drop {A} (a b : nat) (l : list A) :
  take a l ++ take b (drop a l) = take (a + b) l.
Proof.
  revert l. induction a as [|a IH]; intros l; [reflexivity|].
  destruct l as [|x l]; [now rewrite drop_nil, !take_nil|].
  cbn. now rewrite IH.
Qed.

Lemma rank_ge_antisym (a b : Joined) :
  rank_ge (j_post a) (j_post b) -> rank_ge (j_post b) (j_post a) -> rank_key a = rank_key b.
Proof. unfold rank_ge, rank_key. intros H1 H2. f_equal; lia. Qed.

(** Without ties there is one sorted arrangement of the rows. *)
Lemma ranked_order_unique (l1 l2 : list Joined) :
  no_ties l1 -> Permutation l1 l2 ->
  StronglySorted (fun a b => rank_ge (j_post a) (j_post b)) l1 ->
  StronglySorted (fun a b => rank_ge (j_post a) (j_post b)) l2 ->
  l1 = l2.
Proof.
  unfold no_ties. revert l2. induction l1 as [|a l1 IH]; intros l2 Hnd Hperm Hs1 Hs2.
  - now apply Permutation_nil in Hperm.
  - destruct l2 as [|b l2]; [now apply Permutation_sym, Permutation_nil in Hperm|].
    inversion Hs1 as [|? ? Hs1' Ha]; subst. inversion Hs2 as [|? ? Hs2' Hb]; subst.
    cbn [map] in Hnd. apply NoDup_cons in Hnd as [Hfresh Hnd].
    assert (Hab : a = b).
    { assert (Hin_a : a ∈ b :: l2).
      { apply list_elem_of_In, (Permutation_in _ Hperm). now left. }
      assert (Hin_b : b ∈ a :: l1).
      { apply list_elem_of_In, (Permutation_in _ (Permutation_sym Hperm)). now left. }
      apply elem_of_cons in Hin_a as [Heq | Hin_a]; [exact Heq|].
      apply elem_of_cons in Hin_b as [Heq | Hin_b]; [now symmetry|].
      exfalso. apply Hfresh.
      rewrite Forall_forall in Ha, Hb.
      rewrite (rank_ge_antisym a b (Ha b Hin_b) (Hb a Hin_a)).
      apply list_elem_of_fmap. now exists b. }
    subst b. f_equal. apply IH; try assumption.
    now apply Permutation_cons_inv in Hperm.
Qed.

Lemma no_ties_perm (l1 l2 : list Joined) : Permutation l1 l2 -> no_ties l2 -> no_ties l1.
Proof.
  unfold no_ties. intros Hperm Hnd.
  apply (Permutation_map rank_key) in Hperm.
  apply NoDup_ListNoDup. apply NoDup_ListNoDup in Hnd.
  eapply Permutation_NoDup; [symmetry; exact Hperm|exact Hnd].
Qed.

Lemma ranked_pages_compose (candidates : list Joined) (n k : Z)
    (first next both : list SearchResult) :
  0 < n -> 0 <= k -> no_ties candidates ->
  ranked_page candidates n k first ->
  ranked_page candidates n (k + n) next ->
  ranked_page candidates (2 * n) k both ->
  first ++ next = both.
Proof.
  intros Hn Hk Hties (o1 & Hp1 & Hs1 & ->) (o2 & Hp2 & Hs2 & ->) (o3 & Hp3 & Hs3 & ->).
  assert (H12 : o1 = o2).
  { apply ranked_order_unique; try assumption.
    - now apply (no_ties_perm _ candidates).
    - etransitivity; [exact Hp1|now symmetry]. }
  assert (H13 : o1 = o3).
  { apply ranked_order_unique; try assumption.
    - now apply (no_ties_perm _ candidates).
    - etransitivity; [exact Hp1|now symmetry]. }
  subst o2 o3. rewrite <- map_app. f_equal.
  replace (Z.to_nat (k + n)) with (Z.to_nat k + Z.to_nat n)%nat by lia.
  replace (Z.to_nat (2 * n)) with (Z.to_nat n + Z.to_nat n)%nat by lia.
  rewrite <- drop_drop.
  apply take_take_drop.
Qed.

(** X19.  Paging through a search.  On given tables, whatever a search
    with limit [limit] and offset [offset] returns is a page the
    statement allows: rows [offset] to [offset + limit] of some
    arrangement of all the matching rows that is sorted by relevance
    score, then raw score.  When no two matching rows are equal on both
    keys there is only one such arrangement, and paging then loses and
    repeats nothing: the page of [n] rows at offset [k] followed by the
    page of [n] rows at offset [k + n] is the page of [2 n] rows at
    offset [k], for any three pages the statement allows and hence for
    any three searches on those tables.  With ties the rows that are
    equal on both keys may come in another order at each execution, and
    nothing of the kind is claimed. *)
Theorem search_pages_compose (ts_match ilike : string -> string -> bool)
    (searchQuery : SearchQuery) (n k : Z) (w : World) :
  0 < n -> 0 <= k ->
  let page := fun limit offset =>
    mkSearchQuery (keywords searchQuery) (requiredKeywords searchQuery)
      (sq_subreddits searchQuery) (minUpvotes searchQuery) (minKarma searchQuery)
      (dateRange searchQuery) (Some limit) (Some offset) in
  let candidates :=
    PostModel.matching ts_match ilike (PostModel.where_clauses searchQuery) (db w) in
  (forall limit offset w1 w1' rows,
     0 < limit -> 0 <= offset -> same_tables (db w) (db w1) ->
     PostModel.search ts_match ilike (page limit offset) w1 = (Ok rows, w1') ->
     ranked_page candidates limit offset rows) /\
  (no_ties candidates ->
   forall first next both,
     ranked_page candidates n k first ->
     ranked_page candidates n (k + n) next ->
     ranked_page candidates (2 * n) k both ->
     first ++ next = both) /\
  (no_ties candidates ->
   forall w1 w2 w3 w1' w2' w3' first next both,
     same_tables (db w) (db w1) -> same_tables (db w) (db w2) ->
     same_tables (db w) (db w3) ->
     PostModel.search ts_match ilike (page n k) w1 = (Ok first, w1') ->
     PostModel.search ts_match ilike (page n (k + n)) w2 = (Ok next, w2') ->
     PostModel.search ts_match ilike (page (2 * n) k) w3 = (Ok both, w3') ->
     first ++ next = both).
Proof.
  intros Hn Hk page candidates.
  assert (Hpage : forall limit offset w1 w1' rows,
             0 < limit -> 0 <= offset -> same_tables (db w) (db w1) ->
             PostModel.search ts_match ilike (page limit offset) w1 = (Ok rows, w1') ->
             ranked_page candidates limit offset rows).
  { intros limit offset w1 w1' rows Hlimit Hoffset Hsame Hrun.
    destruct (search_inv _ _ _ _ _ _ Hrun) as (_ & _ & _ & ->).
    change (PostModel.where_clauses (page limit offset))
      with (PostModel.where_clauses searchQuery).
    rewrite (matching_same_tables _ _ _ _ _ Hsame). fold candidates.
    exists (order_by_rank candidates).
    split; [apply order_by_rank_perm|]. split; [apply order_by_rank_sorted|].
    subst page. cbn [sq_limit sq_offset]. unfold or_default.
    destruct (limit =? 0) eqn:Hl; [apply Z.eqb_eq in Hl; lia|].
    destruct (offset =? 0) eqn:Ho; [apply Z.eqb_eq in Ho; now subst offset|reflexivity]. }
  split; [exact Hpage|]. split.
  - intros Hties first next both. now apply ranked_pages_compose.
  - intros Hties w1 w2 w3 w1' w2' w3' first next both H1 H2 H3 Hfirst Hnext Hboth.
    apply (ranked_pages_compose candidates n k); try assumption.
    + apply (Hpage n k w1 w1'); try assumption; lia.
    + apply (Hpage n (k + n) w2 w2'); try assumption; lia.
    + apply (Hpage (2 * n) k w3 w3'); try assumption; lia.
Qed.

Lemma search_pages_compose_witness :
  no_ties (PostModel.matching any_text any_text
             (PostModel.where_clauses (all_posts_query None None)) (db ranked_store)) /\
  fst (PostModel.search any_text any_text (all_posts_query (Some 2) (Some 0)) ranked_store)
  = Ok (match fst (PostModel.search any_text any_text
                     (all_posts_query (Some 1) (Some 0)) ranked_store),
              fst (PostModel.search any_text any_text
                     (all_posts_query (Some 1) (Some 1)) ranked_store) with
        | Ok first, Ok next => first ++ next
        | _, _ => []
        end).
Proof.
  assert (Hties : no_ties (PostModel.matching any_text any_text
                             (PostModel.where_clauses (all_posts_query None None))
                             (db ranked_store))).
  { unfold no_ties. apply (bool_decide_unpack _). vm_compute. exact I. }
  split; [exact Hties|].
  destruct (PostModel.search any_text any_text (all_posts_query (Some 1) (Some 0))
              ranked_store) as [[first|e1] w1'] eqn:H1; [|vm_compute in H1; discriminate].
  destruct (PostModel.search any_text any_text (all_posts_query (Some 1) (Some 1))
              ranked_store) as [[next|e2] w2'] eqn:H2; [|vm_compute in H2; discriminate].
  destruct (PostModel.search any_text any_text (all_posts_query (Some 2) (Some 0))
              ranked_store) as [[both|e3] w3'] eqn:H3; [|vm_compute in H3; discriminate].
  cbn [fst]. f_equal. symmetry.
  assert (Hn : 0 < 1) by lia. assert (Hk : 0 <= 0) by lia.
  destruct (search_pages_compose any_text any_text (all_posts_query None None) 1 0
              ranked_store Hn Hk) as (_ & _ & Hcompose).
  apply (Hcompose Hties ranked_store ranked_store ranked_store w1' w2' w3' first next both);
    try apply same_tables_refl; assumption.
Defined.

(* ================================================================== *)
(** * Every outcome of the retry wrapper *)
(* ================================================================== *)

Lemma retry_from_outcome {T} (requestFn : M T) (remaining : nat) :
  forall (attempt : Z) (w0 : World),
  exists (k : nat) (w : World),
    (k <= remaining)%nat /\ throttled requestFn attempt k w0 w /\
    retry_from requestFn attempt remaining w0 = requestFn w /\
    (forall e w', requestFn w = (Throw e, w') -> exn_status e = Some 429 -> k = remaining).
Proof.
  induction remaining as [|remaining IH]; intros attempt w0.
  - exists 0%nat, w0. split; [lia|]. split; [constructor|]. split; [|reflexivity].
    cbn [retry_from]. unfold try_catch. destruct (requestFn w0) as [[v|e] w1]; [reflexivity|].
    now destruct (is_429 e).
  - cbn [retry_from]. unfold try_catch at 1.
    destruct (requestFn w0) as [[v|e] w1] eqn:Hrun.
    + exists 0%nat, w0. split; [lia|]. split; [constructor|]. split; [now rewrite Hrun|].
      intros e w'. rewrite Hrun. discriminate.
    + destruct (is_429 e) eqn:H429.
      * apply bool_decide_eq_true in H429. unfold bind at 1. cbn [sleep].
        match goal with |- context [retry_from requestFn (attempt + 1) remaining ?w1'] =>
          destruct (IH (attempt + 1) w1') as (k & w & Hk & Hthr & Hres & Hlast) end.
        exists (S k), w. split; [lia|]. split.
        { econstructor; [exact Hrun|exact H429|exact Hthr]. }
        split; [exact Hres|]. intros e' w' He' H'. f_equal. eapply Hlast; eassumption.
      * apply bool_decide_eq_false in H429.
        exists 0%nat, w0. split; [lia|]. split; [constructor|].
        split; [now rewrite Hrun|]. intros e' w'. rewrite Hrun. intros [= <- <-]. contradiction.
Qed.

Lemma throttled_duration {T} (requestFn : M T) (attempt : Z) (k : nat) (w0 w : World) :
  clock_monotone requestFn ->
  throttled requestFn attempt k w0 w ->
  0 <= attempt -> attempt + Z.of_nat k <= 18 ->
  now w0 + 5000 * (2 ^ (attempt + Z.of_nat k) - 2 ^ attempt) <= now w.
Proof.
  intros Hmono. induction 1 as [attempt w|attempt k w w1 w' e Hrun _ _ IH]; intros Ha Hk.
  - rewrite Z.add_0_r. lia.
  - specialize (IH ltac:(lia) ltac:(lia)). cbn [sleep snd now set_now set_trace] in IH.
    pose proof (Hmono w) as Hstep. rewrite Hrun in Hstep. cbn [snd] in Hstep.
    assert (Hpow : 1 <= 2 ^ attempt <= 2 ^ 18).
    { split; [|apply Z.pow_le_mono_r; lia].
      pose proof (Z.pow_pos_nonneg 2 attempt ltac:(lia) Ha). lia. }
    assert (Hdelay : timer_delay (5000 * 2 ^ attempt) = 5000 * 2 ^ attempt).
    { unfold timer_delay. change (2 ^ 18) with 262144 in Hpow.
      destruct (5000 * 2 ^ attempt <? 1) eqn:Hlow; [apply Z.ltb_lt in Hlow; lia|].
      destruct (2147483647 <? 5000 * 2 ^ attempt) eqn:Hhigh;
        [apply Z.ltb_lt in Hhigh; lia|]. reflexivity. }
    rewrite Hdelay in IH.
    replace (attempt + 1 + Z.of_nat k) with (attempt + Z.of_nat (S k)) in IH by lia.
    rewrite (Z.pow_add_r 2 attempt 1) in IH by lia. change (2 ^ 1) with 2 in IH. lia.
Qed.

(** X20.  Every run of [makeRequestWithRetry], for any [maxRetries],
    has this shape: some [k <= maxRetries] attempts are answered with a
    429, each followed by its backoff sleep, and the wrapper's outcome is
    the outcome of the attempt after them, which is a value, an error
    other than a 429, or the 429 of the last attempt allowed.  When the
    operation does not turn the clock back and [maxRetries <= 18] (so
    that every backoff is within the range of a timer), that last
    attempt starts at least [5000 * (2 ^ k - 1)] ms after the first:
    35 s for a call that is throttled throughout with the default of 3
    retries. *)
Theorem makeRequestWithRetry_outcome {T} (requestFn : M T) (maxRetries : nat)
    (w0 : World) :
  exists (k : nat) (w : World),
    (k <= maxRetries)%nat /\ throttled requestFn 0 k w0 w /\
    makeRequestWithRetry requestFn maxRetries w0 = requestFn w /\
    (forall e w', requestFn w = (Throw e, w') -> exn_status e = Some 429 ->
       k = maxRetries) /\
    (clock_monotone requestFn -> (maxRetries <= 18)%nat ->
       now w0 + 5000 * (2 ^ Z.of_nat k - 1) <= now w).
Proof.
  unfold makeRequestWithRetry.
  destruct (retry_from_outcome requestFn maxRetries 0 w0) as (k & w & Hk & Hthr & Hres & Hlast).
  exists k, w. split; [exact Hk|]. split; [exact Hthr|]. split; [exact Hres|].
  split; [exact Hlast|]. intros Hmono Hmax.
  pose proof (throttled_duration requestFn 0 k w0 w Hmono Hthr ltac:(lia) ltac:(lia)) as H.
  rewrite Z.add_0_l in H. exact H.
Qed.

Lemma http_clock_monotone (req : Request) : clock_monotone (http req).
Proof.
  intros w. unfold http. destruct (net w) as [|r rest]; [cbn; lia|].
  destruct (reply r); cbn; lia.
Qed.

Lemma makeRequestWithRetry_outcome_witness :
  35000 <= now (snd (makeRequestWithRetry
                       (http (ReqGet "https://oauth.reddit.com/r/rust/hot")) 3
                       always_throttled)).
Proof.
  set (requestFn := http (ReqGet "https://oauth.reddit.com/r/rust/hot")).
  destruct (makeRequestWithRetry_outcome requestFn 3 always_throttled)
    as (k & w & _ & _ & Hres & Hlast & Hlate).
  assert (H429 : exists w',
             makeRequestWithRetry requestFn 3 always_throttled
             = (Throw (mkExn (Some 429) "Request failed with status code 429"), w')).
  { eexists. vm_compute. reflexivity. }
  destruct H429 as (w' & Hrun). rewrite Hrun in Hres. symmetry in Hres.
  assert (Hk : k = 3%nat) by (eapply Hlast; [exact Hres|reflexivity]).
  specialize (Hlate (http_clock_monotone _) ltac:(lia)).
  pose proof (http_clock_monotone (ReqGet "https://oauth.reddit.com/r/rust/hot") w) as Hstep.
  fold requestFn in Hstep. rewrite Hres in Hstep. rewrite Hrun. cbn [snd] in *.
  subst k. change (now always_throttled) with 0 in Hlate.
  change (2 ^ Z.of_nat 3) with 8 in Hlate. lia.
Defined.

(* ================================================================== *)
(** * Statements the code never gets refused *)
(* ================================================================== *)







